(** * ai-documenter: agent runtime, adaptive cache and file-access layer

    A shallow embedding of the TypeScript sources of the documenter
    (classes/cache, helpers/file-operations, helpers/validation, the tool
    records and classes/agent) together with the properties its
    specification states about them.

    Conventions of the embedding.
    - JavaScript numbers that hold sizes, counts and timestamps are [Z];
      numbers that hold fractions (scores, memory pressure) are exact
      rationals [Q], so rounding of IEEE doubles is not modelled.
    - JavaScript strings are [string].  The embedding is exact on ASCII
      text, where a character is one code unit and one byte of UTF-8:
      [toLowerCase] folds the letters A-Z, and [Buffer.byteLength] is the
      length.
    - [async] functions are state passing over a [world]; a thrown
      exception is the [Throw] result of the error monad.
    - The Node [fs] API, [JSON.parse] and [JSON.stringify] are interfaces
      the code is written against; [MemFs] is a small in-memory
      implementation used to run the code on concrete inputs. *)

From Stdlib Require Import ZArith QArith Qround Qabs String Ascii List Bool Lia DecimalString.
From stdpp Require Import base gmap strings list.
Import ListNotations.

#[local] Open Scope string_scope.
#[local] Open Scope list_scope.
#[local] Open Scope Z_scope.
#[local] Set Default Proof Using "All".

(** ** JavaScript string methods *)

Module Str.

Definition is_upper (c : ascii) : bool :=
  let n := nat_of_ascii c in (65 <=? n)%nat && (n <=? 90)%nat.

Definition lower_char (c : ascii) : ascii :=
  if is_upper c then ascii_of_nat (nat_of_ascii c + 32) else c.

(** [s.toLowerCase()] *)
Fixpoint toLowerCase (s : string) : string :=
  match s with
  | EmptyString => EmptyString
  | String c s' => String (lower_char c) (toLowerCase s')
  end.

(** [s.startsWith(p)] *)
Fixpoint startsWith (s p : string) : bool :=
  match p, s with
  | EmptyString, _ => true
  | String _ _, EmptyString => false
  | String a p', String b s' => Ascii.eqb a b && startsWith s' p'
  end.

(** [s.indexOf(sub)]: the first position at which [sub] occurs. *)
Fixpoint indexOf (s sub : string) : option nat :=
  if startsWith s sub then Some 0%nat
  else match s with
       | EmptyString => None
       | String _ s' => option_map S (indexOf s' sub)
       end.

(** [s.includes(sub)] *)
Definition includes (s sub : string) : bool :=
  match indexOf s sub with Some _ => true | None => false end.

(** [s.split(sep)] for a separator given as a predicate on one code unit
    (a single character, or a one-character class such as [\s\-_.]). *)
Fixpoint split_on (sep : ascii -> bool) (s : string) (cur : string) : list string :=
  match s with
  | EmptyString => [cur]
  | String c s' =>
      if sep c then cur :: split_on sep s' EmptyString
      else split_on sep s' (cur +:+ String c EmptyString)
  end.

Definition split (sep : ascii -> bool) (s : string) : list string :=
  split_on sep s EmptyString.

Definition is_newline (c : ascii) : bool := Ascii.eqb c "010"%char.

(** The ASCII white space that [\s] and [trim] know: tab, line feed,
    vertical tab, form feed, carriage return and space. *)
Definition is_space (c : ascii) : bool :=
  let n := nat_of_ascii c in
  ((9 <=? n)%nat && (n <=? 13)%nat) || (n =? 32)%nat.

Fixpoint trimStart (s : string) : string :=
  match s with
  | EmptyString => EmptyString
  | String c s' => if is_space c then trimStart s' else s
  end.

Definition rev (s : string) : string :=
  string_of_list_ascii (List.rev (list_ascii_of_string s)).

(** [s.trim()] *)
Definition trim (s : string) : string := rev (trimStart (rev (trimStart s))).

(** [s.substring(0, n)] *)
Fixpoint prefix_of (n : nat) (s : string) : string :=
  match n, s with
  | O, _ => EmptyString
  | S _, EmptyString => EmptyString
  | S n', String c s' => String c (prefix_of n' s')
  end.

Definition len (s : string) : Z := Z.of_nat (String.length s).

(** [s.replace(/\*/g, '.*')] *)
Fixpoint replace_star (s : string) : string :=
  match s with
  | EmptyString => EmptyString
  | String c s' =>
      if Ascii.eqb c "*"%char then String "."%char (String "*"%char (replace_star s'))
      else String c (replace_star s')
  end.

(** [n.toString(8)] for a number that is not negative. *)
Fixpoint octal_digits (fuel : nat) (n : Z) (acc : string) : string :=
  match fuel with
  | O => acc
  | S fuel' =>
      let acc := String (ascii_of_nat (48 + Z.to_nat (n mod 8))) acc in
      if n <? 8 then acc else octal_digits fuel' (n / 8) acc
  end.

Definition octal (n : Z) : string := octal_digits (S (Z.to_nat (Z.log2 n))) n "".

(** A byte of ASCII text: a 7-bit code other than NUL. *)
Definition ascii_text (c : ascii) : Prop :=
  (0 < nat_of_ascii c < 128)%nat.

End Str.

(** Boolean comparisons on rationals, as the code's [>] and [>=]. *)
Definition Qgtb (a b : Q) : bool := negb (Qle_bool a b).
Definition Qgeb (a b : Q) : bool := Qle_bool b a.

(** [n >= v] for a number [n] and a value [v] converted to a number,
    where [None] stands for [NaN]: a comparison with [NaN] is false. *)
Definition number_ge (n : Q) (v : option Q) : bool :=
  match v with
  | Some q => Qgeb n q
  | None => false
  end.

(** [Array.prototype.sort] is stable.  For a comparator that is a total
    preorder the result is the stable insertion of the elements;
    [le a b] says that the comparator is not positive on [(a, b)]. *)
Fixpoint insert_sorted {A} (le : A -> A -> bool) (x : A) (l : list A) : list A :=
  match l with
  | [] => [x]
  | y :: l' => if le x y then x :: l else y :: insert_sorted le x l'
  end.

Definition stable_sort {A} (le : A -> A -> bool) (l : list A) : list A :=
  List.fold_right (insert_sorted le) [] l.

(** ** classes/cache: the adaptive file cache *)

Module Cache.

(** [AdaptiveFileConfig] *)
Record AdaptiveFileConfig := {
  MAX_FILE_SIZE : Q;
  CACHE_SIZE : Z;
  CACHE_TTL : Z;
  CHUNK_SIZE : Z;
  FUZZY_SEARCH_THRESHOLD : Q;
  MAX_SEARCH_DEPTH : Z;
  MEMORY_PRESSURE_THRESHOLD : Q
}.

(** [getAdaptiveConfig()], from the readings of [os.totalmem()] and
    [os.freemem()]. *)
Definition memoryPressureOf (totalMemory freeMemory : Z) : Q :=
  1 - inject_Z freeMemory / inject_Z totalMemory.

Definition Qmin2 (a b : Q) : Q := if Qle_bool a b then a else b.
Definition Qmax2 (a b : Q) : Q := if Qle_bool a b then b else a.
Definition Qmin3 (a b c : Q) : Q := Qmin2 a (Qmin2 b c).

Definition getAdaptiveConfig (totalMemory freeMemory : Z) : AdaptiveFileConfig :=
  let memoryPressure := memoryPressureOf totalMemory freeMemory in
  {| MAX_FILE_SIZE :=
       Qmin3 (inject_Z totalMemory * (1 # 10))
             (inject_Z (100 * 1024 * 1024))
             (Qmax2 (inject_Z (10 * 1024 * 1024)) (inject_Z freeMemory * (5 # 100)));
     CACHE_SIZE := Z.min (Z.max 10 (freeMemory / (1024 * 1024))) 200;
     CACHE_TTL :=
       if Qgtb memoryPressure (7 # 10) then 2 * 60 * 1000
       else if Qgtb memoryPressure (5 # 10) then 5 * 60 * 1000
       else 10 * 60 * 1000;
     CHUNK_SIZE :=
       if freeMemory >? 2 * 1024 * 1024 * 1024 then 128 * 1024
       else if freeMemory >? 512 * 1024 * 1024 then 64 * 1024
       else 32 * 1024;
     FUZZY_SEARCH_THRESHOLD := 3 # 10;
     MAX_SEARCH_DEPTH := 8;
     MEMORY_PRESSURE_THRESHOLD := 8 # 10 |}.

(** One cache entry: the value type of the [Map]. *)
Record entry := {
  content : string;
  timestamp : Z;
  size : Z;
  accessCount : Z
}.

(** The JavaScript [Map] keeps its keys in insertion order, and the cache
    relies on it, so the map is an association list with unique keys. *)
Definition jsmap := list (string * entry).

(** [Map.get] *)
Fixpoint map_get (k : string) (m : jsmap) : option entry :=
  match m with
  | [] => None
  | (k', e) :: m' => if String.eqb k k' then Some e else map_get k m'
  end.

(** [Map.delete] *)
Fixpoint map_delete (k : string) (m : jsmap) : jsmap :=
  match m with
  | [] => []
  | (k', e) :: m' => if String.eqb k k' then map_delete k m' else (k', e) :: map_delete k m'
  end.

(** [Map.set]: an existing key keeps its position, a new key goes last. *)
Fixpoint map_set (k : string) (v : entry) (m : jsmap) : jsmap :=
  match m with
  | [] => [(k, v)]
  | (k', e) :: m' => if String.eqb k k' then (k', v) :: m' else (k', e) :: map_set k v m'
  end.

Definition map_size (m : jsmap) : Z := Z.of_nat (List.length m).

(** [AdaptiveFileCache]: the fields the methods read and write. *)
Record AdaptiveFileCache := {
  cache : jsmap;
  maxSize : Z;
  ttl : Z;
  totalMemoryUsage : Z
}.

Definition new (maxSize ttl : Z) : AdaptiveFileCache :=
  {| cache := []; maxSize := maxSize; ttl := ttl; totalMemoryUsage := 0 |}.

(** [delete(filePath)] *)
Definition delete (filePath : string) (c : AdaptiveFileCache) : AdaptiveFileCache :=
  {| cache := map_delete filePath (cache c);
     maxSize := maxSize c;
     ttl := ttl c;
     totalMemoryUsage :=
       match map_get filePath (cache c) with
       | Some cached => totalMemoryUsage c - Str.len (content cached)
       | None => totalMemoryUsage c
       end |}.

(** [clear()] *)
Definition clear (c : AdaptiveFileCache) : AdaptiveFileCache :=
  {| cache := []; maxSize := maxSize c; ttl := ttl c; totalMemoryUsage := 0 |}.

(** The comparator's score in [emergencyCleanup]:
    [accessCount * 0.7 + (Date.now() - timestamp) * 0.3]. *)
Definition score (now : Z) (e : entry) : Q :=
  inject_Z (accessCount e) * (7 # 10) + inject_Z (now - timestamp e) * (3 # 10).

(** The sort of [emergencyCleanup], with the comparator
    [scoreA - scoreB]: the stable ascending order by score. *)
Definition sort_by (f : entry -> Q) (l : jsmap) : jsmap :=
  stable_sort (fun a b => Qle_bool (f (snd a)) (f (snd b))) l.

Definition delete_all (keys : list string) (c : AdaptiveFileCache) : AdaptiveFileCache :=
  List.fold_left (fun c k => delete k c) keys c.

(** The body of [emergencyCleanup()], for a given score. *)
Definition cleanupBy (rank : entry -> Q) (c : AdaptiveFileCache) : AdaptiveFileCache :=
  let targetSize := maxSize c / 2 in
  if map_size (cache c) <=? targetSize then c
  else
    let entries := sort_by rank (cache c) in
    let toRemove := firstn (Z.to_nat (map_size (cache c) - targetSize)) entries in
    delete_all (List.map fst toRemove) c.

(** [emergencyCleanup()] at clock reading [now]. *)
Definition emergencyCleanup (now : Z) (c : AdaptiveFileCache) : AdaptiveFileCache :=
  cleanupBy (score now) c.

(** [cleanupExpired()] *)
Definition cleanupExpired (now : Z) (c : AdaptiveFileCache) : AdaptiveFileCache :=
  let toDelete :=
    List.map fst (List.filter (fun kv => now - timestamp (snd kv) >? ttl c) (cache c)) in
  delete_all toDelete c.

(** [get(filePath, fileSize, _lastModified)] at clock reading [now]. *)
Definition get (now : Z) (filePath : string) (fileSize _lastModified : Z)
    (c : AdaptiveFileCache) : option string * AdaptiveFileCache :=
  match map_get filePath (cache c) with
  | None => (None, c)
  | Some cached =>
      if (now - timestamp cached >? ttl c) || negb (size cached =? fileSize)
      then (None, delete filePath c)
      else
        let cached' := {| content := content cached;
                          timestamp := now;
                          size := size cached;
                          accessCount := accessCount cached + 1 |} in
        (Some (content cached),
         {| cache := map_set filePath cached' (map_delete filePath (cache c));
            maxSize := maxSize c;
            ttl := ttl c;
            totalMemoryUsage := totalMemoryUsage c |})
  end.

(** The [while (this.cache.size >= this.maxSize)] loop of [set]: it deletes
    the first key, and stops when that key is falsy (absent or the empty
    string).  Every round removes one entry, so the length of the map
    bounds the number of rounds. *)
Fixpoint evictOldest (rounds : nat) (c : AdaptiveFileCache) : AdaptiveFileCache :=
  match rounds with
  | O => c
  | S rounds' =>
      if map_size (cache c) >=? maxSize c then
        match cache c with
        | [] => c
        | (firstKey, _) :: _ =>
            if String.eqb firstKey "" then c
            else evictOldest rounds' (delete firstKey c)
        end
      else c
  end.

(** [set(filePath, content, fileSize)] at clock reading [now] and memory
    pressure [memoryPressure = 1 - os.freemem() / os.totalmem()]. *)
Definition set (cfg : AdaptiveFileConfig) (now : Z) (memoryPressure : Q)
    (filePath content : string) (fileSize : Z)
    (c : AdaptiveFileCache) : AdaptiveFileCache :=
  let contentSize := Str.len content in
  let c1 := if Qgtb memoryPressure (MEMORY_PRESSURE_THRESHOLD cfg)
            then emergencyCleanup now c else c in
  let c2 := evictOldest (List.length (cache c1)) c1 in
  if Qgtb (inject_Z contentSize) (MAX_FILE_SIZE cfg * (5 # 10))
     && Qgtb memoryPressure (6 # 10)
  then c2
  else
    let entry := {| content := content; timestamp := now;
                    size := fileSize; accessCount := 1 |} in
    {| cache := map_set filePath entry (cache c2);
       maxSize := maxSize c2;
       ttl := ttl c2;
       totalMemoryUsage := totalMemoryUsage c2 + contentSize |}.

Definition keys (c : AdaptiveFileCache) : list string := List.map fst (cache c).

(** [getStats()], at the memory readings [os.totalmem()] and
    [os.freemem()] and the current [FILE_CONFIG]. *)
Record CacheStats := {
  stats_size : Z;
  stats_keys : list string;
  stats_memoryUsage : Z;
  stats_totalSystemMemory : Z;
  stats_freeSystemMemory : Z;
  stats_memoryPressure : Q;
  stats_config : AdaptiveFileConfig
}.

Definition getStats (cfg : AdaptiveFileConfig) (totalMemory freeMemory : Z)
    (c : AdaptiveFileCache) : CacheStats :=
  {| stats_size := map_size (cache c);
     stats_keys := keys c;
     stats_memoryUsage := totalMemoryUsage c;
     stats_totalSystemMemory := totalMemory;
     stats_freeSystemMemory := freeMemory;
     stats_memoryPressure := memoryPressureOf totalMemory freeMemory;
     stats_config := cfg |}.

(** [getEfficiencyMetrics()] *)
Record EfficiencyMetrics := {
  hitRate : Q;
  averageAccessCount : Q;
  memoryEfficiency : Q
}.

Definition getEfficiencyMetrics (c : AdaptiveFileCache) : EfficiencyMetrics :=
  let totalAccess := List.fold_left (fun acc kv => acc + accessCount (snd kv)) (cache c) 0 in
  let hitCount :=
    List.fold_left (fun acc kv => if accessCount (snd kv) >? 1 then acc + 1 else acc)
      (cache c) 0 in
  {| hitRate := if map_size (cache c) >? 0
                then inject_Z hitCount / inject_Z (map_size (cache c)) else 0;
     averageAccessCount := if map_size (cache c) >? 0
                           then inject_Z totalAccess / inject_Z (map_size (cache c)) else 0;
     memoryEfficiency := if totalMemoryUsage c >? 0
                         then inject_Z hitCount / inject_Z (totalMemoryUsage c) else 0 |}.

(** The bytes of content the map holds, to compare with the running
    total [totalMemoryUsage]. *)
Definition bytes (m : jsmap) : Z :=
  List.fold_right (fun kv acc => Str.len (content (snd kv)) + acc) 0 m.

Definition cachedBytes (c : AdaptiveFileCache) : Z := bytes (cache c).

(** What the running total counts beyond the content held. *)
Definition gap (c : AdaptiveFileCache) : Z := totalMemoryUsage c - cachedBytes c.

(** The score as the specification words it, 0.7 accessCount - 0.3 age,
    and the cleanup that ranks by it. *)
Definition claimed_score (now : Z) (e : entry) : Q :=
  inject_Z (accessCount e) * (7 # 10) - inject_Z (now - timestamp e) * (3 # 10).

Definition claimed_cleanup (now : Z) (c : AdaptiveFileCache) : AdaptiveFileCache :=
  cleanupBy (claimed_score now) c.

End Cache.

(** ** classes/errors and the monad of [async] code *)

Inductive fileop := OpRead | OpWrite | OpList | OpStat.

(** What a [catch] clause can receive. *)
Inductive exn :=
| Err (message : string)
    (** an instance of [Error]: [new Error(..)], [TypeError], [SyntaxError],
        the errors of the [fs] API *)
| FileOperationErr (message filePath : string) (operation : fileop)
| ThrownString (s : string)
| ThrownOther.

(** [getErrorMessage(error)] *)
Definition getErrorMessage (error : exn) : string :=
  match error with
  | Err message => message
  | FileOperationErr message _ _ => message
  | ThrownString s => s
  | ThrownOther => "Unknown error occurred"
  end.

Inductive result (A : Type) :=
| Ok (a : A)
| Throw (e : exn).
Arguments Ok {A} a.
Arguments Throw {A} e.

(** ** The interfaces the code is written against *)

(** [fs.Stats] and [fs.Dirent], the fields the code reads. *)
Record Stats := {
  st_size : Z;
  st_mtime : Z;
  st_birthtime : Z;
  st_mode : Z;
  st_isFile : bool;
  st_isDirectory : bool
}.

Record Dirent := {
  d_name : string;
  d_isFile : bool;
  d_isDirectory : bool
}.

(** The calls of [node:fs/promises] (and [createReadStream]) the code
    makes, on a file-system state [F].  A rejected promise is [Throw]. *)
Class NodeFs (F : Type) := {
  fs_stat : string -> F -> result Stats;
  fs_access : string -> F -> result unit;
  fs_readFile : string -> F -> result string;
  (** [fs.open(p, 'r')], [fd.read(buffer, 0, n, 0)], [fd.close()]: the
      bytes copied into the buffer, at most [n] *)
  fs_readSample : string -> nat -> F -> result (list ascii);
  fs_readdir : string -> F -> result (list Dirent);
  (** [createReadStream]: the chunks delivered to ['data'], then ['end']
      ([None]) or ['error'] with a message *)
  fs_readStream : string -> Z -> F -> list string * option string;
  fs_writeFile : string -> string -> F -> result F;
  fs_mkdir_recursive : string -> F -> result F;
  fs_copyFile : string -> string -> F -> result F
}.

(** JSON values.  An object is the list of its properties; the value of a
    key is that of its first pair. *)
#[local] Set Warnings "-register-all".
Inductive json :=
| JNull
| JBool (b : bool)
| JNum (q : Q)
| JStr (s : string)
| JArr (l : list json)
| JObj (fields : list (string * json)).

(** What the JavaScript runtime supplies: [JSON.parse] ([inl] carries the
    message of the [SyntaxError]), [JSON.stringify], [Date.toISOString],
    number formatting in template strings, regular expressions, sorting,
    and the coercions of dynamically typed values. *)
Class Runtime := {
  JSON_parse : string -> string + json;
  JSON_stringify : json -> string;
  toISOString : Z -> string;
  show_number : Q -> string;
  (** [new RegExp(source, ignoreCase ? 'i' : '')]: the [test] method of the
      expression, or [None] when the constructor throws *)
  regex_compile : string -> bool -> option (string -> bool);
  (** [Array.prototype.sort] with a comparator that is not an order *)
  array_sort : forall A : Type, (A -> A -> Q) -> list A -> list A;
  (** the number and the string array that a value the code did not
      type-check behaves as; the identity on numbers and on arrays of
      strings *)
  as_number : json -> Q;
  as_strings : json -> list string;
  (** the number that a string, an array or an object converts to in a
      comparison with a number; [None] stands for [NaN] *)
  to_number : json -> option Q
}.

(** [ToNumber(v)], as a comparison of [v] with a number applies it:
    [None] stands for [NaN]. *)
Definition ToNumber {rt : Runtime} (v : json) : option Q :=
  match v with
  | JNum q => Some q
  | JBool b => Some (if b then 1%Q else 0%Q)
  | JNull => Some 0%Q
  | JStr _ | JArr _ | JObj _ => to_number v
  end.


(** The state an [async] function of the file layer runs in: the file
    system, the module-level [fileCache] and [FILE_CONFIG], the working
    directory, and the readings of [Date.now()] and of
    [1 - os.freemem() / os.totalmem()], held fixed over one call. *)
Record world (F : Type) := {
  w_fs : F;
  w_cache : Cache.AdaptiveFileCache;
  w_config : Cache.AdaptiveFileConfig;
  w_cwd : string;
  w_now : Z;
  w_pressure : Q
}.
Arguments w_fs {F} w.
Arguments w_cache {F} w.
Arguments w_config {F} w.
Arguments w_cwd {F} w.
Arguments w_now {F} w.
Arguments w_pressure {F} w.

Definition set_fs {F} (f : F) (w : world F) : world F :=
  {| w_fs := f; w_cache := w_cache w; w_config := w_config w;
     w_cwd := w_cwd w; w_now := w_now w; w_pressure := w_pressure w |}.

Definition set_cache {F} (c : Cache.AdaptiveFileCache) (w : world F) : world F :=
  {| w_fs := w_fs w; w_cache := c; w_config := w_config w;
     w_cwd := w_cwd w; w_now := w_now w; w_pressure := w_pressure w |}.

(** State and exceptions: the state survives a throw, as mutations made
    before a JavaScript exception do. *)
Definition M (S A : Type) : Type := S -> result A * S.

Definition ret {S A} (a : A) : M S A := fun s => (Ok a, s).
Definition throw {S A} (e : exn) : M S A := fun s => (Throw e, s).
Definition bind {S A B} (m : M S A) (k : A -> M S B) : M S B :=
  fun s => match m s with
           | (Ok a, s') => k a s'
           | (Throw e, s') => (Throw e, s')
           end.
Definition try_catch {S A} (m : M S A) (handler : exn -> M S A) : M S A :=
  fun s => match m s with
           | (Ok a, s') => (Ok a, s')
           | (Throw e, s') => handler e s'
           end.
Definition gets {S A} (f : S -> A) : M S A := fun s => (Ok (f s), s).
Definition modify {S} (f : S -> S) : M S unit := fun s => (Ok tt, f s).
Definition lift_result {S A} (r : result A) : M S A := fun s => (r, s).

Notation "'let*' x ':=' m 'in' k" := (bind m (fun x => k))
  (at level 10, x pattern, m at level 100, k at level 200).
Notation "m ';;' k" := (bind m (fun _ => k))
  (at level 100, k at level 200, right associativity).

(** Partial correctness of a computation: what it returns satisfies [P]. *)
Definition post {S A} (P : A -> Prop) (m : M S A) : Prop :=
  forall s, match m s with
            | (Ok a, _) => P a
            | (Throw _, _) => True
            end.

(** Total correctness: it returns, throwing nothing, a value that
    satisfies [P]. *)
Definition returns {S A} (P : A -> Prop) (m : M S A) : Prop :=
  forall s, exists a s', m s = (Ok a, s') /\ P a.

(** Invariance: the computation keeps the property [I] of the state,
    whether it returns or throws. *)
Definition keeps {S A} (I : S -> Prop) (m : M S A) : Prop :=
  forall s, I s -> I (snd (m s)).

(** A read-only call of the [fs] API. *)
Definition fs_call {F A} (op : F -> result A) : M (world F) A :=
  fun w => (op (w_fs w), w).

(** A call of the [fs] API that changes the file system. *)
Definition fs_update {F} (op : F -> result F) : M (world F) unit :=
  fun w => match op (w_fs w) with
           | Ok f' => (Ok tt, set_fs f' w)
           | Throw e => (Throw e, w)
           end.

(** ** [node:path], on normalised POSIX paths *)

Module Path.

Definition is_slash (c : ascii) : bool := Ascii.eqb c "/"%char.

(** The segments of a normalised path: empty segments and [.] are
    dropped, [..] drops the segment before it and is itself dropped at the
    root.  [kept] holds the segments kept so far, last one first. *)
Fixpoint normalize_segments (segments kept : list string) : list string :=
  match segments with
  | [] => List.rev kept
  | segment :: rest =>
      if String.eqb segment "" || String.eqb segment "." then normalize_segments rest kept
      else if String.eqb segment ".." then normalize_segments rest (List.tl kept)
      else normalize_segments rest (segment :: kept)
  end.

(** [path.resolve(p)] in a working directory that is an absolute path: an
    absolute [p] is taken as it is and a relative one from the working
    directory, and the result is normalised. *)
Definition resolve (cwd p : string) : string :=
  let absolute := if Str.startsWith p "/" then p else cwd +:+ "/" +:+ p in
  "/" +:+ String.concat "/" (normalize_segments (Str.split is_slash absolute) []).

(** [path.join(dir, name)] for a directory path without a trailing
    separator and an entry name. *)
Definition join (dir name : string) : string := dir +:+ "/" +:+ name.

Fixpoint drop_chars (n : nat) (s : string) : string :=
  match n, s with
  | O, _ => s
  | S _, EmptyString => EmptyString
  | S n', String _ s' => drop_chars n' s'
  end.

(** [path.relative(root, p)] for [p] at or below [root]. *)
Definition relative (root p : string) : string :=
  if String.eqb root p then ""
  else if Str.startsWith p (root +:+ "/")
       then drop_chars (S (String.length root)) p
       else p.

(** [path.basename(p)] *)
Definition basename (p : string) : string :=
  List.last (Str.split is_slash p) "".

(** [path.dirname(p)]: the path without its last segment, ["."] when it
    has one segment only. *)
Definition dirname (p : string) : string :=
  match List.rev (Str.split is_slash p) with
  | [] | [_] => "."
  | _ :: parents =>
      match List.rev parents with
      | [""] => "/"
      | segs => String.concat "/" segs
      end
  end.

(** The position of the last dot of [s], counted from the start. *)
Fixpoint last_dot (s : string) (i : nat) (found : option nat) : option nat :=
  match s with
  | EmptyString => found
  | String c s' =>
      last_dot s' (S i) (if Ascii.eqb c "."%char then Some i else found)
  end.

(** [path.extname(p)]: from the last dot of the base name, empty when
    there is none or when the only dot is its first character. *)
Definition extname (p : string) : string :=
  let b := basename p in
  if String.eqb b ".." then ""
  else match last_dot b 0 None with
       | None | Some O => ""
       | Some i => drop_chars i b
       end.

End Path.

(** ** helpers/file-operations *)

Module FileOps.

(** The [FileContent] and [WriteFileResult] unions of the type
    declarations; timestamps are kept in milliseconds and rendered by
    [toISOString] when the value is serialised. *)
Inductive FileContent :=
| FileContentSuccess (file_path : string) (size : Z) (content : string) (last_modified : Z)
| FileContentError (file_path error : string).

Inductive WriteFileResult :=
| WriteFileSuccess (file_path : string) (size created last_modified : Z) (message : string)
| WriteFileError (file_path error : string).

Definition binaryExtensions : list string :=
  [".exe"; ".dll"; ".so"; ".dylib"; ".bin"; ".dat"; ".jpg"; ".jpeg"; ".png";
   ".gif"; ".webp"; ".bmp"; ".ico"; ".mp3"; ".mp4"; ".avi"; ".mov"; ".wav";
   ".flac"; ".zip"; ".tar"; ".gz"; ".rar"; ".7z"; ".pdf"; ".doc"; ".docx";
   ".xls"; ".xlsx"; ".ppt"; ".pptx"; ".woff"; ".woff2"; ".ttf"; ".otf"; ".eot"].

Definition has (l : list string) (x : string) : bool := existsb (String.eqb x) l.

(** [Buffer.alloc(n)] followed by a read that copied [bytes] into it. *)
Definition filled_buffer (n : nat) (bytes : list ascii) : list ascii :=
  firstn n bytes ++ repeat Ascii.zero (n - List.length bytes).

(** The visitor's answer, [boolean | void]: the walk tests [=== false]. *)
Definition is_false (r : option bool) : bool :=
  match r with Some false => true | _ => false end.

(** [x || d] on a number that may be missing: zero is falsy. *)
Definition or_default (x : option Q) (d : Q) : Q :=
  match x with
  | None => d
  | Some v => if Qeq_bool v 0 then d else v
  end.

(** [DirectoryVisitor], for callbacks that close over a state [S]. *)
Record DirectoryVisitor (F S : Type) := {
  visitFile : option (string -> string -> Stats -> M (S * world F) (option bool));
  visitDirectory : option (string -> string -> M (S * world F) (option bool));
  shouldEnterDirectory : option (string -> string -> bool);
  maxDepth : option Q;
  includeHidden : option bool;
  fileExtensions : option (list string)
}.
Arguments visitFile {F S} d.
Arguments visitDirectory {F S} d.
Arguments shouldEnterDirectory {F S} d.
Arguments maxDepth {F S} d.
Arguments includeHidden {F S} d.
Arguments fileExtensions {F S} d.

(** How one round of a [for] loop inside a function ends. *)
Inductive flow := Next | Return.

(** [levenshteinDistance]: the table [dp] is filled row by row; [next_row]
    computes [dp[i]] from [dp[i-1]]. *)
Fixpoint fill_row (c1 : ascii) (str2 : list ascii) (up_row : list Z) (diag left : Z)
    : list Z :=
  match str2, up_row with
  | c2 :: str2', up :: up_row' =>
      let v := if Ascii.eqb c1 c2 then diag
               else Z.min (up + 1) (Z.min (left + 1) (diag + 1)) in
      v :: fill_row c1 str2' up_row' up v
  | _, _ => []
  end.

Definition next_row (str2 : list ascii) (prev : list Z) (c1 : ascii) : list Z :=
  match prev with
  | [] => []
  | d0 :: prev' => (d0 + 1) :: fill_row c1 str2 prev' d0 (d0 + 1)
  end.

Definition levenshteinDistance (str1 str2 : string) : Z :=
  let s2 := list_ascii_of_string str2 in
  let row0 := List.map Z.of_nat (seq 0 (Datatypes.S (List.length s2))) in
  List.last (List.fold_left (next_row s2) (list_ascii_of_string str1) row0) 0.

(** A row of the table whose entry in column [j + k] is between 0 and
    the larger of the row number [i] and the column number. *)
Definition row_bounded (i j : Z) (row : list Z) : Prop :=
  forall (k : nat) (v : Z), nth_error row k = Some v -> 0 <= v <= Z.max i (j + Z.of_nat k).

(** The in-order character bonus of [calculateFuzzyScore]. *)
Fixpoint sequenceBonus (t q : list ascii) : Q :=
  match t, q with
  | c :: t', qc :: q' =>
      if Ascii.eqb c qc then (1 # 10) + sequenceBonus t' q' else sequenceBonus t' q
  | _, _ => 0
  end.

(** The class [[\s\-_.]] that splits the target into words. *)
Definition is_word_separator (c : ascii) : bool :=
  Str.is_space c || Ascii.eqb c "-"%char || Ascii.eqb c "_"%char || Ascii.eqb c "."%char.

Definition boundaryBonus (q t : string) : Q :=
  let words := Str.split is_word_separator t in
  let head := Str.prefix_of (Nat.min 3 (String.length q)) q in
  if existsb (fun word => Str.startsWith word head) words then 2 # 10 else 0.

(** [caseSensitive ? s : s.toLowerCase()] *)
Definition fold_case (caseSensitive : bool) (s : string) : string :=
  if caseSensitive then s else Str.toLowerCase s.

(** [calculateFuzzyScore(query, target, caseSensitive)] *)
Definition calculateFuzzyScore (query target : string) (caseSensitive : bool) : Q :=
  let q := fold_case caseSensitive query in
  let t := fold_case caseSensitive target in
  if String.eqb q t then 1
  else if Str.includes t q then
    let ratio := (inject_Z (Str.len q) / inject_Z (Str.len t))%Q in
    ((9 # 10) * ratio)%Q
  else
    let maxLen := Z.max (Str.len q) (Str.len t) in
    if maxLen =? 0 then 1
    else
      let distance := levenshteinDistance q t in
      let similarity := (1 - inject_Z distance / inject_Z maxLen)%Q in
      Cache.Qmin2 1
        (similarity
         + sequenceBonus (list_ascii_of_string t) (list_ascii_of_string q)
         + boundaryBonus q t)%Q.

(** [FuzzySearchResult] and [FuzzySearchOptions] *)
Inductive match_type := Exact | Substring | Fuzzy | PathMatch.

Record FuzzySearchResult := {
  fr_file_path : string;
  fr_relative_path : string;
  fr_filename : string;
  fr_directory : string;
  fr_size : Z;
  fr_last_modified : Z;
  fr_score : Q;
  fr_match_type : match_type
}.

Record FuzzySearchOptions := {
  fo_query : string;
  fo_directory_path : string;
  fo_file_extensions : option (list string);
  fo_max_results : option Q;
  fo_case_sensitive : option bool;
  fo_min_score : option Q;
  fo_include_directories : option bool
}.

(** One result of [searchFilesByPattern]. *)
Record PatternResult := {
  pr_file_path : string;
  pr_relative_path : string;
  pr_size : Z;
  pr_last_modified : Z
}.

(** [arr.slice(0, n)]: [n] is truncated to an integer, and a negative
    [n] counts from the end. *)
Definition Qtrunc (q : Q) : Z := if Qle_bool 0 q then Qfloor q else Qceiling q.

Definition slice0 {A} (n : Q) (l : list A) : list A :=
  let k := Qtrunc n in
  if k <? 0 then firstn (Z.to_nat (Z.of_nat (List.length l) + k)) l
  else firstn (Z.to_nat k) l.

Section WithFs.
Context {F : Type} {fsF : NodeFs F} {rt : Runtime}.

(** An operation of the file layer, run from a callback that has its own
    state next to the world. *)
Definition in_world {S A} (m : M (world F) A) : M (S * world F) A :=
  fun sw => match m (snd sw) with (r, w') => (r, (fst sw, w')) end.

(** [Math.min(1024, stats.size)] *)
Definition sampleSizeOf (stats : Stats) : nat := Z.to_nat (Z.min 1024 (st_size stats)).

(** [isLikelyBinary(filePath)]: it reads, never writes, and never throws. *)
Definition isLikelyBinary (filePath : string) (f : F) : bool :=
  match fs_stat filePath f with
  | Throw _ => false
  | Ok stats =>
      if st_size stats >? 100 * 1024 * 1024 then true
      else
        let ext := Str.toLowerCase (Path.extname filePath) in
        if has binaryExtensions ext then true
        else if st_size stats >? 0 then
          let sampleSize := sampleSizeOf stats in
          match fs_readSample filePath sampleSize f with
          | Throw _ => false
          | Ok bytes => existsb (Ascii.eqb Ascii.zero) (filled_buffer sampleSize bytes)
          end
        else false
  end.

(** The ['data'] handler of [streamLargeFile], chunk after chunk. *)
Fixpoint consumeChunks (cfg : Cache.AdaptiveFileConfig) (memoryPressure : Q)
    (filePath : string) (chunks : list string) (ended : option string)
    (acc : string) (totalSize : Z) : result string :=
  match chunks with
  | [] =>
      match ended with
      | None => Ok acc
      | Some msg => Throw (FileOperationErr ("Stream error: " +:+ msg) filePath OpRead)
      end
  | chunk :: rest =>
      let totalSize := totalSize + Str.len chunk in
      if Qgtb memoryPressure (Cache.MEMORY_PRESSURE_THRESHOLD cfg) then
        Throw (FileOperationErr
                 ("File streaming aborted due to high memory pressure ("
                  +:+ show_number (inject_Z (Qfloor (memoryPressure * 100 + (1 # 2))))
                  +:+ "%)") filePath OpRead)
      else if Qgtb (inject_Z totalSize) (Cache.MAX_FILE_SIZE cfg * 2) then
        Throw (FileOperationErr
                 ("File too large for streaming: " +:+ show_number (inject_Z totalSize)
                  +:+ " bytes (max: " +:+ show_number (Cache.MAX_FILE_SIZE cfg * 2)
                  +:+ ")") filePath OpRead)
      else consumeChunks cfg memoryPressure filePath rest ended (acc +:+ chunk) totalSize
  end.

(** [streamLargeFile(filePath)] *)
Definition streamLargeFile (filePath : string) : M (world F) string :=
  fun w =>
    let cfg := w_config w in
    match fs_readStream filePath (Cache.CHUNK_SIZE cfg) (w_fs w) with
    | (chunks, ended) =>
        (consumeChunks cfg (w_pressure w) filePath chunks ended "" 0, w)
    end.

Definition cache_get (p : string) (fileSize lastModified : Z) : M (world F) (option string) :=
  fun w => match Cache.get (w_now w) p fileSize lastModified (w_cache w) with
           | (r, c') => (Ok r, set_cache c' w)
           end.

Definition cache_set (p content : string) (fileSize : Z) : M (world F) unit :=
  modify (fun w => set_cache
            (Cache.set (w_config w) (w_now w) (w_pressure w) p content fileSize (w_cache w)) w).

Definition cache_delete (p : string) : M (world F) unit :=
  modify (fun w => set_cache (Cache.delete p (w_cache w)) w).

(** A cached value is used when it is truthy: [null] and the empty string
    both fall through to a fresh read. *)
Definition truthy (s : option string) : bool :=
  match s with
  | Some s => negb (String.eqb s "")
  | None => false
  end.

(** [readFileOptimized(filePath)] *)
Definition readFileOptimized (filePath : string) : M (world F) FileContent :=
  let* cwd := gets w_cwd in
  let resolvedPath := Path.resolve cwd filePath in
  try_catch
    (let* stats := fs_call (fs_stat resolvedPath) in
     let* cachedContent := cache_get resolvedPath (st_size stats) (st_mtime stats) in
     if truthy cachedContent then
       ret (FileContentSuccess resolvedPath (st_size stats)
              (default "" cachedContent) (st_mtime stats))
     else
       let* cfg := gets w_config in
       let* content :=
         if Qgtb (inject_Z (st_size stats)) (Cache.MAX_FILE_SIZE cfg)
         then streamLargeFile resolvedPath
         else
           let* content := fs_call (fs_readFile resolvedPath) in
           cache_set resolvedPath content (st_size stats) ;;
           ret content
       in
       ret (FileContentSuccess resolvedPath (st_size stats) content (st_mtime stats)))
    (fun error =>
       throw (FileOperationErr ("Failed to read file: " +:+ getErrorMessage error)
                resolvedPath OpRead)).

(** [writeFileOptimized(filePath, content, overwrite, createBackup)] *)
Definition writeFileOptimized (filePath content : string)
    (overwrite createBackup : bool) : M (world F) WriteFileResult :=
  let* cwd := gets w_cwd in
  let resolvedPath := Path.resolve cwd filePath in
  try_catch
    (let* fileExists :=
       try_catch (fs_call (fs_access resolvedPath) ;; ret true) (fun _ => ret false) in
     if fileExists && negb overwrite then
       ret (WriteFileError resolvedPath
              "File already exists and overwrite is set to false")
     else
       (if fileExists && createBackup then
          let* now := gets w_now in
          let backupPath := resolvedPath +:+ ".backup." +:+ show_number (inject_Z now) in
          fs_update (fs_copyFile resolvedPath backupPath)
        else ret tt) ;;
       fs_update (fs_mkdir_recursive (Path.dirname resolvedPath)) ;;
       fs_update (fs_writeFile resolvedPath content) ;;
       cache_delete resolvedPath ;;
       let* stats := fs_call (fs_stat resolvedPath) in
       ret (WriteFileSuccess resolvedPath (st_size stats) (st_birthtime stats)
              (st_mtime stats)
              (if fileExists then "File overwritten successfully"
               else "File created successfully")))
    (fun error =>
       throw (FileOperationErr ("Failed to write file: " +:+ getErrorMessage error)
                resolvedPath OpWrite)).

(** [traverseDirectory]: the inner [traverseRecursive].  The depth test
    comes first, so the recursion is bounded by [floor maxDepth + 1 - depth];
    [fuel] is that bound. *)
Section Traverse.
Context {S : Type} (visitor : DirectoryVisitor F S) (resolvedPath : string).

Definition effectiveMaxDepth : Q := or_default (maxDepth visitor) 10.
Definition effectiveIncludeHidden : bool := default false (includeHidden visitor).

(** The body of the [try] around one file entry. *)
Definition visitFileEntry (item : Dirent) (itemPath relativePath : string)
    : M (S * world F) flow :=
  try_catch
    (if match fileExtensions visitor with
        | Some exts =>
            (0 <? Z.of_nat (List.length exts))
            && negb (has exts (Path.extname (d_name item)))
        | None => false
        end
     then ret Next
     else
       let* stats := in_world (fs_call (fs_stat itemPath)) in
       match visitFile visitor with
       | Some visit =>
           let* shouldContinue := visit itemPath relativePath stats in
           if is_false shouldContinue then ret Return else ret Next
       | None => ret Next
       end)
    (fun _ => ret Next).

(** The [for] loop over the entries of [currentPath]; [descend] is the
    recursive call for a subdirectory. *)
Fixpoint eachItem (descend : string -> M (S * world F) unit) (currentPath : string)
    (items : list Dirent) : M (S * world F) unit :=
  match items with
  | [] => ret tt
  | item :: rest =>
      let itemPath := Path.join currentPath (d_name item) in
      let relativePath := Path.relative resolvedPath itemPath in
      if negb effectiveIncludeHidden && Str.startsWith (d_name item) "."
      then eachItem descend currentPath rest
      else if d_isFile item then
        let* r := visitFileEntry item itemPath relativePath in
        match r with
        | Return => ret tt
        | Next => eachItem descend currentPath rest
        end
      else if d_isDirectory item then
        let* shouldContinue :=
          match visitDirectory visitor with
          | Some visit => visit itemPath relativePath
          | None => ret None
          end in
        if is_false shouldContinue then ret tt
        else
          let shouldEnter :=
            match shouldEnterDirectory visitor with
            | Some enter => enter itemPath relativePath
            | None => true
            end in
          (if shouldEnter then descend itemPath else ret tt) ;;
          eachItem descend currentPath rest
      else eachItem descend currentPath rest
  end.

Fixpoint traverseRecursive (fuel : nat) (currentPath : string) (depth : Z)
    : M (S * world F) unit :=
  if Qgtb (inject_Z depth) effectiveMaxDepth then ret tt
  else
    match fuel with
    | O => ret tt
    | Datatypes.S fuel' =>
        try_catch
          (let* items := in_world (fs_call (fs_readdir currentPath)) in
           eachItem (fun itemPath => traverseRecursive fuel' itemPath (depth + 1))
             currentPath items)
          (fun _ => ret tt)
    end.

End Traverse.

(** [traverseDirectory(rootPath, visitor)] *)
Definition traverseDirectory {S} (rootPath : string) (visitor : DirectoryVisitor F S)
    : M (S * world F) unit :=
  let* cwd := gets (fun sw => w_cwd (snd sw)) in
  let resolvedPath := Path.resolve cwd rootPath in
  traverseRecursive visitor resolvedPath
    (Z.to_nat (Qfloor (effectiveMaxDepth visitor) + 1)) resolvedPath 0.

(** [listDirectoryOptimized(directoryPath, includeHidden)]; every promise
    given to [Promise.allSettled] is fulfilled, since a failed [stat] is
    caught inside it. *)
Definition directoryItem (resolvedPath : string) (f : F) (item : Dirent) : json :=
  let itemPath := Path.join resolvedPath (d_name item) in
  let type := JStr (if d_isDirectory item then "directory" else "file") in
  match fs_stat itemPath f with
  | Ok stats =>
      JObj [("name", JStr (d_name item));
            ("type", type);
            ("size", if d_isFile item then JNum (inject_Z (st_size stats)) else JNull);
            ("last_modified", JStr (toISOString (st_mtime stats)))]
  | Throw _ =>
      JObj [("name", JStr (d_name item)); ("type", type);
            ("size", JNull); ("last_modified", JNull)]
  end.

Definition listDirectoryOptimized (directoryPath : string) (includeHidden : bool)
    : M (world F) json :=
  let* cwd := gets w_cwd in
  let resolvedPath := Path.resolve cwd directoryPath in
  try_catch
    (let* items := fs_call (fs_readdir resolvedPath) in
     let filteredItems :=
       if includeHidden then items
       else List.filter (fun item => negb (Str.startsWith (d_name item) ".")) items in
     let* f := gets w_fs in
     let successfulContents := List.map (directoryItem resolvedPath f) filteredItems in
     ret (JObj [("success", JBool true);
                ("directory_path", JStr resolvedPath);
                ("contents", JArr successfulContents);
                ("total_items", JNum (inject_Z (Z.of_nat (List.length successfulContents))))]))
    (fun error =>
       throw (FileOperationErr ("Failed to list directory: " +:+ getErrorMessage error)
                resolvedPath OpList)).

(** [getFileInfoOptimized(filePath)] *)
Definition getFileInfoOptimized (filePath : string) : M (world F) json :=
  let* cwd := gets w_cwd in
  let resolvedPath := Path.resolve cwd filePath in
  try_catch
    (let* stats := fs_call (fs_stat resolvedPath) in
     let* isBinary := gets (fun w => isLikelyBinary resolvedPath (w_fs w)) in
     let info :=
       [("success", JBool true);
        ("file_path", JStr resolvedPath);
        ("name", JStr (Path.basename resolvedPath));
        ("extension", JStr (Path.extname resolvedPath));
        ("type", JStr (if st_isDirectory stats then "directory"
                       else if st_isFile stats then "file" else "other"));
        ("size", JNum (inject_Z (st_size stats)));
        ("last_modified", JStr (toISOString (st_mtime stats)));
        ("created", JStr (toISOString (st_birthtime stats)));
        ("permissions", JStr (Str.octal (st_mode stats)));
        ("is_readable", JBool true)] in
     if st_isDirectory stats then
       try_catch
         (let* items := fs_call (fs_readdir resolvedPath) in
          ret (JObj (info ++ [("item_count",
                               JNum (inject_Z (Z.of_nat (List.length items))))])))
         (fun _ => ret (JObj info))
     else
       let* cfg := gets w_config in
       ret (JObj (info ++ [("is_binary", JBool isBinary);
                           ("is_large",
                            JBool (Qgtb (inject_Z (st_size stats))
                                     (Cache.MAX_FILE_SIZE cfg)))])))
    (fun error =>
       throw (FileOperationErr ("Failed to get file info: " +:+ getErrorMessage error)
                resolvedPath OpStat)).

(** [fuzzySearchFiles(options)] *)
Section Fuzzy.
Variable options : FuzzySearchOptions.
Variable resolvedPath : string.
Variable cfg : Cache.AdaptiveFileConfig.

Definition opt_query : string := fo_query options.
Definition opt_file_extensions : list string := default [] (fo_file_extensions options).
Definition opt_max_results : Q := default 50%Q (fo_max_results options).
Definition opt_case_sensitive : bool := default false (fo_case_sensitive options).
Definition opt_min_score : Q :=
  default (Cache.FUZZY_SEARCH_THRESHOLD cfg) (fo_min_score options).
Definition opt_include_directories : bool := default false (fo_include_directories options).
Definition MAX_FILES_PROCESSED : Q := (opt_max_results * 10)%Q.

(** The closure state of the search: [results] and [filesProcessed]. *)
Definition fuzzy_state : Type := list FuzzySearchResult * Z.

Definition limit_reached (st : fuzzy_state) : bool :=
  Qgeb (inject_Z (Z.of_nat (List.length (fst st)))) (opt_max_results * 2)
  || Qgeb (inject_Z (snd st)) MAX_FILES_PROCESSED.

Definition classify (filename : string) (filenameScore pathScore : Q) : match_type :=
  if Qeq_bool filenameScore 1 || Qeq_bool pathScore 1 then Exact
  else if Qgtb filenameScore (8 # 10)
          || Str.includes (Str.toLowerCase filename) (Str.toLowerCase opt_query)
  then Substring
  else if Qgtb pathScore filenameScore then PathMatch
  else Fuzzy.

(** One candidate entry of the walk, after it has been counted. *)
Definition scoreCandidate (item : Dirent) (itemPath relativePath : string)
    : M (fuzzy_state * world F) unit :=
  let filename := d_name item in
  let directory := Path.dirname relativePath in
  let fullPath := relativePath in
  let filenameScore := calculateFuzzyScore opt_query filename opt_case_sensitive in
  let directoryScore :=
    (calculateFuzzyScore opt_query directory opt_case_sensitive * (7 # 10))%Q in
  let pathScore :=
    (calculateFuzzyScore opt_query fullPath opt_case_sensitive * (9 # 10))%Q in
  let bestScore := Cache.Qmax2 filenameScore (Cache.Qmax2 directoryScore pathScore) in
  if Qgeb bestScore opt_min_score then
    try_catch
      (let* stats := in_world (fs_call (fs_stat itemPath)) in
       modify (fun sw =>
                 ((fst (fst sw)
                   ++ [{| fr_file_path := itemPath;
                          fr_relative_path := relativePath;
                          fr_filename := filename;
                          fr_directory := directory;
                          fr_size := st_size stats;
                          fr_last_modified := st_mtime stats;
                          fr_score := bestScore;
                          fr_match_type := classify filename filenameScore pathScore |}],
                   snd (fst sw)), snd sw)))
      (fun _ => ret tt)
  else ret tt.

(** The loop over the items of [currentPath]; [descend] is the recursive
    call for a subdirectory.  The items are processed in batches of 50;
    the [break] that leaves a batch is repeated at the first item of every
    later batch, as the limits can only stay reached, so the loop stops
    there. *)
Fixpoint eachCandidate (descend : string -> M (fuzzy_state * world F) unit)
    (currentPath : string) (items : list Dirent) : M (fuzzy_state * world F) unit :=
  match items with
  | [] => ret tt
  | item :: rest =>
      let* st := gets fst in
      if limit_reached st then ret tt
      else
        let itemPath := Path.join currentPath (d_name item) in
        let relativePath := Path.relative resolvedPath itemPath in
        if d_isFile item || (opt_include_directories && d_isDirectory item)
        then
          modify (fun sw => ((fst (fst sw), snd (fst sw) + 1), snd sw)) ;;
          if Str.startsWith (d_name item) "." && negb (Str.startsWith opt_query ".")
          then eachCandidate descend currentPath rest
          else if (0 <? Z.of_nat (List.length opt_file_extensions))
                  && d_isFile item
                  && negb (has opt_file_extensions (Path.extname (d_name item)))
          then eachCandidate descend currentPath rest
          else
            scoreCandidate item itemPath relativePath ;;
            eachCandidate descend currentPath rest
        else if d_isDirectory item && negb (Str.startsWith (d_name item) ".")
        then descend itemPath ;; eachCandidate descend currentPath rest
        else eachCandidate descend currentPath rest
  end.

(** [searchRecursive(currentPath, depth)]; the depth test comes first, so
    the recursion is bounded by [MAX_SEARCH_DEPTH + 1 - depth]. *)
Fixpoint searchRecursive (fuel : nat) (currentPath : string) (depth : Z)
    : M (fuzzy_state * world F) unit :=
  let* st := gets fst in
  if (depth >? Cache.MAX_SEARCH_DEPTH cfg) || limit_reached st then ret tt
  else
    match fuel with
    | O => ret tt
    | Datatypes.S fuel' =>
        try_catch
          (let* items := in_world (fs_call (fs_readdir currentPath)) in
           eachCandidate (fun itemPath => searchRecursive fuel' itemPath (depth + 1))
             currentPath items)
          (fun _ => ret tt)
    end.

Definition typeOrder (t : match_type) : Z :=
  match t with Exact => 4 | Substring => 3 | PathMatch => 2 | Fuzzy => 1 end.

(** The comparator of the final sort; scores within 0.1 count as equal,
    so it is not an order. *)
Definition compareResults (a b : FuzzySearchResult) : Q :=
  if Qgtb (Qabs (fr_score a - fr_score b)) (1 # 10) then (fr_score b - fr_score a)%Q
  else
    let typeDiff := typeOrder (fr_match_type b) - typeOrder (fr_match_type a) in
    if negb (typeDiff =? 0) then inject_Z typeDiff
    else inject_Z (Str.len (fr_relative_path a) - Str.len (fr_relative_path b)).

End Fuzzy.

Definition fuzzySearchFiles (options : FuzzySearchOptions)
    : M (world F) (list FuzzySearchResult) :=
  let* cwd := gets w_cwd in
  let* cfg := gets w_config in
  let resolvedPath := Path.resolve cwd (fo_directory_path options) in
  fun w =>
    match searchRecursive options resolvedPath cfg
            (Z.to_nat (Cache.MAX_SEARCH_DEPTH cfg + 1)) resolvedPath 0 (([], 0), w) with
    | (r, ((results, _), w')) =>
        (match r with
         | Ok _ => Ok (slice0 (opt_max_results options)
                         (array_sort _ compareResults results))
         | Throw e => Throw e
         end, w')
    end.

(** [searchFilesByPattern(directoryPath, pattern, options)] *)
Definition patternVisitor (test : string -> bool) (maxResults : Q)
    (fileExtensions : option (list string)) (includeDirectories : bool)
    : DirectoryVisitor F (list PatternResult) :=
  {| visitFile :=
       Some (fun filePath relativePath stats =>
               let* results := gets fst in
               if Qgeb (inject_Z (Z.of_nat (List.length results))) maxResults
               then ret (Some false)
               else
                 (if test (Path.basename filePath) then
                    modify (fun sw =>
                              (fst sw ++ [{| pr_file_path := filePath;
                                             pr_relative_path := relativePath;
                                             pr_size := st_size stats;
                                             pr_last_modified := st_mtime stats |}],
                               snd sw))
                  else ret tt) ;;
                 ret None);
     visitDirectory :=
       Some (fun dirPath relativePath =>
               if negb includeDirectories then ret None
               else
                 let* results := gets fst in
                 if Qgeb (inject_Z (Z.of_nat (List.length results))) maxResults
                 then ret (Some false)
                 else
                   (if test (Path.basename dirPath) then
                      try_catch
                        (let* stats := in_world (fs_call (fs_stat dirPath)) in
                         modify (fun sw =>
                                   (fst sw ++ [{| pr_file_path := dirPath;
                                                  pr_relative_path := relativePath;
                                                  pr_size := 0;
                                                  pr_last_modified := st_mtime stats |}],
                                    snd sw)))
                        (fun _ => ret tt)
                    else ret tt) ;;
                   ret None);
     shouldEnterDirectory := None;
     maxDepth := Some 10%Q;
     includeHidden := None;
     fileExtensions := fileExtensions |}.

Definition searchFilesByPattern (directoryPath pattern : string)
    (fileExtensions : option (list string)) (maxResults : option Q)
    (caseSensitive includeDirectories : option bool)
    : M (world F) (list PatternResult) :=
  let maxResults := or_default maxResults 50 in
  let regexPattern := Str.replace_star pattern in
  match regex_compile regexPattern (negb (default false caseSensitive)) with
  | None => throw (Err ("Invalid regular expression: /" +:+ regexPattern +:+ "/"))
  | Some test =>
      fun w =>
        match traverseDirectory directoryPath
                (patternVisitor test maxResults fileExtensions
                   (default false includeDirectories)) ([], w) with
        | (r, (results, w')) =>
            (match r with Ok _ => Ok results | Throw e => Throw e end, w')
        end
  end.

End WithFs.

End FileOps.

(** ** helpers/validation *)

Module Validation.

(** [obj[k]] on the fields of an object. *)
Definition lookup (k : string) (fields : list (string * json)) : option json :=
  match List.find (fun kv => String.eqb (fst kv) k) fields with
  | Some kv => Some (snd kv)
  | None => None
  end.

Definition typeName (j : json) : string :=
  match j with
  | JNull => "null"
  | JBool _ => "boolean"
  | JNum _ => "number"
  | JStr _ => "string"
  | JArr _ => "array"
  | JObj _ => "object"
  end.

(** Truthiness of a property that may be missing. *)
Definition truthy (v : option json) : bool :=
  match v with
  | None | Some JNull => false
  | Some (JBool b) => b
  | Some (JNum q) => negb (Qeq_bool q 0)
  | Some (JStr s) => negb (String.eqb s "")
  | Some (JArr _) | Some (JObj _) => true
  end.

(** [parsed.k] on the value [JSON.parse] returned: reading a property of
    [null] throws a [TypeError]; numbers, strings, booleans and arrays
    have no property of these names. *)
Definition prop (parsed : json) (k : string) : result (option json) :=
  match parsed with
  | JNull => Throw (Err ("Cannot read properties of null (reading '" +:+ k +:+ "')"))
  | JObj fields => Ok (lookup k fields)
  | _ => Ok None
  end.

(** [v && typeof v === 'string']: a string that is not empty. *)
Definition nonempty_string (v : option json) : option string :=
  match v with
  | Some (JStr s) => if String.eqb s "" then None else Some s
  | _ => None
  end.

(** The Zod schemas of the tool inputs: objects whose fields are strings
    (with an optional [min(1, message)]), booleans, numbers (with [int],
    [min], [max]) or arrays of strings.  [z.object] does not keep the keys
    it does not know: its default is to strip them. *)
Inductive ztype :=
| ZString (minMessage : option string)
| ZBoolean
| ZNumber (isInt : bool) (lo hi : option Q)
| ZArrayOfStrings.

Record zfield := {
  z_name : string;
  z_type : ztype;
  z_optional : bool
}.

(** A schema: the defaults merged in by [z.preprocess], if any, and the
    fields of the object. *)
Record zschema := {
  z_defaults : option (list (string * json));
  z_fields : list zfield
}.

Definition names (fields : list zfield) : list string := List.map z_name fields.

Definition issue : Type := list string * string.

Definition is_integer (q : Q) : bool := Qeq_bool (inject_Z (Qfloor q)) q.

Section WithRuntime.
Context {rt : Runtime}.

Definition check_string (path : list string) (minMessage : option string) (v : json)
    : list issue :=
  match v with
  | JStr s =>
      match minMessage with
      | Some message => if String.eqb s "" then [(path, message)] else []
      | None => []
      end
  | other => [(path, "Expected string, received " +:+ typeName other)]
  end.

Fixpoint check_elements (path : list string) (i : Z) (l : list json) : list issue :=
  match l with
  | [] => []
  | x :: l' =>
      check_string (path ++ [show_number (inject_Z i)]) None x
      ++ check_elements path (i + 1) l'
  end.

Definition check_value (path : list string) (t : ztype) (v : json) : list issue :=
  match t, v with
  | ZString minMessage, _ => check_string path minMessage v
  | ZBoolean, JBool _ => []
  | ZBoolean, other => [(path, "Expected boolean, received " +:+ typeName other)]
  | ZNumber isInt lo hi, JNum q =>
      (if isInt && negb (is_integer q)
       then [(path, "Expected integer, received float")] else [])
      ++ match lo with
         | Some b => if Qgtb b q
                     then [(path, "Number must be greater than or equal to "
                                  +:+ show_number b)]
                     else []
         | None => []
         end
      ++ match hi with
         | Some b => if Qgtb q b
                     then [(path, "Number must be less than or equal to "
                                  +:+ show_number b)]
                     else []
         | None => []
         end
  | ZNumber _ _ _, other => [(path, "Expected number, received " +:+ typeName other)]
  | ZArrayOfStrings, JArr l => check_elements path 0 l
  | ZArrayOfStrings, other => [(path, "Expected array, received " +:+ typeName other)]
  end.

Definition check_field (obj : list (string * json)) (fld : zfield) : list issue :=
  match lookup (z_name fld) obj with
  | None => if z_optional fld then [] else [([z_name fld], "Required")]
  | Some v => check_value [z_name fld] (z_type fld) v
  end.

(** The object [parse] returns: the known keys that are present. *)
Definition strip (fields : list zfield) (obj : list (string * json)) : list (string * json) :=
  flat_map (fun fld =>
              match lookup (z_name fld) obj with
              | Some v => [(z_name fld, v)]
              | None => []
              end) fields.

(** [z.object({..}).parse(input)]: the issues, or the parsed object. *)
Definition zparse (fields : list zfield) (input : json)
    : list issue + list (string * json) :=
  match input with
  | JObj obj =>
      match flat_map (check_field obj) fields with
      | [] => inr (strip fields obj)
      | issues => inl issues
      end
  | other => inl [([], "Expected object, received " +:+ typeName other)]
  end.

Fixpoint indexed (i : Z) (l : list json) : list (string * json) :=
  match l with
  | [] => []
  | x :: l' => (show_number (inject_Z i), x) :: indexed (i + 1) l'
  end.

(** [{ ...defaults, ...input }] *)
Definition merge (defaults obj : list (string * json)) : list (string * json) :=
  List.map (fun kd => (fst kd, default (snd kd) (lookup (fst kd) obj))) defaults
  ++ List.filter (fun kv => match lookup (fst kv) defaults with
                            | Some _ => false
                            | None => true
                            end) obj.

(** The function given to [z.preprocess]: objects (arrays are objects)
    get the defaults, other values pass unchanged. *)
Definition preprocess (defaults : option (list (string * json))) (input : json) : json :=
  match defaults, input with
  | Some d, JObj obj => JObj (merge d obj)
  | Some d, JArr l => JObj (merge d (indexed 0 l))
  | _, _ => input
  end.

Definition format_issue (i : issue) : string :=
  String.concat "." (fst i) +:+ ": " +:+ snd i.

(** [validateToolInput(schema, input, toolName)] *)
Definition validateToolInput (schema : zschema) (input toolName : string)
    : result (list (string * json)) :=
  match JSON_parse input with
  | inl message =>
      Throw (Err ("Invalid JSON input for tool " +:+ toolName +:+ ": " +:+ message))
  | inr parsed =>
      match zparse (z_fields schema) (preprocess (z_defaults schema) parsed) with
      | inl issues =>
          Throw (Err ("Invalid input for tool " +:+ toolName +:+ ": "
                      +:+ String.concat ", " (List.map format_issue issues)))
      | inr value => Ok value
      end
  end.

Definition required (name : string) (t : ztype) : zfield :=
  {| z_name := name; z_type := t; z_optional := false |}.
Definition optional (name : string) (t : ztype) : zfield :=
  {| z_name := name; z_type := t; z_optional := true |}.
Definition object (fields : list zfield) : zschema :=
  {| z_defaults := None; z_fields := fields |}.

Definition ReadFileInputSchema : zschema :=
  object [required "file_path" (ZString (Some "File path cannot be empty"))].

Definition ListDirectoryInputSchema : zschema :=
  object [required "directory_path" (ZString (Some "Directory path cannot be empty"));
          required "include_hidden" ZBoolean].

Definition GetFileInfoInputSchema : zschema :=
  object [required "file_path" (ZString (Some "File path cannot be empty"))].

Definition WriteFileInputSchema : zschema :=
  object [required "file_path" (ZString (Some "File path cannot be empty"));
          required "content" (ZString None);
          required "overwrite" ZBoolean].

Definition SearchFilesInputSchema : zschema :=
  {| z_defaults :=
       Some [("max_results", JNum 50); ("case_sensitive", JBool false);
             ("fuzzy_search", JBool false); ("min_score", JNum (3 # 10));
             ("include_directories", JBool false)];
     z_fields :=
       [required "directory_path" (ZString (Some "Directory path cannot be empty"));
        required "pattern" (ZString (Some "Pattern cannot be empty"));
        optional "file_extensions" ZArrayOfStrings;
        required "max_results" (ZNumber true (Some 1%Q) (Some 500%Q));
        required "case_sensitive" ZBoolean;
        required "fuzzy_search" ZBoolean;
        required "min_score" (ZNumber false (Some 0%Q) (Some 1%Q));
        required "include_directories" ZBoolean] |}.

(** The fields of a parsed object, at the types the schema checked. *)
Definition get_str (k : string) (o : list (string * json)) : string :=
  match lookup k o with Some (JStr s) => s | _ => "" end.
Definition get_bool (k : string) (o : list (string * json)) : bool :=
  match lookup k o with Some (JBool b) => b | _ => false end.
Definition get_num (k : string) (o : list (string * json)) : Q :=
  match lookup k o with Some (JNum q) => q | _ => 0 end.
Definition get_strs (k : string) (o : list (string * json)) : option (list string) :=
  match lookup k o with
  | Some (JArr l) => Some (List.map (fun x => match x with JStr s => s | _ => "" end) l)
  | _ => None
  end.

(** [validateSearchFilesInput(input)] *)
Definition validateSearchFilesInput (input : string) : result (list (string * json)) :=
  validateToolInput SearchFilesInputSchema input "search_files".

(** [ValidAnalyzeProjectInput] and [ValidSearchFileContentInput] *)
Record ValidAnalyzeProjectInput := {
  project_path : string;
  max_depth : Q
}.

Record ValidSearchFileContentInput := {
  directory_path : string;
  search_term : string;
  file_extensions : option (list string);
  (** [parsed.max_results || 20] is not type-checked: the field holds what
      the value converts to where [results.length] is compared with it *)
  max_results : option Q;
  case_sensitive : bool
}.

(** The [catch] of the two hand-written validators: every value thrown in
    their [try] is an [Error], and is thrown again under a prefix. *)
Definition rethrow {A} (prefix : string) (r : result A) : result A :=
  match r with
  | Ok a => Ok a
  | Throw e =>
      Throw (Err (prefix +:+ match e with
                             | Err message => message
                             | FileOperationErr message _ _ => message
                             | _ => "Unknown error"
                             end))
  end.

Definition parse_json (input : string) : result json :=
  match JSON_parse input with
  | inl message => Throw (Err message)
  | inr parsed => Ok parsed
  end.

(** [validateAnalyzeProjectInput(input)] *)
Definition validateAnalyzeProjectInput (input : string) : result ValidAnalyzeProjectInput :=
  rethrow "Invalid analyze_project input: "
    match parse_json input with
    | Throw e => Throw e
    | Ok parsed =>
        match prop parsed "project_path" with
        | Throw e => Throw e
        | Ok path =>
            match nonempty_string path with
            | None => Throw (Err "project_path is required and must be a string")
            | Some project_path =>
                let depth := match prop parsed "max_depth" with
                             | Ok v => v
                             | Throw _ => None
                             end in
                Ok {| project_path := project_path;
                      max_depth := if truthy depth
                                   then as_number (default JNull depth) else 5 |}
            end
        end
    end.

(** [validateSearchFileContentInput(input)] *)
Definition validateSearchFileContentInput (input : string)
    : result ValidSearchFileContentInput :=
  rethrow "Invalid search_file_content input: "
    match parse_json input with
    | Throw e => Throw e
    | Ok parsed =>
        match prop parsed "directory_path" with
        | Throw e => Throw e
        | Ok dir =>
            let get k := match prop parsed k with Ok v => v | Throw _ => None end in
            match nonempty_string dir with
            | None => Throw (Err "directory_path is required and must be a string")
            | Some directory_path =>
                match nonempty_string (get "search_term") with
                | None => Throw (Err "search_term is required and must be a string")
                | Some search_term =>
                    Ok {| directory_path := directory_path;
                          search_term := search_term;
                          file_extensions :=
                            if truthy (get "file_extensions")
                            then Some (as_strings (default JNull (get "file_extensions")))
                            else None;
                          max_results :=
                            if truthy (get "max_results")
                            then ToNumber (default JNull (get "max_results"))
                            else Some 20%Q;
                          case_sensitive := truthy (get "case_sensitive") |}
                end
            end
        end
    end.

End WithRuntime.

End Validation.

(** ** classes/agent: the agent runtime *)

Module Agent.

(** [ChatCompletionMessageToolCall]: [id] and [function.{name, arguments}]. *)
Record ToolCall := {
  id : string;
  fn_name : string;
  fn_arguments : string
}.

(** [ToolExecutionResult] *)
Record ToolExecutionResult := {
  toolCallId : string;
  success : bool;
  response : string;
  error : option string
}.

(** [Tool], over the state [W] its [invoke] runs in.  The parameter
    declaration is data sent to the model; the agent never reads it. *)
Record Tool (W : Type) := {
  name : string;
  description : string;
  properties : list string;
  required : list string;
  additionalProperties : bool;
  invoke : string -> M W string
}.
Arguments name {W} t.
Arguments description {W} t.
Arguments properties {W} t.
Arguments required {W} t.
Arguments additionalProperties {W} t.
Arguments invoke {W} t.

Inductive role := System | User | Assistant | ToolRole.

(** [ChatCompletionMessageParam] *)
Record Message := {
  msg_role : role;
  msg_content : option string;
  msg_tool_calls : option (list ToolCall);
  msg_tool_call_id : option string
}.

(** One entry of [delta.tool_calls] in a streamed chunk. *)
Record ToolCallDelta := {
  index : option nat;
  delta_id : option string;
  delta_name : option string;
  delta_arguments : option string
}.

(** [chunk.choices[0]], when present. *)
Record Choice := {
  delta_content : option string;
  delta_tool_calls : option (list ToolCallDelta);
  finish_reason : option string
}.

Definition Chunk := option Choice.

(** [StreamEvent] *)
Inductive StreamEvent :=
| output_text_delta (delta : string)
| tool_call_item (name : string)
| tool_call_output_item.

(** [StreamProcessorState]; [toolCalls] is a JavaScript array written by
    index, so it can have holes.  [currentToolCall] refers to an element
    of that array, the same object, and is kept as its index. *)
Record StreamProcessorState := {
  accumulatedContent : string;
  toolCalls : list (option ToolCall);
  currentToolCall : option nat;
  contentSize : Z;
  currentMessages : list Message
}.

Definition MAX_ACCUMULATED_SIZE : Z := 50 * 1024.

Definition truncation_notice : string :=
  String "010" "[Content truncated due to size limit]" +:+ String "010" "".

(** [s || d] on an optional string: the empty string is falsy. *)
Definition str_or (s : option string) (d : string) : string :=
  match s with
  | Some v => if String.eqb v "" then d else v
  | None => d
  end.

(** [arr[i]] on an array with holes. *)
Definition array_get {A} (arr : list (option A)) (i : nat) : option A :=
  mjoin (nth_error arr i).

(** [arr[i] = v]: writing past the end extends the array with holes. *)
Definition array_set {A} (arr : list (option A)) (i : nat) (v : A) : list (option A) :=
  firstn i arr ++ repeat None (i - List.length arr) ++ [Some v] ++ skipn (Datatypes.S i) arr.

(** [handleToolCallDeltas(toolCallDeltas, state)] *)
Definition handleToolCallDelta (state : StreamProcessorState) (d : ToolCallDelta)
    : StreamProcessorState :=
  match index d with
  | None => state
  | Some i =>
      match array_get (toolCalls state) i with
      | None =>
          let created := {| id := str_or (delta_id d) "";
                            fn_name := str_or (delta_name d) "";
                            fn_arguments := str_or (delta_arguments d) "" |} in
          {| accumulatedContent := accumulatedContent state;
             toolCalls := array_set (toolCalls state) i created;
             currentToolCall := Some i;
             contentSize := contentSize state;
             currentMessages := currentMessages state |}
      | Some existingToolCall =>
          if negb (String.eqb (str_or (delta_arguments d) "") "") then
            let updated := {| id := id existingToolCall;
                              fn_name := fn_name existingToolCall;
                              fn_arguments := fn_arguments existingToolCall
                                              +:+ str_or (delta_arguments d) "" |} in
            {| accumulatedContent := accumulatedContent state;
               toolCalls := array_set (toolCalls state) i updated;
               currentToolCall := currentToolCall state;
               contentSize := contentSize state;
               currentMessages := currentMessages state |}
          else state
      end
  end.

Definition handleToolCallDeltas (deltas : list ToolCallDelta) (state : StreamProcessorState)
    : StreamProcessorState :=
  List.fold_left handleToolCallDelta deltas state.

(** The events announced for the tool calls a chunk starts: one for each
    entry whose index is not yet in the state. *)
Definition toolCallStarted (state : StreamProcessorState) (deltas : list ToolCallDelta)
    : list StreamEvent :=
  flat_map
    (fun d =>
       match index d with
       | Some i =>
           match array_get (toolCalls state) i with
           | None => [tool_call_item (str_or (delta_name d) "unknown_tool")]
           | Some _ => []
           end
       | None => []
       end) deltas.

(** The content branch of the loop body of [processStream]: the events it
    yields and the state it leaves. *)
Definition handleContent (state : StreamProcessorState) (content : option string)
    : list StreamEvent * StreamProcessorState :=
  match content with
  | None => ([], state)
  | Some text =>
      if String.eqb text "" then ([], state)
      else
        let deltaSize := Str.len text in
        if contentSize state + deltaSize >? MAX_ACCUMULATED_SIZE then
          ([output_text_delta truncation_notice], state)
        else
          ([output_text_delta text],
           {| accumulatedContent := accumulatedContent state +:+ text;
              toolCalls := toolCalls state;
              currentToolCall := currentToolCall state;
              contentSize := contentSize state + deltaSize;
              currentMessages := currentMessages state |})
  end.

(** How far a run of the generator got. *)
Inductive status := Done | OutOfFuel.

Section WithAgent.
Context {W : Type} {rt : Runtime}.
Variable tools : list (Tool W).
(** [this.provider.client.chat.completions.create], in streaming mode: the
    chunks of the response to a message list. *)
Variable create_stream : list Message -> M W (list Chunk).

Definition find_tool (n : string) : option (Tool W) :=
  List.find (fun t => String.eqb (name t) n) tools.

Definition failure_json (message : string) : json :=
  JObj [("success", JBool false); ("error", JStr message)].

(** The body of the loop of [executeToolCalls], for one call. *)
Definition executeToolCall (toolCall : ToolCall) : M W ToolExecutionResult :=
  match find_tool (fn_name toolCall) with
  | Some tool =>
      try_catch
        (let* toolResponse := invoke tool (fn_arguments toolCall) in
         ret {| toolCallId := id toolCall; success := true;
                response := toolResponse; error := None |})
        (fun error =>
           let errorMessage := getErrorMessage error in
           ret {| toolCallId := id toolCall; success := false;
                  response := JSON_stringify
                                (failure_json ("Tool execution failed: " +:+ errorMessage));
                  error := Some errorMessage |})
  | None =>
      ret {| toolCallId := id toolCall; success := false;
             response := JSON_stringify
                           (failure_json ("Unknown tool: " +:+ fn_name toolCall));
             error := Some ("Unknown tool: " +:+ fn_name toolCall) |}
  end.

(** [executeToolCalls(toolCalls)]: the loop pushes one result per call.
    The array may be the [toolCalls] of the stream state; iterating
    hands [undefined] to the loop body for a hole, whose first property
    access then throws a [TypeError]. *)
Fixpoint executeToolCallsFrom (results : list ToolExecutionResult)
    (toolCalls : list (option ToolCall)) : M W (list ToolExecutionResult) :=
  match toolCalls with
  | [] => ret results
  | None :: _ => throw (Err "Cannot read properties of undefined (reading 'function')")
  | Some toolCall :: rest =>
      let* r := executeToolCall toolCall in
      executeToolCallsFrom (results ++ [r]) rest
  end.

Definition executeToolCalls (toolCalls : list (option ToolCall))
    : M W (list ToolExecutionResult) :=
  executeToolCallsFrom [] toolCalls.

(** An array of tool calls without holes, as the type
    [ChatCompletionMessageToolCall[]] of the parameter has it. *)
Definition array_of (toolCalls : list ToolCall) : list (option ToolCall) :=
  List.map Some toolCalls.

(** The elements of an array, holes left out. *)
Definition elements (arr : list (option ToolCall)) : list ToolCall :=
  flat_map (fun x => match x with Some c => [c] | None => [] end) arr.

(** What the registry holds under a name: [registered n tool] when
    [tool] is the first tool of the registry that bears the name [n],
    [unregistered n] when no tool of the registry bears it. *)
Definition registered (n : string) (tool : Tool W) : Prop :=
  exists before after,
    tools = before ++ tool :: after
    /\ name tool = n
    /\ Forall (fun t => name t <> n) before.

Definition unregistered (n : string) : Prop :=
  Forall (fun t => name t <> n) tools.

(** The outcome the specification gives one call, as a relation over the
    registry: a call that names no tool of the registry, a call whose tool
    returns, and a call whose tool throws. *)
Inductive call_outcome (toolCall : ToolCall) (w : W) : ToolExecutionResult -> W -> Prop :=
| outcome_unknown :
    unregistered (fn_name toolCall) ->
    call_outcome toolCall w
      {| toolCallId := id toolCall; success := false;
         response := JSON_stringify (failure_json ("Unknown tool: " +:+ fn_name toolCall));
         error := Some ("Unknown tool: " +:+ fn_name toolCall) |} w
| outcome_returned tool toolResponse w' :
    registered (fn_name toolCall) tool ->
    invoke tool (fn_arguments toolCall) w = (Ok toolResponse, w') ->
    call_outcome toolCall w
      {| toolCallId := id toolCall; success := true;
         response := toolResponse; error := None |} w'
| outcome_threw tool e w' :
    registered (fn_name toolCall) tool ->
    invoke tool (fn_arguments toolCall) w = (Throw e, w') ->
    call_outcome toolCall w
      {| toolCallId := id toolCall; success := false;
         response := JSON_stringify
                       (failure_json ("Tool execution failed: " +:+ getErrorMessage e));
         error := Some (getErrorMessage e) |} w'.

(** Calls run one at a time, each in the state the previous one left. *)
Inductive outcomes : list ToolCall -> W -> list ToolExecutionResult -> W -> Prop :=
| outcomes_nil w : outcomes [] w [] w
| outcomes_cons toolCall rest w r w1 rs w2 :
    call_outcome toolCall w r w1 ->
    outcomes rest w1 rs w2 ->
    outcomes (toolCall :: rest) w (r :: rs) w2.

(** The generator: its [yield]s are appended to a log next to the state. *)
Definition G (A : Type) : Type := M (list StreamEvent * W) A.

Definition yield (e : StreamEvent) : G unit :=
  modify (fun lw => (fst lw ++ [e], snd lw)).

Definition yield_all (es : list StreamEvent) : G unit :=
  modify (fun lw => (fst lw ++ es, snd lw)).

Definition run {A} (m : M W A) : G A :=
  fun lw => match m (snd lw) with (r, w') => (r, (fst lw, w')) end.

Definition toolResultEvent (r : ToolExecutionResult) : StreamEvent :=
  if success r then tool_call_output_item
  else output_text_delta
         (String "010" (String "010" "Error executing tool: ") +:+ default "undefined" (error r)).

Definition toolMessage (r : ToolExecutionResult) : Message :=
  {| msg_role := ToolRole; msg_content := Some (response r);
     msg_tool_calls := None; msg_tool_call_id := Some (toolCallId r) |}.

Definition initialState (initialMessages : list Message) : StreamProcessorState :=
  {| accumulatedContent := ""; toolCalls := []; currentToolCall := None;
     contentSize := 0; currentMessages := initialMessages |}.

(** [processStream(stream, tools, initialMessages)].  A follow-up round
    calls the generator again on the response to the extended message
    list; [fuel] bounds the number of such rounds. *)
Fixpoint processStream (fuel : nat) (stream : list Chunk) (initialMessages : list Message)
    : G status :=
  (fix each (stream : list Chunk) (state : StreamProcessorState) : G status :=
     match stream with
     | [] => ret Done
     | None :: rest => each rest state
     | Some choice :: rest =>
         let '(events, state) := handleContent state (delta_content choice) in
         yield_all events ;;
         let* state :=
           match delta_tool_calls choice with
           | Some deltas =>
               yield_all (toolCallStarted state deltas) ;;
               ret (handleToolCallDeltas deltas state)
           | None => ret state
           end in
         if match finish_reason choice with
            | Some reason => String.eqb reason "tool_calls"
            | None => false
            end && (0 <? Z.of_nat (List.length (toolCalls state)))
         then
           let* toolResults := run (executeToolCalls (toolCalls state)) in
           yield_all (List.map toolResultEvent toolResults) ;;
           let followupMessages :=
             currentMessages state
             ++ [{| msg_role := Assistant;
                    msg_content := if String.eqb (accumulatedContent state) "" then None
                                   else Some (accumulatedContent state);
                    msg_tool_calls := Some (elements (toolCalls state));
                    msg_tool_call_id := None |}]
             ++ List.map toolMessage toolResults in
           let* followupStream := run (create_stream followupMessages) in
           match fuel with
           | O => ret OutOfFuel
           | Datatypes.S fuel' => processStream fuel' followupStream followupMessages
           end
         else each rest state
     end) stream (initialState initialMessages).

(** The events a consumer of [toStream()] receives. *)
Definition events_of (fuel : nat) (stream : list Chunk) (initialMessages : list Message)
    (w : W) : list StreamEvent :=
  fst (snd (processStream fuel stream initialMessages ([], w))).

(** [this.provider.client.chat.completions.create] without streaming:
    [response.choices[0]?.message] of the response to a message list. *)
Variable create_message : list Message -> M W (option Message).

(** [runWithoutStreaming(messages, tools)]: the loop asks the model until
    a response carries no tool calls.  [fuel] bounds the number of
    responses that do; [None] says that the bound was reached. *)
Fixpoint runWithoutStreaming (fuel : nat) (currentMessages : list Message)
    : M W (option string) :=
  let* response := create_message currentMessages in
  match response with
  | None => throw (Err "No response from the model")
  | Some message =>
      let currentMessages := currentMessages ++ [message] in
      match msg_tool_calls message with
      | Some (toolCall :: rest) =>
          let* toolResults := executeToolCalls (array_of (toolCall :: rest)) in
          let currentMessages := currentMessages ++ List.map toolMessage toolResults in
          match fuel with
          | O => ret None
          | Datatypes.S fuel' => runWithoutStreaming fuel' currentMessages
          end
      | _ => ret (Some (str_or (msg_content message) "No response generated"))
      end
  end.

(** The conversation that ends in an answer, as a relation: the model is
    asked; an answer without tool calls ends it, its content being the
    output (or the fixed text, when the content is empty); an answer with
    tool calls is followed by the outcomes of the calls, one after the
    other, and the model is asked again with the answer and one tool
    message per outcome added to the messages. *)
Inductive conversation : list Message -> W -> string -> W -> Prop :=
| conversation_answer messages w message w1 :
    create_message messages w = (Ok (Some message), w1) ->
    msg_tool_calls message = None \/ msg_tool_calls message = Some [] ->
    conversation messages w (str_or (msg_content message) "No response generated") w1
| conversation_round messages w message w1 toolCall rest results w2 output w3 :
    create_message messages w = (Ok (Some message), w1) ->
    msg_tool_calls message = Some (toolCall :: rest) ->
    outcomes (toolCall :: rest) w1 results w2 ->
    conversation (messages ++ [message] ++ List.map toolMessage results) w2 output w3 ->
    conversation messages w output w3.

(** [ChatMessage], [RunOptions] and [RunResult] *)
Record ChatMessage := {
  chat_role : role;
  chat_content : string
}.

Record RunOptions := {
  stream : option bool;
  conversationHistory : option (list ChatMessage)
}.

Record RunResult := {
  finalOutput : string;
  toStream : option (G status)
}.

Definition plain (r : role) (text : string) : Message :=
  {| msg_role := r; msg_content := Some text; msg_tool_calls := None;
     msg_tool_call_id := None |}.

(** The message list [run] builds: the system message, the conversation
    history, then the user input. *)
Definition run_messages (instructions input : string) (options : RunOptions)
    : list Message :=
  [plain System instructions]
  ++ List.map (fun message => plain (chat_role message) (chat_content message))
       (default [] (conversationHistory options))
  ++ [plain User input].

(** [runWithStreaming(messages, tools)] *)
Definition runWithStreaming (fuel : nat) (messages : list Message) : M W RunResult :=
  let* stream := create_stream messages in
  ret {| finalOutput := ""; toStream := Some (processStream fuel stream messages) |}.

(** [run(input, options)] of an agent with the given instructions.  The
    [try] of [run] returns the promise of the inner call without awaiting
    it, so its [catch] sees no rejection of that promise: what the inner
    call throws is what [run] throws. *)
Definition run_agent (fuel : nat) (instructions input : string) (options : RunOptions)
    : M W (option RunResult) :=
  let messages := run_messages instructions input options in
  if default false (stream options) then
    let* result := runWithStreaming fuel messages in
    ret (Some result)
  else
    let* output := runWithoutStreaming fuel messages in
    ret (option_map (fun text => {| finalOutput := text; toStream := None |}) output).

End WithAgent.

End Agent.

(** ** tools: the registry *)

Module Tools.
Import FileOps Validation.

(** The serialised forms of the result unions. *)
Section Json.
Context {rt : Runtime}.

Definition num (z : Z) : json := JNum (inject_Z z).

Definition FileContent_json (r : FileContent) : json :=
  match r with
  | FileContentSuccess file_path size content last_modified =>
      JObj [("success", JBool true); ("file_path", JStr file_path); ("size", num size);
            ("content", JStr content); ("last_modified", JStr (toISOString last_modified))]
  | FileContentError file_path error =>
      JObj [("success", JBool false); ("file_path", JStr file_path); ("error", JStr error)]
  end.

Definition WriteFileResult_json (r : WriteFileResult) : json :=
  match r with
  | WriteFileSuccess file_path size created last_modified message =>
      JObj [("success", JBool true); ("file_path", JStr file_path); ("size", num size);
            ("created", JStr (toISOString created));
            ("last_modified", JStr (toISOString last_modified));
            ("message", JStr message)]
  | WriteFileError file_path error =>
      JObj [("success", JBool false); ("error", JStr error); ("file_path", JStr file_path)]
  end.

Definition match_type_json (t : match_type) : json :=
  JStr match t with
       | Exact => "exact"
       | Substring => "substring"
       | Fuzzy => "fuzzy"
       | PathMatch => "path"
       end.

Definition FuzzySearchResult_json (r : FuzzySearchResult) : json :=
  JObj [("file_path", JStr (fr_file_path r));
        ("relative_path", JStr (fr_relative_path r));
        ("filename", JStr (fr_filename r));
        ("directory", JStr (fr_directory r));
        ("size", num (fr_size r));
        ("last_modified", JStr (toISOString (fr_last_modified r)));
        ("score", JNum (fr_score r));
        ("match_type", match_type_json (fr_match_type r))].

Definition PatternResult_json (r : PatternResult) : json :=
  JObj [("file_path", JStr (pr_file_path r));
        ("relative_path", JStr (pr_relative_path r));
        ("size", num (pr_size r));
        ("last_modified", JStr (toISOString (pr_last_modified r)))].

(** [error instanceof FileOperationError ? error.filePath : 'unknown'] *)
Definition error_path (error : exn) : string :=
  match error with
  | FileOperationErr _ filePath _ => filePath
  | _ => "unknown"
  end.

(** The result of the [catch] clause of the tools that report a path. *)
Definition path_failure (key : string) (error : exn) : json :=
  JObj [("success", JBool false); (key, JStr (error_path error));
        ("error", JStr (getErrorMessage error))].

(** The result of the [catch] clause of the other tools. *)
Definition failure (error : exn) : json :=
  JObj [("success", JBool false); ("error", JStr (getErrorMessage error))].

End Json.

(** One match of [search_file_content], and the matches of one file. *)
Record LineMatch := {
  line_number : Z;
  line_content : string;
  match_position : Z
}.

Record FileMatches := {
  fm_file_path : string;
  fm_relative_path : string;
  fm_matches : list LineMatch;
  fm_total_matches : Z
}.

(** [searchRegex.exec(line)] with [lastIndex = 0]: the expression is the
    search term with its special characters escaped, so it matches the
    first occurrence of the term, under case folding unless the search
    is case sensitive. *)
Definition exec (term : string) (caseSensitive : bool) (line : string) : option nat :=
  Str.indexOf (fold_case caseSensitive line) (fold_case caseSensitive term).

(** The [lines.forEach] loop: the matching lines, in line order. *)
Fixpoint lineMatches (term : string) (caseSensitive : bool) (lines : list string)
    (index : Z) : list LineMatch :=
  match lines with
  | [] => []
  | line :: rest =>
      match exec term caseSensitive line with
      | Some position =>
          {| line_number := index + 1; line_content := Str.trim line;
             match_position := Z.of_nat position |}
          :: lineMatches term caseSensitive rest (index + 1)
      | None => lineMatches term caseSensitive rest (index + 1)
      end
  end.

Definition matchesOf (term : string) (caseSensitive : bool) (content : string)
    : list LineMatch :=
  lineMatches term caseSensitive (Str.split Str.is_newline content) 0.

(** The lines of a content that contain the search term. *)
Definition matching_lines (term : string) (caseSensitive : bool) (content : string)
    : list string :=
  List.filter
    (fun line => Str.includes (fold_case caseSensitive line) (fold_case caseSensitive term))
    (Str.split Str.is_newline content).

(** What the visitor pushes for a file with the given content, if
    anything. *)
Definition fileMatches (term : string) (caseSensitive : bool)
    (filePath relativePath content : string) : option FileMatches :=
  let matches := matchesOf term caseSensitive content in
  if 0 <? Z.of_nat (List.length matches) then
    Some {| fm_file_path := filePath;
            fm_relative_path := relativePath;
            fm_matches := firstn 5 matches;
            fm_total_matches := Z.of_nat (List.length matches) |}
  else None.

(** The accumulator of [analyze_project]. *)
Record analysis := {
  total_files : Z;
  total_size : Z;
  file_types : list (string * (Z * Z));
  directories : list (string * Z);
  large_files : list (string * Z);
  binary_files : Z;
  text_files : Z
}.

Definition assoc_get {A} (k : string) (m : list (string * A)) : option A :=
  match List.find (fun kv => String.eqb (fst kv) k) m with
  | Some kv => Some (snd kv)
  | None => None
  end.

Fixpoint assoc_set {A} (k : string) (v : A) (m : list (string * A)) : list (string * A) :=
  match m with
  | [] => [(k, v)]
  | (k', v') :: m' =>
      if String.eqb k k' then (k', v) :: m' else (k', v') :: assoc_set k v m'
  end.

Section WithFs.
Context {F : Type} {fsF : NodeFs F} {rt : Runtime}.

Definition tool := Agent.Tool (world F).

(** A path handed to the [fs] API is resolved against the working
    directory. *)
Definition isBinaryAt (filePath : string) : M (world F) bool :=
  gets (fun w => isLikelyBinary (Path.resolve (w_cwd w) filePath) (w_fs w)).

Definition resolved (p : string) : M (world F) string :=
  gets (fun w => Path.resolve (w_cwd w) p).

(** [readFileTool] *)
Definition readFileTool : tool :=
  {| Agent.name := "read_file";
     Agent.description := "Read the contents of a file for analysis and documentation";
     Agent.properties := ["file_path"];
     Agent.required := ["file_path"];
     Agent.additionalProperties := false;
     Agent.invoke := fun input =>
       try_catch
         (let* args := lift_result (validateToolInput ReadFileInputSchema input "read_file") in
          let file_path := get_str "file_path" args in
          let* isBinary := isBinaryAt file_path in
          if isBinary then
            let* p := resolved file_path in
            ret (JSON_stringify
                   (FileContent_json
                      (FileContentError p
                         "File appears to be binary and cannot be read as text")))
          else
            let* result := readFileOptimized file_path in
            ret (JSON_stringify (FileContent_json result)))
         (fun error => ret (JSON_stringify (path_failure "file_path" error))) |}.

(** [listDirectoryTool] *)
Definition listDirectoryTool : tool :=
  {| Agent.name := "list_directory";
     Agent.description := "List the contents of a directory to understand project structure";
     Agent.properties := ["directory_path"; "include_hidden"];
     Agent.required := ["directory_path"; "include_hidden"];
     Agent.additionalProperties := false;
     Agent.invoke := fun input =>
       try_catch
         (let* args := lift_result
                         (validateToolInput ListDirectoryInputSchema input "list_directory") in
          let* result := listDirectoryOptimized (get_str "directory_path" args)
                           (get_bool "include_hidden" args) in
          ret (JSON_stringify result))
         (fun error => ret (JSON_stringify (path_failure "directory_path" error))) |}.

(** [getFileInfoTool] *)
Definition getFileInfoTool : tool :=
  {| Agent.name := "get_file_info";
     Agent.description := "Get detailed information about a file or directory";
     Agent.properties := ["file_path"];
     Agent.required := ["file_path"];
     Agent.additionalProperties := false;
     Agent.invoke := fun input =>
       try_catch
         (let* args := lift_result
                         (validateToolInput GetFileInfoInputSchema input "get_file_info") in
          let* result := getFileInfoOptimized (get_str "file_path" args) in
          ret (JSON_stringify result))
         (fun error => ret (JSON_stringify (path_failure "file_path" error))) |}.

(** [writeFileTool] *)
Definition writeFileTool : tool :=
  {| Agent.name := "write_file";
     Agent.description := "Create or write content to a file";
     Agent.properties := ["file_path"; "content"; "overwrite"];
     Agent.required := ["file_path"; "content"; "overwrite"];
     Agent.additionalProperties := false;
     Agent.invoke := fun input =>
       try_catch
         (let* args := lift_result
                         (validateToolInput WriteFileInputSchema input "write_file") in
          let* result := writeFileOptimized (get_str "file_path" args)
                           (get_str "content" args) (get_bool "overwrite" args) false in
          ret (JSON_stringify (WriteFileResult_json result)))
         (fun error => ret (JSON_stringify (path_failure "file_path" error))) |}.

(** [x || d] on a number and on a boolean the schema has checked. *)
Definition num_or (x d : Q) : Q := if Qeq_bool x 0 then d else x.

(** [searchFilesTool] *)
Definition searchFilesTool : tool :=
  {| Agent.name := "search_files";
     Agent.description :=
       "Search for files by name pattern in a directory tree with optional fuzzy matching";
     Agent.properties := ["directory_path"; "pattern"; "file_extensions"; "max_results";
                          "case_sensitive"; "fuzzy_search"; "min_score";
                          "include_directories"];
     Agent.required := ["directory_path"; "pattern"];
     Agent.additionalProperties := false;
     Agent.invoke := fun input =>
       try_catch
         (let* args := lift_result (validateSearchFilesInput input) in
          let directory_path := get_str "directory_path" args in
          let pattern := get_str "pattern" args in
          let* p := resolved directory_path in
          if get_bool "fuzzy_search" args then
            let* fuzzyResults :=
              fuzzySearchFiles
                {| fo_query := pattern;
                   fo_directory_path := directory_path;
                   fo_file_extensions := Some (default [] (get_strs "file_extensions" args));
                   fo_max_results := Some (get_num "max_results" args);
                   fo_case_sensitive := Some (get_bool "case_sensitive" args);
                   fo_min_score := Some (num_or (get_num "min_score" args) (3 # 10));
                   fo_include_directories := Some (get_bool "include_directories" args) |} in
            ret (JSON_stringify
                   (JObj [("success", JBool true);
                          ("directory_path", JStr p);
                          ("pattern", JStr pattern);
                          ("fuzzy_search", JBool true);
                          ("results", JArr (List.map FuzzySearchResult_json fuzzyResults));
                          ("total_found", num (Z.of_nat (List.length fuzzyResults)));
                          ("truncated", JBool false)]))
          else
            let* results :=
              searchFilesByPattern directory_path pattern
                (get_strs "file_extensions" args)
                (Some (num_or (get_num "max_results" args) 50))
                (Some (get_bool "case_sensitive" args))
                (Some (get_bool "include_directories" args)) in
            ret (JSON_stringify
                   (JObj [("success", JBool true);
                          ("directory_path", JStr p);
                          ("pattern", JStr pattern);
                          ("fuzzy_search", JBool false);
                          ("results", JArr (List.map PatternResult_json results));
                          ("total_found", num (Z.of_nat (List.length results)));
                          ("truncated",
                           JBool (Qgeb (inject_Z (Z.of_nat (List.length results)))
                                    (num_or (get_num "max_results" args) 50)))])))
         (fun error => ret (JSON_stringify (failure error))) |}.

(** The visitor of [analyze_project]. *)
Definition emptyAnalysis : analysis :=
  {| total_files := 0; total_size := 0; file_types := []; directories := [];
     large_files := []; binary_files := 0; text_files := 0 |}.

Definition analyzeFile (filePath relativePath : string) (stats : Stats) (isBinary : bool)
    (a : analysis) : analysis :=
  let ext := let e := Path.extname (Path.basename filePath) in
             if String.eqb e "" then "(no extension)" else e in
  let fileType := default (0, 0) (assoc_get ext (file_types a)) in
  {| total_files := total_files a + 1;
     total_size := total_size a + st_size stats;
     file_types := assoc_set ext (fst fileType + 1, snd fileType + st_size stats)
                     (file_types a);
     directories := directories a;
     large_files := if st_size stats >? 1024 * 1024
                    then large_files a ++ [(relativePath, st_size stats)]
                    else large_files a;
     binary_files := if isBinary then binary_files a + 1 else binary_files a;
     text_files := if isBinary then text_files a else text_files a + 1 |}.

Definition analyzeDirectory (relativePath : string) (a : analysis) : analysis :=
  let dirCount := default 0 (assoc_get relativePath (directories a)) in
  {| total_files := total_files a;
     total_size := total_size a;
     file_types := file_types a;
     directories := assoc_set relativePath (dirCount + 1) (directories a);
     large_files := large_files a;
     binary_files := binary_files a;
     text_files := text_files a |}.

Definition analyzeVisitor (max_depth : Q) : DirectoryVisitor F analysis :=
  {| visitFile :=
       Some (fun filePath relativePath stats =>
               let* isBinary := in_world (isBinaryAt filePath) in
               modify (fun sw =>
                         (analyzeFile filePath relativePath stats isBinary (fst sw), snd sw)) ;;
               ret None);
     visitDirectory :=
       Some (fun _ relativePath =>
               modify (fun sw => (analyzeDirectory relativePath (fst sw), snd sw)) ;;
               ret None);
     shouldEnterDirectory := None;
     maxDepth := Some max_depth;
     includeHidden := None;
     fileExtensions := None |}.

(** [Math.round(x * 100) / 100] *)
Definition round2 (x : Q) : Q := (inject_Z (Qfloor (x * 100 + (1 # 2))) / 100)%Q.

Definition analysis_json (project_path : string) (a : analysis) : json :=
  let large := firstn 10 (stable_sort (fun x y => snd y <=? snd x) (large_files a)) in
  let types := firstn 20 (stable_sort (fun x y => fst (snd y) <=? fst (snd x))
                            (file_types a)) in
  JObj [("success", JBool true);
        ("project_path", JStr project_path);
        ("summary",
         JObj [("total_files", num (total_files a));
               ("total_size", num (total_size a));
               ("total_size_mb",
                JNum (round2 (inject_Z (total_size a) / inject_Z (1024 * 1024))));
               ("binary_files", num (binary_files a));
               ("text_files", num (text_files a))]);
        ("file_types",
         JObj (List.map (fun kv => (fst kv, JObj [("count", num (fst (snd kv)));
                                                  ("size", num (snd (snd kv)))])) types));
        ("large_files",
         JArr (List.map (fun kv => JObj [("path", JStr (fst kv)); ("size", num (snd kv))])
                 large));
        ("total_directories", num (Z.of_nat (List.length (directories a))))].

(** [analyzeProjectTool] *)
Definition analyzeProjectTool : tool :=
  {| Agent.name := "analyze_project";
     Agent.description :=
       "Analyze project structure and provide insights about file types, sizes, and organization";
     Agent.properties := ["project_path"; "max_depth"];
     Agent.required := ["project_path"];
     Agent.additionalProperties := false;
     Agent.invoke := fun input =>
       try_catch
         (let* args := lift_result (validateAnalyzeProjectInput input) in
          let* p := resolved (project_path args) in
          fun w =>
            match traverseDirectory (project_path args) (analyzeVisitor (max_depth args))
                    (emptyAnalysis, w) with
            | (Ok _, (a, w')) => (Ok (JSON_stringify (analysis_json p a)), w')
            | (Throw e, (_, w')) => (Throw e, w')
            end)
         (fun error => ret (JSON_stringify (failure error))) |}.

(** The visitor of [search_file_content]. *)
Definition contentVisitor (args : ValidSearchFileContentInput)
    : DirectoryVisitor F (list FileMatches) :=
  {| visitFile :=
       Some (fun filePath relativePath _ =>
               let* results := gets fst in
               if number_ge (inject_Z (Z.of_nat (List.length results))) (max_results args)
               then ret (Some false)
               else
                 try_catch
                   (let* isBinary := in_world (isBinaryAt filePath) in
                    if isBinary then ret None
                    else
                      let* fileResult := in_world (readFileOptimized filePath) in
                      match fileResult with
                      | FileContentSuccess _ _ content _ =>
                          if String.eqb content "" then ret None
                          else
                            match fileMatches (search_term args) (case_sensitive args)
                                    filePath relativePath content with
                            | Some found =>
                                modify (fun sw => (fst sw ++ [found], snd sw)) ;; ret None
                            | None => ret None
                            end
                      | FileContentError _ _ => ret None
                      end)
                   (fun _ => ret None));
     visitDirectory := None;
     shouldEnterDirectory := None;
     maxDepth := Some 10%Q;
     includeHidden := None;
     fileExtensions := file_extensions args |}.

(** The walk of [search_file_content]: the per-file results it collects. *)
Definition searchFileContent (args : ValidSearchFileContentInput)
    : M (world F) (list FileMatches) :=
  fun w =>
    match traverseDirectory (directory_path args) (contentVisitor args) ([], w) with
    | (Ok _, (results, w')) => (Ok results, w')
    | (Throw e, (_, w')) => (Throw e, w')
    end.

(** [content] is what a read of [filePath] returned on the file system
    [f], whatever the cache held. *)
Definition read_as (f : F) (filePath content : string) : Prop :=
  exists w0 w1 resolvedPath size mtime,
    w_fs w0 = f
    /\ readFileOptimized filePath w0
       = (Ok (FileContentSuccess resolvedPath size content mtime), w1).

(** What a result of the search says about the content it was computed
    from: the content has a matching line, [matches] holds the first five
    matching lines, and [total_matches] counts them all. *)
Definition describes (term : string) (caseSensitive : bool) (content : string)
    (r : FileMatches) : Prop :=
  let matching := matchesOf term caseSensitive content in
  (0 < List.length matching)%nat
  /\ fm_matches r = firstn 5 matching
  /\ (List.length (fm_matches r) <= 5)%nat
  /\ fm_total_matches r = Z.of_nat (List.length matching)
  /\ List.length matching = List.length (matching_lines term caseSensitive content).

Definition found_in (f : F) (args : ValidSearchFileContentInput) (r : FileMatches) : Prop :=
  exists content,
    read_as f (fm_file_path r) content
    /\ describes (search_term args) (case_sensitive args) content r.

(** The invariant of the walk of [search_file_content]: the file system
    is the one it started on, and every result collected so far was found
    in a file read from it. *)
Definition search_invariant (f : F) (args : ValidSearchFileContentInput)
    (sw : list FileMatches * world F) : Prop :=
  w_fs (snd sw) = f /\ Forall (found_in f args) (fst sw).

Definition LineMatch_json (m : LineMatch) : json :=
  JObj [("line_number", num (line_number m));
        ("line_content", JStr (line_content m));
        ("match_position", num (match_position m))].

Definition FileMatches_json (r : FileMatches) : json :=
  JObj [("file_path", JStr (fm_file_path r));
        ("relative_path", JStr (fm_relative_path r));
        ("matches", JArr (List.map LineMatch_json (fm_matches r)));
        ("total_matches", num (fm_total_matches r))].

(** [searchFileContentTool] *)
Definition searchFileContentTool : tool :=
  {| Agent.name := "search_file_content";
     Agent.description := "Search for text content within files in a directory tree";
     Agent.properties := ["directory_path"; "search_term"; "file_extensions";
                          "max_results"; "case_sensitive"];
     Agent.required := ["directory_path"; "search_term"];
     Agent.additionalProperties := false;
     Agent.invoke := fun input =>
       try_catch
         (let* args := lift_result (validateSearchFileContentInput input) in
          let* results := searchFileContent args in
          let* p := resolved (directory_path args) in
          ret (JSON_stringify
                 (JObj [("success", JBool true);
                        ("directory_path", JStr p);
                        ("search_term", JStr (search_term args));
                        ("results", JArr (List.map FileMatches_json results));
                        ("total_files_with_matches", num (Z.of_nat (List.length results)));
                        ("truncated",
                         JBool (number_ge (inject_Z (Z.of_nat (List.length results)))
                                  (max_results args)))])))
         (fun error => ret (JSON_stringify (failure error))) |}.

(** [fuzzyFindFilesTool] *)
Definition fuzzyFindFilesTool : tool :=
  {| Agent.name := "fuzzy_find_files";
     Agent.description :=
       "Intelligently find files using fuzzy matching with multiple search strategies";
     Agent.properties := ["query"; "directory_path"; "max_results"];
     Agent.required := ["query"];
     Agent.additionalProperties := false;
     Agent.invoke := fun input =>
       try_catch
         (let* parsed := lift_result (parse_json input) in
          let* query := lift_result (prop parsed "query") in
          let* dir := lift_result (prop parsed "directory_path") in
          let* limit := lift_result (prop parsed "max_results") in
          let* cwd := gets w_cwd in
          let maxResults := if truthy limit then as_number (default JNull limit) else 30%Q in
          match nonempty_string query with
          | None =>
              ret (JSON_stringify
                     (JObj [("success", JBool false);
                            ("error", JStr "Query is required and must be a string")]))
          | Some query =>
              let* directoryPath :=
                if truthy dir then
                  match dir with
                  | Some (JStr s) => ret s
                  | _ => throw (Err "The paths[0] argument must be of type string")
                  end
                else ret cwd in
              let* results :=
                fuzzySearchFiles
                  {| fo_query := query;
                     fo_directory_path := directoryPath;
                     fo_file_extensions := None;
                     fo_max_results := Some maxResults;
                     fo_case_sensitive := Some false;
                     fo_min_score := Some (3 # 10);
                     fo_include_directories := Some true |} in
              let* p := resolved directoryPath in
              ret (JSON_stringify
                     (JObj [("success", JBool true);
                            ("query", JStr query);
                            ("directory_path", JStr p);
                            ("results", JArr (List.map FuzzySearchResult_json results));
                            ("total_found", num (Z.of_nat (List.length results)));
                            ("truncated", JBool false)]))
          end)
         (fun error => ret (JSON_stringify (failure error))) |}.

(** [tools]: the registry, in the order of the index module. *)
Definition tools : list tool :=
  [readFileTool; listDirectoryTool; getFileInfoTool; writeFileTool;
   searchFilesTool; analyzeProjectTool; searchFileContentTool; fuzzyFindFilesTool].

End WithFs.

(** A result that is an object with a boolean [success] field. *)
Definition has_success (j : json) : bool :=
  match j with
  | JObj fields =>
      match lookup "success" fields with
      | Some (JBool _) => true
      | _ => false
      end
  | _ => false
  end.

(** A result that is [{success: false, error, ..}]. *)
Definition is_rejection (j : json) : bool :=
  match j with
  | JObj fields =>
      match lookup "success" fields, lookup "error" fields with
      | Some (JBool false), Some (JStr _) => true
      | _, _ => false
      end
  | _ => false
  end.

(** What [invoke] promises: the serialisation of an object with a boolean
    [success] field. *)
Definition structured {rt : Runtime} (out : string) : Prop :=
  exists j, out = JSON_stringify j /\ has_success j = true.

(** Two argument objects that agree on the properties a tool declares. *)
Definition agree_on (declared : list string) (o1 o2 : list (string * json)) : Prop :=
  forall k, In k declared -> lookup k o1 = lookup k o2.

End Tools.

(** ** An in-memory file system and a small runtime, to run the code *)

Module MemFs.

Inductive node :=
| File (content : string) (mtime : Z) (readable : bool)
| Dir (entries : list Dirent) (mtime : Z) (readable : bool).

Record t := {
  nodes : gmap string node;
  clock : Z
}.

Definition enoent (p : string) : exn :=
  Err ("ENOENT: no such file or directory '" +:+ p +:+ "'").
Definition eacces (p : string) : exn :=
  Err ("EACCES: permission denied '" +:+ p +:+ "'").
Definition eisdir (p : string) : exn :=
  Err ("EISDIR: illegal operation on a directory '" +:+ p +:+ "'").
Definition enotdir (p : string) : exn :=
  Err ("ENOTDIR: not a directory '" +:+ p +:+ "'").

Definition stat (p : string) (f : t) : result Stats :=
  match nodes f !! p with
  | Some (File content mtime _) =>
      Ok {| st_size := Str.len content; st_mtime := mtime; st_birthtime := mtime;
            st_mode := 33188; st_isFile := true; st_isDirectory := false |}
  | Some (Dir _ mtime _) =>
      Ok {| st_size := 4096; st_mtime := mtime; st_birthtime := mtime;
            st_mode := 16877; st_isFile := false; st_isDirectory := true |}
  | None => Throw (enoent p)
  end.

Definition access (p : string) (f : t) : result unit :=
  match nodes f !! p with
  | Some _ => Ok tt
  | None => Throw (enoent p)
  end.

Definition readFile (p : string) (f : t) : result string :=
  match nodes f !! p with
  | Some (File content _ true) => Ok content
  | Some (File _ _ false) => Throw (eacces p)
  | Some (Dir _ _ _) => Throw (eisdir p)
  | None => Throw (enoent p)
  end.

Definition readSample (p : string) (n : nat) (f : t) : result (list ascii) :=
  match readFile p f with
  | Ok content => Ok (firstn n (list_ascii_of_string content))
  | Throw e => Throw e
  end.

Definition readdir (p : string) (f : t) : result (list Dirent) :=
  match nodes f !! p with
  | Some (Dir entries _ true) => Ok entries
  | Some (Dir _ _ false) => Throw (eacces p)
  | Some (File _ _ _) => Throw (enotdir p)
  | None => Throw (enoent p)
  end.

Definition readStream (p : string) (chunkSize : Z) (f : t) : list string * option string :=
  match readFile p f with
  | Ok content => (if String.eqb content "" then [] else [content], None)
  | Throw e => ([], Some (getErrorMessage e))
  end.

Definition writeFile (p content : string) (f : t) : result t :=
  match nodes f !! p with
  | Some (Dir _ _ _) => Throw (eisdir p)
  | Some (File _ _ false) => Throw (eacces p)
  | _ => Ok {| nodes := <[p := File content (clock f) true]> (nodes f);
               clock := clock f + 1 |}
  end.

Definition mkdir_recursive (p : string) (f : t) : result t :=
  match nodes f !! p with
  | Some (Dir _ _ _) => Ok f
  | Some (File _ _ _) => Throw (Err ("EEXIST: file already exists '" +:+ p +:+ "'"))
  | None => Ok {| nodes := <[p := Dir [] (clock f) true]> (nodes f);
                  clock := clock f + 1 |}
  end.

Definition copyFile (src dst : string) (f : t) : result t :=
  match readFile src f with
  | Ok content => writeFile dst content f
  | Throw e => Throw e
  end.

#[global] Instance memfs : NodeFs t := {|
  fs_stat := stat;
  fs_access := access;
  fs_readFile := readFile;
  fs_readSample := readSample;
  fs_readdir := readdir;
  fs_readStream := readStream;
  fs_writeFile := writeFile;
  fs_mkdir_recursive := mkdir_recursive;
  fs_copyFile := copyFile
|}.

Definition file_entry (n : string) : Dirent :=
  {| d_name := n; d_isFile := true; d_isDirectory := false |}.
Definition dir_entry (n : string) : Dirent :=
  {| d_name := n; d_isFile := false; d_isDirectory := true |}.

End MemFs.

(** ** Concrete inputs *)

Module Fixtures.

(** The configuration of a host with 16 GB of memory, half of it free. *)
Definition config : Cache.AdaptiveFileConfig :=
  Cache.getAdaptiveConfig (16 * 1024 * 1024 * 1024) (8 * 1024 * 1024 * 1024).

Definition old_entry : Cache.entry :=
  {| Cache.content := "old"; Cache.timestamp := 0; Cache.size := 3; Cache.accessCount := 1 |}.
Definition recent_entry : Cache.entry :=
  {| Cache.content := "new"; Cache.timestamp := 1000; Cache.size := 3; Cache.accessCount := 1 |}.

(** A cache of capacity two that is full: [/old.txt] was last used at time
    0 and [/new.txt] at time 1000. *)
Definition two_entries : Cache.AdaptiveFileCache :=
  {| Cache.cache := [("/old.txt", old_entry); ("/new.txt", recent_entry)];
     Cache.maxSize := 2; Cache.ttl := 300000; Cache.totalMemoryUsage := 6 |}.

(** A runtime for running examples.  [JSON.parse] knows the texts of a
    table; the serialiser writes no escapes. *)
Definition show_Z (z : Z) : string := NilZero.string_of_int (Z.to_int z).

Definition show_Q (q : Q) : string :=
  if Pos.eqb (Qden q) 1 then show_Z (Qnum q)
  else show_Z (Qnum q) +:+ "/" +:+ show_Z (Zpos (Qden q)).

Definition quote : string := String (ascii_of_nat 34) "".

Fixpoint stringify (j : json) : string :=
  match j with
  | JNull => "null"
  | JBool true => "true"
  | JBool false => "false"
  | JNum q => show_Q q
  | JStr s => quote +:+ s +:+ quote
  | JArr l => "[" +:+ String.concat "," (List.map stringify l) +:+ "]"
  | JObj fields =>
      "{" +:+ String.concat ","
                (List.map (fun kv => quote +:+ fst kv +:+ quote +:+ ":" +:+ stringify (snd kv))
                   fields) +:+ "}"
  end.

Definition parse_with (table : list (string * json)) (text : string) : string + json :=
  match List.find (fun kv => String.eqb (fst kv) text) table with
  | Some kv => inr (snd kv)
  | None => inl "Unexpected token"
  end.

Definition runtime_with (table : list (string * json)) : Runtime :=
  {| JSON_parse := parse_with table;
     JSON_stringify := stringify;
     toISOString := show_Z;
     show_number := show_Q;
     regex_compile := fun source ignoreCase =>
       Some (fun text =>
               if ignoreCase
               then Str.includes (Str.toLowerCase text) (Str.toLowerCase source)
               else Str.includes text source);
     array_sort := fun A compare l =>
       stable_sort (fun a b => Qle_bool (compare a b) 0%Q) l;
     as_number := fun j =>
       match j with
       | JNum q => q
       | JBool true => 1%Q
       | _ => 0%Q
       end;
     as_strings := fun j =>
       match j with
       | JArr l => List.map (fun x => match x with JStr s => s | _ => "/" end) l
       | _ => []
       end;
     to_number := fun j =>
       match j with
       | JStr "" | JArr [] => Some 0%Q
       | _ => None
       end |}.

Definition runtime : Runtime := runtime_with [].

(** Arguments for [read_file] with a property the tool does not declare,
    their text, and a runtime whose [JSON.parse] reads that text. *)
Definition undeclared_fields : list (string * json) :=
  [("file_path", JStr "/project/a.txt"); ("verbose", JBool true)].
Definition declared_fields : list (string * json) :=
  [("file_path", JStr "/project/a.txt")].
Definition undeclared_input : string := stringify (JObj undeclared_fields).
Definition declared_input : string := stringify (JObj declared_fields).
Definition parsing_runtime : Runtime :=
  runtime_with [(undeclared_input, JObj undeclared_fields);
                (declared_input, JObj declared_fields)].


(** Arguments for [search_files] that give the two required properties
    only, and a runtime that reads their text. *)
Definition search_fields : list (string * json) :=
  [("directory_path", JStr "/project"); ("pattern", JStr "*.txt")].
Definition search_input : string := stringify (JObj search_fields).
Definition search_runtime : Runtime := runtime_with [(search_input, JObj search_fields)].

(** Arguments for [search_files] that ask for 501 results. *)
Definition greedy_fields : list (string * json) :=
  [("directory_path", JStr "/project"); ("pattern", JStr "*.txt");
   ("max_results", JNum 501)].
Definition greedy_input : string := stringify (JObj greedy_fields).
Definition greedy_runtime : Runtime := runtime_with [(greedy_input, JObj greedy_fields)].

(** Streamed text: [text_of n c] is [n] copies of the character [c]. *)
Definition text_of (n : Z) (c : ascii) : string :=
  string_of_list_ascii (repeat c (Z.to_nat n)).

Definition content_chunk (text : string) : Agent.Chunk :=
  Some {| Agent.delta_content := Some text;
          Agent.delta_tool_calls := None;
          Agent.finish_reason := None |}.

(** A response that starts with [text], then ["bc"], ["de"] and ["f"]. *)
Definition long_stream (text : string) : list Agent.Chunk :=
  [content_chunk text; content_chunk "bc"; content_chunk "de"; content_chunk "f"].

(** An agent without tools whose provider answers with an empty stream. *)
Definition no_tools : list (Agent.Tool unit) := [].
Definition silent_provider (_ : list Agent.Message) : M unit (list Agent.Chunk) := ret [].

(** A tool that counts its calls in the state, and a model that asks for
    it once: it answers a conversation that holds no tool message yet with
    a call of [count], and any other with the text ["done"]. *)
Definition counter : Agent.Tool Z :=
  {| Agent.name := "count";
     Agent.description := "Count the calls";
     Agent.properties := [];
     Agent.required := [];
     Agent.additionalProperties := false;
     Agent.invoke := fun _ => modify (fun n => n + 1) ;; ret "counted" |}.

Definition count_call : Agent.ToolCall :=
  {| Agent.id := "call_1"; Agent.fn_name := "count"; Agent.fn_arguments := "{}" |}.

(** A tool that changes the state and then throws, and two more calls of
    a turn: one to a name the registry does not hold, one to that tool. *)
Definition broken : Agent.Tool Z :=
  {| Agent.name := "break";
     Agent.description := "Fail after a side effect";
     Agent.properties := [];
     Agent.required := [];
     Agent.additionalProperties := false;
     Agent.invoke := fun _ => modify (fun n => n + 10) ;; throw (Err "out of order") |}.

Definition missing_call : Agent.ToolCall :=
  {| Agent.id := "call_2"; Agent.fn_name := "missing"; Agent.fn_arguments := "{}" |}.

Definition break_call : Agent.ToolCall :=
  {| Agent.id := "call_3"; Agent.fn_name := "break"; Agent.fn_arguments := "{}" |}.

Definition has_tool_message (messages : list Agent.Message) : bool :=
  existsb (fun m => match Agent.msg_role m with Agent.ToolRole => true | _ => false end)
    messages.

Definition counting_model (messages : list Agent.Message) : M Z (option Agent.Message) :=
  if has_tool_message messages then
    ret (Some {| Agent.msg_role := Agent.Assistant; Agent.msg_content := Some "done";
                 Agent.msg_tool_calls := None; Agent.msg_tool_call_id := None |})
  else
    ret (Some {| Agent.msg_role := Agent.Assistant; Agent.msg_content := None;
                 Agent.msg_tool_calls := Some [count_call];
                 Agent.msg_tool_call_id := None |}).

Definition quiet_stream (_ : list Agent.Message) : M Z (list Agent.Chunk) := ret [].

(** A streamed response that asks for [count] in one chunk and goes on
    with text that is never read, and a provider that answers the
    follow-up request with the text ["done"]. *)
Definition count_delta : Agent.ToolCallDelta :=
  {| Agent.index := Some 0%nat; Agent.delta_id := Some "call_1";
     Agent.delta_name := Some "count"; Agent.delta_arguments := Some "{}" |}.

Definition calling_stream : list Agent.Chunk :=
  [Some {| Agent.delta_content := None;
           Agent.delta_tool_calls := Some [count_delta];
           Agent.finish_reason := Some "tool_calls" |};
   Some {| Agent.delta_content := Some "ignored";
           Agent.delta_tool_calls := None;
           Agent.finish_reason := None |}].

Definition done_stream (_ : list Agent.Message) : M Z (list Agent.Chunk) :=
  ret [Some {| Agent.delta_content := Some "done";
               Agent.delta_tool_calls := None;
               Agent.finish_reason := Some "stop" |}].

(** A project tree: the text files [/project/a.txt] and
    [/project/sub/b.txt]; [/project/secret.txt], which holds one null byte
    and cannot be opened; [/project/logo.png], text under an image
    extension; and [/project/data], which holds a null byte. *)
Definition project_fs : MemFs.t :=
  {| MemFs.nodes :=
       list_to_map
         [("/project",
           MemFs.Dir [MemFs.file_entry "a.txt"; MemFs.dir_entry "sub";
                      MemFs.file_entry "secret.txt"; MemFs.file_entry "logo.png";
                      MemFs.file_entry "data"] 10 true);
          ("/project/a.txt", MemFs.File "alpha" 11 true);
          ("/project/sub", MemFs.Dir [MemFs.file_entry "b.txt"] 12 true);
          ("/project/sub/b.txt", MemFs.File "beta" 13 true);
          ("/project/secret.txt", MemFs.File (String Ascii.zero "") 14 false);
          ("/project/logo.png", MemFs.File "drawing" 15 true);
          ("/project/data", MemFs.File (String "a" (String Ascii.zero "b")) 16 true)];
     MemFs.clock := 100 |}.

(** The project tree after [/project/a.txt] was rewritten with a text of
    the same length. *)
Definition edited_fs : MemFs.t :=
  match MemFs.writeFile "/project/a.txt" "omega" project_fs with
  | Ok f => f
  | Throw _ => project_fs
  end.

Definition stats_of_file (size mtime : Z) : Stats :=
  {| st_size := size; st_mtime := mtime; st_birthtime := mtime; st_mode := 33188;
     st_isFile := true; st_isDirectory := false |}.

Definition world_of (f : MemFs.t) : world MemFs.t :=
  {| w_fs := f; w_cache := Cache.new 50 300000; w_config := config;
     w_cwd := "/project"; w_now := 1000; w_pressure := 1 # 2 |}.

(** A search of the project tree for ["alpha"], and the world one minute
    after such a search once [/project/a.txt] was rewritten on disk: the
    cache is the one the search left. *)
Definition alpha_args : Validation.ValidSearchFileContentInput :=
  {| Validation.directory_path := "/project";
     Validation.search_term := "alpha";
     Validation.file_extensions := None;
     Validation.max_results := Some 20%Q;
     Validation.case_sensitive := false |}.

(** A search for the letter [a] that asks for one result, and the same
    search with a [max_results] that converts to [NaN]. *)
Definition single_args : Validation.ValidSearchFileContentInput :=
  {| Validation.directory_path := "/project";
     Validation.search_term := "a";
     Validation.file_extensions := None;
     Validation.max_results := Some 1%Q;
     Validation.case_sensitive := false |}.

Definition unlimited_args : Validation.ValidSearchFileContentInput :=
  {| Validation.directory_path := "/project";
     Validation.search_term := "a";
     Validation.file_extensions := None;
     Validation.max_results := None;
     Validation.case_sensitive := false |}.

Definition stale_world : world MemFs.t :=
  let searched :=
    snd (Tools.searchFileContent (rt := runtime) alpha_args (world_of project_fs)) in
  {| w_fs := edited_fs; w_cache := w_cache searched; w_config := w_config searched;
     w_cwd := w_cwd searched; w_now := w_now searched + 60000;
     w_pressure := w_pressure searched |}.

(** A visitor that records the relative path of every file it is shown. *)
Definition recording_visitor (depth : option Q)
    : FileOps.DirectoryVisitor MemFs.t (list string) :=
  {| FileOps.visitFile :=
       Some (fun _ relativePath _ =>
               modify (fun sw => (fst sw ++ [relativePath], snd sw)) ;; ret None);
     FileOps.visitDirectory := None;
     FileOps.shouldEnterDirectory := None;
     FileOps.maxDepth := depth;
     FileOps.includeHidden := None;
     FileOps.fileExtensions := None |}.

(** A visitor that records the size of every file it is shown. *)
Definition size_visitor : FileOps.DirectoryVisitor MemFs.t (list Z) :=
  {| FileOps.visitFile :=
       Some (fun _ _ stats =>
               modify (fun sw => (fst sw ++ [st_size stats], snd sw)) ;; ret None);
     FileOps.visitDirectory := None;
     FileOps.shouldEnterDirectory := None;
     FileOps.maxDepth := None;
     FileOps.includeHidden := None;
     FileOps.fileExtensions := Some [".txt"] |}.

Definition visited (depth : option Q) : list string :=
  fst (snd (FileOps.traverseDirectory "/project" (recording_visitor depth)
              ([], world_of project_fs))).

End Fixtures.

(** * Properties *)

(** ** The adaptive cache *)

Module CacheFacts.
Import Cache.

Lemma map_get_set_eq k v m : map_get k (map_set k v m) = Some v.
Proof.
  induction m as [|[k' e] m IH]; simpl.
  - by rewrite String.eqb_refl.
  - destruct (String.eqb k k') eqn:E; simpl; rewrite E; auto.
Qed.

Lemma map_get_delete_eq k m : map_get k (map_delete k m) = None.
Proof.
  induction m as [|[k' e] m IH]; simpl; auto.
  destruct (String.eqb k k') eqn:E; simpl; rewrite ?E; auto.
Qed.

Lemma Qgtb_false a b : (a <= b)%Q -> Qgtb a b = false.
Proof. intros H. unfold Qgtb. apply Qle_bool_iff in H. by rewrite H. Qed.

Lemma evictOldest_below n c :
  map_size (cache c) < maxSize c -> evictOldest n c = c.
Proof.
  intros H. destruct n; simpl; [reflexivity|].
  rewrite Z.geb_leb. apply Z.leb_gt in H. by rewrite H.
Qed.

(** *** The keys of the map stay unique *)

Lemma map_set_keys (k : string) (v : entry) (m : jsmap) :
  List.map fst (map_set k v m)
  = if existsb (String.eqb k) (List.map fst m) then List.map fst m
    else List.map fst m ++ [k].
Proof.
  induction m as [|[k' e] m IH]; simpl; [reflexivity|].
  destruct (String.eqb k k'); simpl; [reflexivity|].
  rewrite IH. by destruct (existsb _ _).
Qed.

Lemma map_delete_keys (k : string) (m : jsmap) :
  List.map fst (map_delete k m)
  = List.filter (fun k' => negb (String.eqb k k')) (List.map fst m).
Proof.
  induction m as [|[k' e] m IH]; simpl; [reflexivity|].
  destruct (String.eqb k k'); simpl; by rewrite IH.
Qed.

Lemma NoDup_snoc {A} (l : list A) (k : A) :
  List.NoDup l -> ~ In k l -> List.NoDup (l ++ [k]).
Proof.
  induction 1 as [|x l Hx Hl IH]; intros Hk; simpl.
  - constructor; [intros []|constructor].
  - constructor.
    + rewrite in_app_iff. intros [Hin|[->|[]]]; [contradiction|].
      apply Hk. by left.
    + apply IH. intros Hin. apply Hk. by right.
Qed.

Lemma map_set_unique (k : string) (v : entry) (m : jsmap) :
  List.NoDup (List.map fst m) -> List.NoDup (List.map fst (map_set k v m)).
Proof.
  intros H. rewrite map_set_keys.
  destruct (existsb (String.eqb k) (List.map fst m)) eqn:E; [exact H|].
  apply NoDup_snoc; [exact H|]. intros Hin.
  assert (existsb (String.eqb k) (List.map fst m) = true); [|congruence].
  apply existsb_exists. exists k. split; [exact Hin|apply String.eqb_refl].
Qed.

Lemma map_delete_unique (k : string) (m : jsmap) :
  List.NoDup (List.map fst m) -> List.NoDup (List.map fst (map_delete k m)).
Proof. intros H. rewrite map_delete_keys. by apply List.NoDup_filter. Qed.

Lemma delete_unique (k : string) (c : AdaptiveFileCache) :
  List.NoDup (keys c) -> List.NoDup (keys (delete k c)).
Proof. apply map_delete_unique. Qed.

Lemma delete_all_unique (ks : list string) :
  forall c, List.NoDup (keys c) -> List.NoDup (keys (delete_all ks c)).
Proof.
  unfold delete_all. induction ks as [|k ks IH]; intros c H; simpl; [exact H|].
  by apply IH, delete_unique.
Qed.

Lemma cleanupBy_unique (rank : entry -> Q) (c : AdaptiveFileCache) :
  List.NoDup (keys c) -> List.NoDup (keys (cleanupBy rank c)).
Proof.
  intros H. unfold cleanupBy. destruct (_ <=? _); [exact H|].
  by apply delete_all_unique.
Qed.

Lemma evictOldest_unique (rounds : nat) :
  forall c, List.NoDup (keys c) -> List.NoDup (keys (evictOldest rounds c)).
Proof.
  induction rounds as [|rounds IH]; intros c H; simpl; [exact H|].
  destruct (_ >=? _); [|exact H].
  destruct (cache c) as [|[k e] m] eqn:Ec; [exact H|].
  destruct (String.eqb k ""); [exact H|]. by apply IH, delete_unique.
Qed.

(** Every operation of the cache keeps the keys of its map unique, as
    they are in a [Map]; the empty cache has none. *)
Lemma set_unique cfg now pressure p content s c :
  List.NoDup (keys c) -> List.NoDup (keys (set cfg now pressure p content s c)).
Proof.
  intros H. unfold set.
  set (c1 := if Qgtb pressure (MEMORY_PRESSURE_THRESHOLD cfg)
             then emergencyCleanup now c else c).
  assert (H1 : List.NoDup (keys c1)).
  { subst c1. destruct (Qgtb _ _); [by apply cleanupBy_unique|exact H]. }
  pose proof (evictOldest_unique (List.length (cache c1)) c1 H1) as H2.
  destruct (_ && _); [exact H2|]. by apply map_set_unique.
Qed.

Lemma get_unique now p s t c :
  List.NoDup (keys c) -> List.NoDup (keys (snd (get now p s t c))).
Proof.
  intros H. unfold get. destruct (map_get p (cache c)) as [cached|]; [|exact H].
  destruct (_ || _); simpl; [by apply delete_unique|].
  by apply map_set_unique, map_delete_unique.
Qed.

(** With the cache below capacity and the memory pressure at or below
    both thresholds, [set] stores exactly the new entry under the path. *)
Lemma set_stores cfg c0 p c s now pressure :
  map_size (cache c0) < maxSize c0 ->
  (pressure <= MEMORY_PRESSURE_THRESHOLD cfg)%Q ->
  (pressure <= 6 # 10)%Q ->
  let c1 := set cfg now pressure p c s c0 in
  map_get p (cache c1)
  = Some {| content := c; timestamp := now; size := s; accessCount := 1 |}
  /\ ttl c1 = ttl c0.
Proof.
  intros Hcap Hthr H06 c1. subst c1. unfold set.
  rewrite (Qgtb_false _ _ Hthr), (Qgtb_false _ _ H06), andb_false_r. simpl.
  split; [apply map_get_set_eq|]. by rewrite evictOldest_below.
Qed.

(** C6: [set(p, c, s)] followed by [get(p, s, t)] within the time to live
    returns [c], when the cache is below capacity and the memory pressure
    is at or below its thresholds; and [get(p, s', t)] for a size [s']
    other than [s] reports absent and removes the entry. *)
Theorem set_then_get (cfg : AdaptiveFileConfig) (c0 : AdaptiveFileCache)
    (p c : string) (s s' t now now' : Z) (pressure : Q) :
  map_size (cache c0) < maxSize c0 ->
  (pressure <= MEMORY_PRESSURE_THRESHOLD cfg)%Q ->
  (pressure <= 6 # 10)%Q ->
  now' - now <= ttl c0 ->
  s' <> s ->
  let c1 := set cfg now pressure p c s c0 in
  fst (get now' p s t c1) = Some c
  /\ fst (get now' p s' t c1) = None
  /\ map_get p (cache (snd (get now' p s' t c1))) = None.
Proof.
  intros Hcap Hthr H06 Httl Hne c1.
  destruct (set_stores cfg c0 p c s now pressure Hcap Hthr H06) as [Hget Httl1].
  fold c1 in Hget, Httl1.
  split; [|split]; unfold get; rewrite Hget; simpl.
  - rewrite Httl1.
    replace (now' - now >? ttl c0) with false
      by (symmetry; rewrite Z.gtb_ltb; apply Z.ltb_ge; lia).
    by rewrite Z.eqb_refl.
  - replace (s =? s') with false by (symmetry; apply Z.eqb_neq; congruence).
    by rewrite orb_true_r.
  - replace (s =? s') with false by (symmetry; apply Z.eqb_neq; congruence).
    rewrite orb_true_r. simpl. apply map_get_delete_eq.
Qed.

Lemma set_then_get_witness :
  let c1 := set Fixtures.config 1000 (1 # 2) "/p.txt" "hello" 5 (new 50 300000) in
  fst (get 1000 "/p.txt" 5 0 c1) = Some "hello"
  /\ fst (get 1000 "/p.txt" 6 0 c1) = None
  /\ map_get "/p.txt" (cache (snd (get 1000 "/p.txt" 6 0 c1))) = None.
Proof.
  apply (set_then_get Fixtures.config (new 50 300000) "/p.txt" "hello" 5 6 0 1000 1000 (1 # 2)).
  - vm_compute. reflexivity.
  - vm_compute. discriminate.
  - vm_compute. discriminate.
  - vm_compute. discriminate.
  - lia.
Defined.

(** *** Emergency eviction *)

Lemma insert_sorted_perm {A} (le : A -> A -> bool) (x : A) (l : list A) :
  Permutation (insert_sorted le x l) (x :: l).
Proof.
  induction l as [|y l IH]; simpl; [reflexivity|].
  destruct (le x y); [reflexivity|].
  rewrite IH. apply perm_swap.
Qed.

Lemma stable_sort_perm {A} (le : A -> A -> bool) (l : list A) :
  Permutation (stable_sort le l) l.
Proof.
  induction l as [|x l IH]; simpl; [reflexivity|].
  unfold stable_sort in *. simpl. rewrite insert_sorted_perm. by constructor.
Qed.

Lemma filter_remove_one (k : string) (l : list string) :
  List.NoDup l -> In k l ->
  Datatypes.S (List.length (List.filter (fun k' => negb (String.eqb k k')) l))
  = List.length l.
Proof.
  induction 1 as [|k' l Hnotin Hnodup IH]; intros Hin; [destruct Hin|].
  simpl. destruct (String.eqb k k') eqn:E; simpl.
  - apply String.eqb_eq in E. subst k'. f_equal.
    clear IH Hin Hnodup. induction l as [|x l IHl]; simpl; [reflexivity|].
    destruct (String.eqb k x) eqn:Ex.
    + apply String.eqb_eq in Ex. subst x. exfalso. apply Hnotin. by left.
    + simpl. f_equal. apply IHl. intros Hk. apply Hnotin. by right.
  - f_equal. apply IH. destruct Hin as [->|Hin]; [|exact Hin].
    by rewrite String.eqb_refl in E.
Qed.

Lemma delete_all_cache (ks : list string) (c : AdaptiveFileCache) :
  cache (delete_all ks c) = List.fold_left (fun m k => map_delete k m) ks (cache c).
Proof.
  unfold delete_all. revert c. induction ks as [|k ks IH]; intros c; simpl; [reflexivity|].
  by rewrite IH.
Qed.

Lemma delete_keys_length (ks : list string) :
  forall m : jsmap,
    List.NoDup ks -> List.NoDup (List.map fst m) -> incl ks (List.map fst m) ->
    (List.length (List.fold_left (fun m k => map_delete k m) ks m) + List.length ks
     = List.length m)%nat.
Proof.
  induction ks as [|k ks IH]; intros m Hks Hm Hincl; simpl; [lia|].
  inversion Hks as [|? ? Hnotin Hks']; subst.
  assert (Hlen : Datatypes.S (List.length (map_delete k m)) = List.length m).
  { rewrite <- (length_map fst (map_delete k m)), <- (length_map fst m), map_delete_keys.
    apply filter_remove_one; [exact Hm|]. apply Hincl. by left. }
  rewrite <- Hlen, <- (IH (map_delete k m)); [lia|exact Hks'| |].
  - rewrite map_delete_keys. by apply List.NoDup_filter.
  - intros k' Hk'. rewrite map_delete_keys. apply filter_In. split.
    + apply Hincl. by right.
    + apply negb_true_iff, String.eqb_neq. intros ->. contradiction.
Qed.

Lemma NoDup_firstn {A} (n : nat) (l : list A) : List.NoDup l -> List.NoDup (firstn n l).
Proof.
  intros H. rewrite <- (firstn_skipn n l) in H. by apply NoDup_app_remove_r in H.
Qed.

(** Whatever the score, a cleanup that runs leaves [floor(maxSize / 2)]
    entries: half the capacity. *)
Lemma cleanupBy_shrinks_to_half (rank : entry -> Q) (c : AdaptiveFileCache) :
  List.NoDup (keys c) ->
  0 <= maxSize c / 2 < map_size (cache c) ->
  map_size (cache (cleanupBy rank c)) = maxSize c / 2.
Proof.
  intros Hnodup [Hpos Hover]. unfold cleanupBy.
  replace (map_size (cache c) <=? maxSize c / 2) with false
    by (symmetry; apply Z.leb_gt; exact Hover).
  rewrite delete_all_cache. unfold map_size in *.
  set (n := Z.to_nat (Z.of_nat (List.length (cache c)) - maxSize c / 2)).
  set (sorted := sort_by rank (cache c)).
  assert (Hperm : Permutation sorted (cache c)) by apply stable_sort_perm.
  assert (Hkeys : List.NoDup (List.map fst sorted)).
  { eapply Permutation.Permutation_NoDup; [|exact Hnodup].
    symmetry. by apply Permutation_map. }
  pose proof (delete_keys_length (List.map fst (firstn n sorted)) (cache c)) as Hlen.
  rewrite <- firstn_map in Hlen.
  specialize (Hlen (NoDup_firstn n _ Hkeys) Hnodup).
  assert (Hincl : incl (firstn n (List.map fst sorted)) (List.map fst (cache c))).
  { intros k Hk. apply (Permutation_in k (Permutation_map fst Hperm)).
    rewrite <- (firstn_skipn n (List.map fst sorted)). apply in_or_app. by left. }
  specialize (Hlen Hincl).
  rewrite firstn_map in Hlen.
  rewrite length_map, length_firstn, (Permutation_length Hperm) in Hlen.
  subst n. lia.
Qed.

Lemma emergencyCleanup_shrinks_to_half (now : Z) (c : AdaptiveFileCache) :
  List.NoDup (keys c) ->
  0 <= maxSize c / 2 < map_size (cache c) ->
  map_size (cache (emergencyCleanup now c)) = maxSize c / 2.
Proof. apply cleanupBy_shrinks_to_half. Qed.

(** C3: the comparator of [emergencyCleanup] adds the age term.  On a full
    cache of two entries with equal access counts it evicts the entry
    used last and keeps the older one, while the score
    0.7 accessCount - 0.3 age ranks the older entry lowest and a cleanup
    by that score evicts it. *)
Theorem emergencyCleanup_evicts_newest :
  keys (emergencyCleanup 1000 Fixtures.two_entries) = ["/old.txt"]
  /\ keys (claimed_cleanup 1000 Fixtures.two_entries) = ["/new.txt"]
  /\ (score 1000 Fixtures.recent_entry < score 1000 Fixtures.old_entry)%Q
  /\ (claimed_score 1000 Fixtures.old_entry < claimed_score 1000 Fixtures.recent_entry)%Q.
Proof. repeat split; vm_compute; reflexivity. Qed.

End CacheFacts.

(** ** The agent runtime *)

Module AgentFacts.
Import Agent.

(** The lookup of the code, [this.tools.find(..)], against the registry:
    it finds the first tool that bears the name, and nothing exactly when
    no tool bears it. *)
Lemma find_tool_registered {W : Type} (tools : list (Tool W)) (n : string) (tool : Tool W) :
  find_tool tools n = Some tool -> registered tools n tool.
Proof.
  unfold find_tool, registered. induction tools as [|t rest IH]; simpl; [discriminate|].
  destruct (String.eqb (name t) n) eqn:Hname.
  - intros [= <-]. exists [], rest. repeat split; [|constructor].
    by apply String.eqb_eq.
  - intros Hfind. destruct (IH Hfind) as (before & after & -> & Hn & Hbefore).
    exists (t :: before), after. repeat split; [exact Hn|].
    constructor; [|exact Hbefore]. by apply String.eqb_neq.
Qed.

Lemma find_tool_unregistered {W : Type} (tools : list (Tool W)) (n : string) :
  find_tool tools n = None -> unregistered tools n.
Proof.
  unfold find_tool, unregistered. induction tools as [|t rest IH]; simpl; [constructor|].
  destruct (String.eqb (name t) n) eqn:Hname; [discriminate|].
  intros Hfind. constructor; [by apply String.eqb_neq | by apply IH].
Qed.

Lemma registered_find_tool {W : Type} (tools : list (Tool W)) (n : string) (tool : Tool W) :
  registered tools n tool -> find_tool tools n = Some tool.
Proof.
  unfold find_tool. intros (before & after & -> & Hn & Hbefore).
  induction Hbefore as [|t before Ht _ IH]; simpl.
  - apply String.eqb_eq in Hn. by rewrite Hn.
  - apply String.eqb_neq in Ht. by rewrite Ht.
Qed.

Lemma unregistered_find_tool {W : Type} (tools : list (Tool W)) (n : string) :
  unregistered tools n -> find_tool tools n = None.
Proof.
  unfold find_tool, unregistered. induction 1 as [|t rest Ht _ IH]; simpl; [reflexivity|].
  apply String.eqb_neq in Ht. by rewrite Ht.
Qed.

Section Execution.
Context {W : Type} {rt : Runtime}.
Variable tools : list (Tool W).

(** One call: the code computes the outcome the relation describes, and
    nothing is thrown. *)
Lemma executeToolCall_outcome (toolCall : ToolCall) (w : W) :
  exists r w', executeToolCall tools toolCall w = (Ok r, w')
               /\ call_outcome tools toolCall w r w'
               /\ toolCallId r = id toolCall.
Proof.
  unfold executeToolCall.
  destruct (find_tool tools (fn_name toolCall)) as [tool|] eqn:Hfind.
  - unfold try_catch, bind.
    destruct (invoke tool (fn_arguments toolCall) w) as [[out|e] w'] eqn:Hinv.
    + eexists _, w'. split; [reflexivity|]. split; [|reflexivity].
      eapply outcome_returned; eauto using find_tool_registered.
    + eexists _, w'. split; [reflexivity|]. split; [|reflexivity].
      eapply outcome_threw; eauto using find_tool_registered.
  - eexists _, w. split; [reflexivity|]. split; [|reflexivity].
    by apply outcome_unknown, find_tool_unregistered.
Qed.

Lemma executeToolCallsFrom_outcomes (toolCalls : list ToolCall) :
  forall (acc : list ToolExecutionResult) (w : W),
  exists rs w', executeToolCallsFrom tools acc (array_of toolCalls) w = (Ok (acc ++ rs), w')
                /\ outcomes tools toolCalls w rs w'
                /\ List.map toolCallId rs = List.map id toolCalls.
Proof.
  induction toolCalls as [|toolCall rest IH]; intros acc w; simpl.
  - exists [], w. rewrite app_nil_r. repeat split. constructor.
  - destruct (executeToolCall_outcome toolCall w) as (r & w1 & Hrun & Hout & Hid).
    destruct (IH (acc ++ [r]) w1) as (rs & w2 & Hrest & Houts & Hids).
    exists (r :: rs), w2. unfold bind. rewrite Hrun, Hrest.
    rewrite <- app_assoc. simpl. repeat split.
    + econstructor; eauto.
    + by rewrite Hid, Hids.
Qed.

(** C2: for every sequence of tool calls and every state,
    [executeToolCalls] returns (it throws nothing) one result per call, in
    the order of the calls and with the id of its call; the calls run one
    after the other, each in the state left by the one before: a call
    that names a tool of the registry gets what the [invoke] of the first
    tool of that name does in that state, and a call that names none
    runs nothing; and the result of a call to an unknown tool, or to a
    tool whose [invoke] throws, is the serialisation of an object with
    [success: false] and an [error] field. *)
Theorem executeToolCalls_correlated (toolCalls : list ToolCall) (w : W) :
  exists results w',
    executeToolCalls tools (array_of toolCalls) w = (Ok results, w')
    /\ outcomes tools toolCalls w results w'
    /\ List.map toolCallId results = List.map id toolCalls
    /\ Forall (fun r =>
                 success r = false ->
                 exists message,
                   response r
                   = JSON_stringify (JObj [("success", JBool false); ("error", JStr message)]))
         results.
Proof.
  destruct (executeToolCallsFrom_outcomes toolCalls [] w) as (rs & w' & Hrun & Houts & Hids).
  exists rs, w'. repeat split; auto.
  clear Hrun Hids. induction Houts as [|toolCall rest w0 r w1 rs w2 Hcall _ IH]; constructor; auto.
  intros Hfail. destruct Hcall; simpl in *; try discriminate; eauto.
Qed.

(** The tool messages appended for a follow-up round carry, in order, the
    ids of the calls they answer. *)
Lemma toolMessages_correlated (toolCalls : list ToolCall) (w : W) :
  exists results w',
    executeToolCalls tools (array_of toolCalls) w = (Ok results, w')
    /\ List.map msg_tool_call_id (List.map toolMessage results)
       = List.map (fun c => Some (id c)) toolCalls.
Proof.
  destruct (executeToolCallsFrom_outcomes toolCalls [] w) as (rs & w' & Hrun & _ & Hids).
  exists rs, w'. split; [exact Hrun|].
  rewrite List.map_map. simpl.
  rewrite <- (List.map_map toolCallId Some), Hids, List.map_map. reflexivity.
Qed.

End Execution.

Lemma executeToolCalls_correlated_witness :
  executeToolCalls (rt := Fixtures.runtime) [Fixtures.counter; Fixtures.broken]
    (array_of [Fixtures.count_call; Fixtures.missing_call; Fixtures.break_call]) 0
  = (Ok [{| toolCallId := "call_1"; success := true; response := "counted";
            error := None |};
         {| toolCallId := "call_2"; success := false;
            response := @JSON_stringify Fixtures.runtime
                          (failure_json "Unknown tool: missing");
            error := Some "Unknown tool: missing" |};
         {| toolCallId := "call_3"; success := false;
            response := @JSON_stringify Fixtures.runtime
                          (failure_json "Tool execution failed: out of order");
            error := Some "out of order" |}],
     11).
Proof.
  destruct (executeToolCalls_correlated (rt := Fixtures.runtime)
              [Fixtures.counter; Fixtures.broken]
              [Fixtures.count_call; Fixtures.missing_call; Fixtures.break_call] 0)
    as (results & w' & Hrun & Houts & _).
  rewrite Hrun. clear Hrun.
  inversion Houts as [|c1 rest1 w0 r1 w1 rs1 w1' Hcall1 Hrest1]; subst; clear Houts.
  inversion Hrest1 as [|c2 rest2 w0 r2 w2 rs2 w2' Hcall2 Hrest2]; subst; clear Hrest1.
  inversion Hrest2 as [|c3 rest3 w0 r3 w3 rs3 w3' Hcall3 Hrest3]; subst; clear Hrest2.
  inversion Hrest3; subst; clear Hrest3.
  inversion Hcall1 as [Hnone|tool out w0 Hreg Hinv|tool e w0 Hreg Hinv]; subst; clear Hcall1;
    [apply unregistered_find_tool in Hnone; discriminate Hnone
    |apply registered_find_tool in Hreg; injection Hreg as <-
    |apply registered_find_tool in Hreg; injection Hreg as <-; discriminate Hinv].
  injection Hinv as <- <-.
  inversion Hcall2 as [Hnone|tool out w0 Hreg Hinv|tool e w0 Hreg Hinv]; subst; clear Hcall2;
    [clear Hnone
    |apply registered_find_tool in Hreg; discriminate Hreg
    |apply registered_find_tool in Hreg; discriminate Hreg].
  inversion Hcall3 as [Hnone|tool out w0 Hreg Hinv|tool e w0 Hreg Hinv]; subst; clear Hcall3;
    [apply unregistered_find_tool in Hnone; discriminate Hnone
    |apply registered_find_tool in Hreg; injection Hreg as <-; discriminate Hinv
    |apply registered_find_tool in Hreg; injection Hreg as <-].
  injection Hinv as <- <-.
  reflexivity.
Defined.

(** C1: on a response whose first delta has 51199 bytes, followed by the
    deltas ["bc"], ["de"] and ["f"], the consumer receives the first
    delta, then the truncation notice twice in place of ["bc"] and
    ["de"], and then ["f"]: deltas over the cap are replaced, not
    forwarded, the notice is repeated, and a later delta that fits is
    accumulated again. *)
Theorem processStream_replaces_delta_over_cap (text : string) :
  Str.len text = 51199 ->
  events_of (rt := Fixtures.runtime) Fixtures.no_tools Fixtures.silent_provider
    0 (Fixtures.long_stream text) [] tt
  = [output_text_delta text;
     output_text_delta truncation_notice;
     output_text_delta truncation_notice;
     output_text_delta "f"].
Proof.
  intros Hlen.
  assert (Hne : String.eqb text "" = false).
  { apply String.eqb_neq. intros ->. discriminate Hlen. }
  unfold events_of, Fixtures.long_stream, Fixtures.content_chunk.
  cbn -[handleContent Str.len].
  unfold handleContent at 1. rewrite Hne. cbn -[Str.len Z.gtb Z.add].
  rewrite Hlen. reflexivity.
Qed.

Lemma len_text_of (n : Z) (c : ascii) :
  0 <= n -> Str.len (Fixtures.text_of n c) = n.
Proof.
  intros Hn. unfold Str.len, Fixtures.text_of.
  rewrite <- (Z2Nat.id n) at 2 by exact Hn. f_equal.
  induction (Z.to_nat n) as [|k IH]; simpl; [reflexivity|]. by rewrite IH.
Qed.

Lemma processStream_replaces_delta_over_cap_witness :
  events_of (rt := Fixtures.runtime) Fixtures.no_tools Fixtures.silent_provider
    0 (Fixtures.long_stream (Fixtures.text_of 51199 "a")) [] tt
  = [output_text_delta (Fixtures.text_of 51199 "a");
     output_text_delta truncation_notice;
     output_text_delta truncation_notice;
     output_text_delta "f"].
Proof.
  apply (processStream_replaces_delta_over_cap (Fixtures.text_of 51199 "a")).
  apply len_text_of. lia.
Defined.

(** Within the cap a delta is forwarded as it is and accumulated. *)
Lemma handleContent_within_cap (state : StreamProcessorState) (text : string) :
  text <> "" ->
  contentSize state + Str.len text <= MAX_ACCUMULATED_SIZE ->
  fst (handleContent state (Some text)) = [output_text_delta text]
  /\ accumulatedContent (snd (handleContent state (Some text)))
     = accumulatedContent state +:+ text
  /\ contentSize (snd (handleContent state (Some text)))
     = contentSize state + Str.len text.
Proof.
  intros Hne Hfits. unfold handleContent.
  apply String.eqb_neq in Hne. rewrite Hne.
  replace (contentSize state + Str.len text >? MAX_ACCUMULATED_SIZE) with false
    by (symmetry; rewrite Z.gtb_ltb; apply Z.ltb_ge; exact Hfits).
  repeat split.
Qed.

(** The branch taken beyond the cap, for every state and delta. *)
Lemma handleContent_over_cap (state : StreamProcessorState) (text : string) :
  text <> "" ->
  contentSize state + Str.len text > MAX_ACCUMULATED_SIZE ->
  handleContent state (Some text) = ([output_text_delta truncation_notice], state).
Proof.
  intros Hne Hover. unfold handleContent.
  apply String.eqb_neq in Hne. rewrite Hne.
  apply Z.gt_lt, Z.gtb_lt in Hover. by rewrite Hover.
Qed.

End AgentFacts.

(** ** The file-access layer *)

Module FileOpsFacts.
Import FileOps.

(** *** Binary detection *)

Lemma existsb_zero_In (l : list ascii) :
  In Ascii.zero l -> existsb (Ascii.eqb Ascii.zero) l = true.
Proof.
  intros H. apply existsb_exists. exists Ascii.zero. split; [exact H|].
  apply Ascii.eqb_refl.
Qed.

Lemma existsb_zero_text (l : list ascii) :
  Forall Str.ascii_text l -> existsb (Ascii.eqb Ascii.zero) l = false.
Proof.
  induction 1 as [|c l Hc _ IH]; cbn [existsb]; [reflexivity|].
  rewrite IH, orb_false_r. apply Ascii.eqb_neq. intros <-.
  unfold Str.ascii_text in Hc. change (nat_of_ascii Ascii.zero) with 0%nat in Hc. lia.
Qed.

Section Binary.
Context {F : Type} {fsF : NodeFs F}.

Lemma isLikelyBinary_denylisted (filePath : string) (f : F) (stats : Stats) :
  fs_stat filePath f = Ok stats ->
  has binaryExtensions (Str.toLowerCase (Path.extname filePath)) = true ->
  isLikelyBinary filePath f = true.
Proof.
  intros Hstat Hext. unfold isLikelyBinary. rewrite Hstat, Hext.
  by destruct (st_size stats >? 100 * 1024 * 1024).
Qed.

Lemma isLikelyBinary_null_byte (filePath : string) (f : F) (stats : Stats)
    (bytes : list ascii) :
  fs_stat filePath f = Ok stats ->
  fs_readSample filePath (sampleSizeOf stats) f = Ok bytes ->
  In Ascii.zero (firstn (sampleSizeOf stats) bytes) ->
  isLikelyBinary filePath f = true.
Proof.
  intros Hstat Hread Hzero. unfold isLikelyBinary. rewrite Hstat.
  destruct (st_size stats >? 100 * 1024 * 1024); [reflexivity|].
  destruct (has binaryExtensions _); [reflexivity|].
  destruct (st_size stats >? 0) eqn:Hpos.
  - rewrite Hread. apply existsb_zero_In. unfold filled_buffer.
    apply in_or_app. by left.
  - exfalso. rewrite Z.gtb_ltb in Hpos. apply Z.ltb_ge in Hpos.
    replace (sampleSizeOf stats) with 0%nat in Hzero by (unfold sampleSizeOf; lia).
    exact Hzero.
Qed.

Lemma isLikelyBinary_small_text (filePath : string) (f : F) (stats : Stats) :
  fs_stat filePath f = Ok stats ->
  has binaryExtensions (Str.toLowerCase (Path.extname filePath)) = false ->
  st_size stats < 1024 ->
  (forall bytes,
     fs_readSample filePath (sampleSizeOf stats) f = Ok bytes ->
     List.length bytes = sampleSizeOf stats /\ Forall Str.ascii_text bytes) ->
  isLikelyBinary filePath f = false.
Proof.
  intros Hstat Hext Hsmall Htext. unfold isLikelyBinary. rewrite Hstat, Hext.
  replace (st_size stats >? 100 * 1024 * 1024) with false
    by (symmetry; rewrite Z.gtb_ltb; apply Z.ltb_ge; lia).
  destruct (st_size stats >? 0); [|reflexivity].
  destruct (fs_readSample filePath (sampleSizeOf stats) f) as [bytes|e] eqn:Hread;
    [|reflexivity].
  destruct (Htext bytes eq_refl) as [Hlen Hall].
  unfold filled_buffer. rewrite Hlen, Nat.sub_diag. simpl. rewrite app_nil_r.
  apply existsb_zero_text. rewrite <- Hlen, firstn_all. exact Hall.
Qed.

Lemma isLikelyBinary_unreadable (filePath : string) (f : F) (stats : Stats) (e : exn) :
  fs_stat filePath f = Ok stats ->
  fs_readSample filePath (sampleSizeOf stats) f = Throw e ->
  isLikelyBinary filePath f
  = (st_size stats >? 100 * 1024 * 1024)
    || has binaryExtensions (Str.toLowerCase (Path.extname filePath)).
Proof.
  intros Hstat Hread. unfold isLikelyBinary. rewrite Hstat, Hread.
  destruct (st_size stats >? 100 * 1024 * 1024); [reflexivity|].
  destruct (has binaryExtensions _); [reflexivity|].
  by destruct (st_size stats >? 0).
Qed.

(** C8, as the code has it.  For every file whose [stat] succeeds: with a
    denylisted extension it is binary whatever it holds; it is binary
    when the sample of its first min(1024, size) bytes can be read and
    holds a null byte; when the sample cannot be opened or read, the file
    is classified by its size and extension alone, binary over 100 MB or
    with a denylisted extension and text otherwise; and under 1024 bytes,
    without a denylisted extension and with a sample of ASCII text, it is
    not binary. *)
Theorem isLikelyBinary_classification (f : F) (filePath : string) (stats : Stats) :
  fs_stat filePath f = Ok stats ->
  let denylisted := has binaryExtensions (Str.toLowerCase (Path.extname filePath)) in
  let sample := fs_readSample filePath (sampleSizeOf stats) f in
  (denylisted = true -> isLikelyBinary filePath f = true)
  /\ (forall bytes,
        sample = Ok bytes ->
        In Ascii.zero (firstn (sampleSizeOf stats) bytes) ->
        isLikelyBinary filePath f = true)
  /\ (forall e,
        sample = Throw e ->
        isLikelyBinary filePath f = (st_size stats >? 100 * 1024 * 1024) || denylisted)
  /\ (denylisted = false ->
      st_size stats < 1024 ->
      (forall bytes,
         sample = Ok bytes ->
         List.length bytes = sampleSizeOf stats /\ Forall Str.ascii_text bytes) ->
      isLikelyBinary filePath f = false).
Proof.
  intros Hstat denylisted sample. subst denylisted sample.
  split; [|split; [|split]].
  - intros Hext. eapply isLikelyBinary_denylisted; eauto.
  - intros bytes Hread Hzero. eapply isLikelyBinary_null_byte; eauto.
  - intros e Hread. eapply isLikelyBinary_unreadable; eauto.
  - intros Hext Hsmall Htext. eapply isLikelyBinary_small_text; eauto.
Qed.

End Binary.

Lemma isLikelyBinary_classification_witness :
  isLikelyBinary "/project/logo.png" Fixtures.project_fs = true
  /\ isLikelyBinary "/project/data" Fixtures.project_fs = true
  /\ isLikelyBinary "/project/secret.txt" Fixtures.project_fs = false
  /\ isLikelyBinary "/project/a.txt" Fixtures.project_fs = false.
Proof.
  assert (Hlogo : fs_stat "/project/logo.png" Fixtures.project_fs
                  = Ok (Fixtures.stats_of_file 7 15)) by (vm_compute; reflexivity).
  assert (Hdata : fs_stat "/project/data" Fixtures.project_fs
                  = Ok (Fixtures.stats_of_file 3 16)) by (vm_compute; reflexivity).
  assert (Hsecret : fs_stat "/project/secret.txt" Fixtures.project_fs
                    = Ok (Fixtures.stats_of_file 1 14)) by (vm_compute; reflexivity).
  assert (Ha : fs_stat "/project/a.txt" Fixtures.project_fs
               = Ok (Fixtures.stats_of_file 5 11)) by (vm_compute; reflexivity).
  destruct (isLikelyBinary_classification Fixtures.project_fs "/project/logo.png" _ Hlogo)
    as (Hdenylisted & _).
  destruct (isLikelyBinary_classification Fixtures.project_fs "/project/data" _ Hdata)
    as (_ & Hnull & _).
  destruct (isLikelyBinary_classification Fixtures.project_fs "/project/secret.txt" _ Hsecret)
    as (_ & _ & Hunreadable & _).
  destruct (isLikelyBinary_classification Fixtures.project_fs "/project/a.txt" _ Ha)
    as (_ & _ & _ & Htext).
  split; [|split; [|split]].
  - apply Hdenylisted. vm_compute. reflexivity.
  - apply (Hnull (list_ascii_of_string (String "a" (String Ascii.zero "b")))).
    + vm_compute. reflexivity.
    + vm_compute. auto.
  - destruct (fs_readSample "/project/secret.txt"
                (sampleSizeOf (Fixtures.stats_of_file 1 14)) Fixtures.project_fs)
      as [bytes|e] eqn:Hread; [vm_compute in Hread; discriminate Hread|].
    rewrite (Hunreadable e eq_refl). vm_compute. reflexivity.
  - apply Htext.
    + vm_compute. reflexivity.
    + vm_compute. reflexivity.
    + intros read Hread. vm_compute in Hread. injection Hread as <-.
      split; [reflexivity|].
      repeat constructor; vm_compute; lia.
Defined.

(** C8, as stated, fails on a file that [stat] sees and [open] refuses:
    [/project/secret.txt] holds a null byte as its first byte and is
    classified as text. *)
Lemma isLikelyBinary_unreadable_counterexample :
  fs_stat "/project/secret.txt" Fixtures.project_fs = Ok (Fixtures.stats_of_file 1 14)
  /\ MemFs.nodes Fixtures.project_fs !! "/project/secret.txt"
     = Some (MemFs.File (String Ascii.zero "") 14 false)
  /\ In Ascii.zero (firstn (Z.to_nat (Z.min 1024 1))
                      (list_ascii_of_string (String Ascii.zero "")))
  /\ isLikelyBinary "/project/secret.txt" Fixtures.project_fs = false.
Proof. repeat split; vm_compute; auto. Qed.

(** *** Writing *)

Section Write.
Context {F : Type} {fsF : NodeFs F} {rt : Runtime}.

(** C5: on a path that exists, [writeFileOptimized] with [overwrite =
    false] returns the failure result, throws nothing, and leaves the
    world as it was: the file, its content and its time stamps, and the
    cache. *)
Theorem writeFileOptimized_no_overwrite (filePath content : string) (createBackup : bool)
    (w : world F) :
  let resolvedPath := Path.resolve (w_cwd w) filePath in
  fs_access resolvedPath (w_fs w) = Ok tt ->
  exists w',
    writeFileOptimized filePath content false createBackup w
    = (Ok (WriteFileError resolvedPath "File already exists and overwrite is set to false"), w')
    /\ w' = w
    /\ fs_readFile resolvedPath (w_fs w') = fs_readFile resolvedPath (w_fs w)
    /\ fs_stat resolvedPath (w_fs w') = fs_stat resolvedPath (w_fs w).
Proof.
  intros resolvedPath Hexists. exists w. repeat split.
  unfold writeFileOptimized, bind, try_catch, gets, fs_call, ret.
  fold resolvedPath. rewrite Hexists. reflexivity.
Qed.

End Write.

Lemma writeFileOptimized_no_overwrite_witness :
  exists w',
    writeFileOptimized (rt := Fixtures.runtime) "a.txt" "changed" false false
      (Fixtures.world_of Fixtures.project_fs)
    = (Ok (WriteFileError "/project/a.txt" "File already exists and overwrite is set to false"), w')
    /\ w' = Fixtures.world_of Fixtures.project_fs
    /\ fs_readFile "/project/a.txt" (w_fs w')
       = fs_readFile "/project/a.txt" Fixtures.project_fs
    /\ fs_stat "/project/a.txt" (w_fs w')
       = fs_stat "/project/a.txt" Fixtures.project_fs.
Proof.
  apply (writeFileOptimized_no_overwrite (rt := Fixtures.runtime) "a.txt" "changed" false
           (Fixtures.world_of Fixtures.project_fs)).
  vm_compute. reflexivity.
Defined.

(** *** Fuzzy scores *)

Lemma toLowerCase_length (s : string) :
  String.length (Str.toLowerCase s) = String.length s.
Proof. induction s; simpl; congruence. Qed.

Lemma len_toLowerCase (s : string) : Str.len (Str.toLowerCase s) = Str.len s.
Proof. unfold Str.len. by rewrite toLowerCase_length. Qed.

(** C9: a query scores 1 against itself; when the target, case-folded
    unless the comparison is case sensitive, contains the query without
    being equal to it, the score is 0.9 times the ratio of their lengths;
    and the score of ["abc"] against ["xabcx"] is at least 0.9 (3/5). *)
Theorem calculateFuzzyScore_exact_and_substring
    (q query target : string) (caseSensitive : bool) :
  q <> "" ->
  FileOps.fold_case caseSensitive query <> FileOps.fold_case caseSensitive target ->
  Str.includes (FileOps.fold_case caseSensitive target) (FileOps.fold_case caseSensitive query) = true ->
  (calculateFuzzyScore q q caseSensitive == 1)%Q
  /\ (calculateFuzzyScore query target caseSensitive
      == (9 # 10) * (inject_Z (Str.len query) / inject_Z (Str.len target)))%Q
  /\ ((9 # 10) * (3 # 5) <= calculateFuzzyScore "abc" "xabcx" false)%Q.
Proof.
  intros _ Hne Hsub. split; [|split].
  - unfold calculateFuzzyScore. by rewrite String.eqb_refl.
  - unfold calculateFuzzyScore.
    apply String.eqb_neq in Hne. rewrite Hne, Hsub.
    unfold FileOps.fold_case. destruct caseSensitive; rewrite ?len_toLowerCase; reflexivity.
  - vm_compute. discriminate.
Qed.

Lemma calculateFuzzyScore_exact_and_substring_witness :
  (calculateFuzzyScore "Readme" "Readme" false == 1)%Q
  /\ (calculateFuzzyScore "ABC" "xabcx" false
      == (9 # 10) * (inject_Z (Str.len "ABC") / inject_Z (Str.len "xabcx")))%Q
  /\ ((9 # 10) * (3 # 5) <= calculateFuzzyScore "abc" "xabcx" false)%Q.
Proof.
  apply (calculateFuzzyScore_exact_and_substring "Readme" "ABC" "xabcx" false).
  - discriminate.
  - vm_compute. discriminate.
  - vm_compute. reflexivity.
Defined.

(** *** Traversal *)

(** C4: [visitor.maxDepth || 10] reads a depth of zero as no depth at
    all.  With [maxDepth = 0] the walk of the project tree enters [sub]
    and shows [sub/b.txt] to the file visitor, as it does without a
    [maxDepth]; the test [depth > maxDepth] itself keeps a walk with a
    bound below one, such as 1/2, in the root directory. *)
Theorem traverseDirectory_depth_zero_descends :
  effectiveMaxDepth (Fixtures.recording_visitor (Some 0%Q)) = 10%Q
  /\ Fixtures.visited (Some 0%Q)
     = ["a.txt"; "sub/b.txt"; "secret.txt"; "logo.png"; "data"]
  /\ Fixtures.visited (Some 0%Q) = Fixtures.visited None
  /\ Fixtures.visited (Some (1 # 2)%Q) = ["a.txt"; "secret.txt"; "logo.png"; "data"].
Proof. repeat split; vm_compute; reflexivity. Qed.

End FileOpsFacts.

(** ** The tool registry *)

Module ToolFacts.
Import FileOps Validation Tools.

(** *** Rules for [post] and [returns] *)

Section Rules.
Context {S : Type}.

Lemma post_ret {A} (P : A -> Prop) (a : A) : P a -> post (S := S) P (ret a).
Proof. intros H s. exact H. Qed.

Lemma post_throw {A} (P : A -> Prop) (e : exn) : post (S := S) P (throw e).
Proof. intros s. exact I. Qed.

Lemma post_bind {A B} (Q : A -> Prop) (P : B -> Prop) (m : M S A) (k : A -> M S B) :
  post Q m -> (forall a, Q a -> post P (k a)) -> post P (bind m k).
Proof.
  intros Hm Hk s. unfold bind. specialize (Hm s).
  destruct (m s) as [[a|e] s']; [|exact I]. apply Hk, Hm.
Qed.

Lemma post_any {A} (m : M S A) : post (fun _ => True) m.
Proof. intros s. by destruct (m s) as [[a|e] s']. Qed.

Lemma post_bind_any {A B} (P : B -> Prop) (m : M S A) (k : A -> M S B) :
  (forall a, post P (k a)) -> post P (bind m k).
Proof. intros Hk. apply (post_bind (fun _ => True)); [apply post_any|auto]. Qed.

Lemma post_try_catch {A} (P : A -> Prop) (m : M S A) (h : exn -> M S A) :
  post P m -> (forall e, post P (h e)) -> post P (try_catch m h).
Proof.
  intros Hm Hh s. unfold try_catch. specialize (Hm s).
  destruct (m s) as [[a|e] s']; [exact Hm|apply Hh].
Qed.

(** A [try] whose [catch] returns cannot throw. *)
Lemma returns_try_catch {A} (P : A -> Prop) (m : M S A) (h : exn -> M S A) :
  post P m -> (forall e, returns P (h e)) -> returns P (try_catch m h).
Proof.
  intros Hm Hh s. unfold try_catch. specialize (Hm s).
  destruct (m s) as [[a|e] s']; [by exists a, s'|apply Hh].
Qed.

Lemma returns_ret {A} (P : A -> Prop) (a : A) : P a -> returns (S := S) P (ret a).
Proof. intros H s. by exists a, s. Qed.

End Rules.

Ltac post_step :=
  first
    [ apply post_ret
    | apply post_throw
    | apply post_bind_any; intro
    | match goal with
      | |- post _ (if ?b then _ else _) => destruct b
      | |- post _ (match ?x with _ => _ end) => destruct x
      end ].

(** *** Every tool returns a structured result *)

Section Structured.
Context {F : Type} {fsF : NodeFs F} {rt : Runtime}.

Lemma structured_intro (j : json) : has_success j = true -> structured (JSON_stringify j).
Proof. intros H. by exists j. Qed.

Lemma listDirectoryOptimized_success (p : string) (h : bool) :
  post (fun j => has_success j = true) (listDirectoryOptimized (F := F) p h).
Proof.
  unfold listDirectoryOptimized. apply post_bind_any; intro cwd.
  apply post_try_catch; [|intro; apply post_throw].
  repeat post_step. reflexivity.
Qed.

Lemma getFileInfoOptimized_success (p : string) :
  post (fun j => has_success j = true) (getFileInfoOptimized (F := F) p).
Proof.
  unfold getFileInfoOptimized. apply post_bind_any; intro cwd.
  apply post_try_catch; [|intro; apply post_throw].
  apply post_bind_any; intro stats. apply post_bind_any; intro isBinary.
  destruct (st_isDirectory stats).
  - apply post_try_catch; [|intro]; repeat post_step; reflexivity.
  - repeat post_step. reflexivity.
Qed.

Lemma FileContent_json_success (r : FileContent) : has_success (FileContent_json r) = true.
Proof. by destruct r. Qed.

Lemma WriteFileResult_json_success (r : WriteFileResult) :
  has_success (WriteFileResult_json r) = true.
Proof. by destruct r. Qed.

Lemma invoke_returns_structured (t : tool (F := F)) (input : string) :
  In t tools -> returns structured (Agent.invoke t input).
Proof.
  intros Hin. unfold tools in Hin. simpl in Hin.
  repeat (destruct Hin as [<-|Hin]); [..|contradiction]; simpl;
    (apply returns_try_catch;
     [|intro; apply returns_ret, structured_intro; reflexivity]).
  - (* read_file *)
    repeat post_step; apply structured_intro;
      first [reflexivity|apply FileContent_json_success].
  - (* list_directory *)
    apply post_bind_any; intro args.
    eapply post_bind; [apply listDirectoryOptimized_success|].
    intros j Hj. apply post_ret. by apply structured_intro.
  - (* get_file_info *)
    apply post_bind_any; intro args.
    eapply post_bind; [apply getFileInfoOptimized_success|].
    intros j Hj. apply post_ret. by apply structured_intro.
  - (* write_file *)
    repeat post_step. apply structured_intro, WriteFileResult_json_success.
  - (* search_files *)
    repeat post_step; apply structured_intro; reflexivity.
  - (* analyze_project *)
    apply post_bind_any; intro args. apply post_bind_any; intro p.
    intros w. destruct (traverseDirectory _ _ _) as [[[]|e] [a w']]; [|exact I].
    apply structured_intro. reflexivity.
  - (* search_file_content *)
    repeat post_step; apply structured_intro; reflexivity.
  - (* fuzzy_find_files *)
    repeat post_step; apply structured_intro; reflexivity.
Qed.

End Structured.

(** *** Properties a tool does not declare are ignored *)

Section Undeclared.
Context {rt : Runtime}.

Lemma lookup_app (k : string) (l1 l2 : list (string * json)) :
  lookup k (l1 ++ l2)
  = match lookup k l1 with Some v => Some v | None => lookup k l2 end.
Proof.
  unfold lookup. induction l1 as [|[k' v] l1 IH]; simpl; [reflexivity|].
  destruct (String.eqb k' k); [reflexivity|exact IH].
Qed.

Lemma lookup_merge (k : string) (d o : list (string * json)) :
  lookup k (merge d o)
  = match lookup k d with
    | Some dv => Some (default dv (lookup k o))
    | None => lookup k o
    end.
Proof.
  unfold merge. rewrite lookup_app.
  assert (Hmap : lookup k (List.map (fun kd => (fst kd, default (snd kd) (lookup (fst kd) o))) d)
                 = match lookup k d with
                   | Some dv => Some (default dv (lookup k o))
                   | None => None
                   end).
  { unfold lookup at 1 3. induction d as [|[k' v] d IH]; simpl; [reflexivity|].
    destruct (String.eqb k' k) eqn:E; [|exact IH].
    apply String.eqb_eq in E. by subst. }
  rewrite Hmap. clear Hmap. destruct (lookup k d) as [dv|] eqn:Hd; [reflexivity|].
  unfold lookup at 1 3. induction o as [|[k' v] o IH]; simpl; [reflexivity|].
  destruct (String.eqb k' k) eqn:E.
  - apply String.eqb_eq in E. subst k'. rewrite Hd. simpl. by rewrite String.eqb_refl.
  - destruct (lookup k' d); [exact IH|]. simpl. rewrite E. exact IH.
Qed.

Lemma flat_map_agree {A B} (f g : A -> list B) (l : list A) :
  (forall a, In a l -> f a = g a) -> flat_map f l = flat_map g l.
Proof.
  induction l as [|a l IH]; intros H; simpl; [reflexivity|].
  rewrite (H a), IH; auto using in_eq, in_cons.
Qed.


Lemma zparse_agree (fields : list zfield) (o1 o2 : list (string * json)) :
  agree_on (names fields) o1 o2 ->
  zparse fields (JObj o1) = zparse fields (JObj o2).
Proof.
  intros Hagree. unfold zparse.
  assert (Hcheck : flat_map (check_field o1) fields = flat_map (check_field o2) fields).
  { apply flat_map_agree. intros fld Hfld. unfold check_field.
    rewrite (Hagree (z_name fld)); [reflexivity|]. by apply in_map. }
  assert (Hstrip : strip fields o1 = strip fields o2).
  { unfold strip. apply flat_map_agree. intros fld Hfld.
    rewrite (Hagree (z_name fld)); [reflexivity|]. by apply in_map. }
  by rewrite Hcheck, Hstrip.
Qed.

Lemma agree_merge (declared : list string) (d o1 o2 : list (string * json)) :
  agree_on declared o1 o2 -> agree_on declared (merge d o1) (merge d o2).
Proof. intros H k Hk. rewrite !lookup_merge, (H k Hk). reflexivity. Qed.

Lemma agree_incl (l l' : list string) (o1 o2 : list (string * json)) :
  incl l l' -> agree_on l' o1 o2 -> agree_on l o1 o2.
Proof. intros Hincl H k Hk. apply H, Hincl, Hk. Qed.

Lemma validateToolInput_agree (schema : zschema) (toolName i1 i2 : string)
    (declared : list string) (o1 o2 : list (string * json)) :
  incl (Validation.names (z_fields schema)) declared ->
  JSON_parse i1 = inr (JObj o1) ->
  JSON_parse i2 = inr (JObj o2) ->
  agree_on declared o1 o2 ->
  validateToolInput schema i1 toolName = validateToolInput schema i2 toolName.
Proof.
  intros Hincl H1 H2 Hagree. unfold validateToolInput. rewrite H1, H2.
  unfold preprocess. destruct (z_defaults schema) as [d|].
  - rewrite (zparse_agree _ (merge d o1) (merge d o2)); [reflexivity|].
    apply agree_merge. eapply agree_incl; eauto.
  - rewrite (zparse_agree _ o1 o2); [reflexivity|]. eapply agree_incl; eauto.
Qed.

End Undeclared.

Ltac incl_by_compute :=
  let k := fresh "k" in
  let H := fresh "H" in
  intros k H; simpl in H |- *; intuition.

Section Ignored.
Context {F : Type} {fsF : NodeFs F} {rt : Runtime}.

Lemma invoke_ignores_undeclared (t : tool (F := F)) (i1 i2 : string)
    (o1 o2 : list (string * json)) :
  In t tools ->
  JSON_parse i1 = inr (JObj o1) ->
  JSON_parse i2 = inr (JObj o2) ->
  agree_on (Agent.properties t) o1 o2 ->
  Agent.invoke t i1 = Agent.invoke t i2.
Proof.
  intros Hin H1 H2 Hagree. unfold tools in Hin. simpl in Hin.
  repeat (destruct Hin as [<-|Hin]); [..|contradiction]; simpl in *.
  - by rewrite (validateToolInput_agree ReadFileInputSchema "read_file" i1 i2
                  ["file_path"] o1 o2) by (assumption || incl_by_compute).
  - by rewrite (validateToolInput_agree ListDirectoryInputSchema "list_directory" i1 i2
                  ["directory_path"; "include_hidden"] o1 o2)
      by (assumption || incl_by_compute).
  - by rewrite (validateToolInput_agree GetFileInfoInputSchema "get_file_info" i1 i2
                  ["file_path"] o1 o2) by (assumption || incl_by_compute).
  - by rewrite (validateToolInput_agree WriteFileInputSchema "write_file" i1 i2
                  ["file_path"; "content"; "overwrite"] o1 o2)
      by (assumption || incl_by_compute).
  - unfold validateSearchFilesInput.
    by rewrite (validateToolInput_agree SearchFilesInputSchema "search_files" i1 i2
                  ["directory_path"; "pattern"; "file_extensions"; "max_results";
                   "case_sensitive"; "fuzzy_search"; "min_score"; "include_directories"]
                  o1 o2) by (assumption || incl_by_compute).
  - unfold validateAnalyzeProjectInput, parse_json. rewrite H1, H2. simpl.
    rewrite (Hagree "project_path"), (Hagree "max_depth") by (simpl; auto).
    reflexivity.
  - unfold validateSearchFileContentInput, parse_json. rewrite H1, H2. simpl.
    rewrite (Hagree "directory_path"), (Hagree "search_term"),
      (Hagree "file_extensions"), (Hagree "max_results"), (Hagree "case_sensitive")
      by (simpl; auto 10).
    reflexivity.
  - unfold parse_json. rewrite H1, H2. unfold lift_result, bind. cbn.
    rewrite (Hagree "query"), (Hagree "directory_path"), (Hagree "max_results")
      by (simpl; auto 10).
    reflexivity.
Qed.

(** C7, as the code has it: for every tool of the registry, every
    argument string and every state, [invoke] throws nothing and returns
    the serialisation of an object with a boolean [success] field; and
    argument objects that agree on the properties the tool declares get
    the same result, so a property that is not declared is ignored, not
    rejected. *)
Theorem invoke_structured (t : tool (F := F)) (input : string) (w : world F) :
  In t tools ->
  (exists out w', Agent.invoke t input w = (Ok out, w') /\ structured out)
  /\ (forall input' o o',
        JSON_parse input = inr (JObj o) ->
        JSON_parse input' = inr (JObj o') ->
        agree_on (Agent.properties t) o o' ->
        Agent.invoke t input' w = Agent.invoke t input w).
Proof.
  intros Hin. split.
  - apply (invoke_returns_structured t input Hin w).
  - intros input' o o' Hparse Hparse' Hagree.
    by rewrite (invoke_ignores_undeclared t input input' o o' Hin Hparse Hparse' Hagree).
Qed.

End Ignored.

Lemma invoke_structured_witness :
  (exists out w',
     Agent.invoke (readFileTool (rt := Fixtures.parsing_runtime)) Fixtures.undeclared_input
       (Fixtures.world_of Fixtures.project_fs) = (Ok out, w')
     /\ structured (rt := Fixtures.parsing_runtime) out)
  /\ (forall input' o o',
        JSON_parse (Runtime := Fixtures.parsing_runtime) Fixtures.undeclared_input
        = inr (JObj o) ->
        JSON_parse (Runtime := Fixtures.parsing_runtime) input' = inr (JObj o') ->
        agree_on ["file_path"] o o' ->
        Agent.invoke (readFileTool (rt := Fixtures.parsing_runtime)) input'
          (Fixtures.world_of Fixtures.project_fs)
        = Agent.invoke (readFileTool (rt := Fixtures.parsing_runtime))
            Fixtures.undeclared_input (Fixtures.world_of Fixtures.project_fs)).
Proof.
  apply (invoke_structured (rt := Fixtures.parsing_runtime)
           readFileTool Fixtures.undeclared_input (Fixtures.world_of Fixtures.project_fs)).
  simpl. auto.
Defined.

(** C7, as stated, fails: [read_file] declares the single property
    [file_path] and no additional properties, and is given an object that
    also carries [verbose]; it reads the file and answers with
    [success: true]. *)
Lemma invoke_accepts_undeclared_counterexample :
  JSON_parse (Runtime := Fixtures.parsing_runtime) Fixtures.undeclared_input
  = inr (JObj Fixtures.undeclared_fields)
  /\ lookup "verbose" Fixtures.undeclared_fields = Some (JBool true)
  /\ ~ In "verbose" (Agent.properties (readFileTool (F := MemFs.t)
                                         (rt := Fixtures.parsing_runtime)))
  /\ Agent.additionalProperties (readFileTool (F := MemFs.t)
                                    (rt := Fixtures.parsing_runtime)) = false
  /\ fst (Agent.invoke (readFileTool (rt := Fixtures.parsing_runtime))
            Fixtures.undeclared_input (Fixtures.world_of Fixtures.project_fs))
     = Ok (JSON_stringify (Runtime := Fixtures.parsing_runtime)
             (FileContent_json (rt := Fixtures.parsing_runtime)
                (FileContentSuccess "/project/a.txt" 5 "alpha" 11)))
  /\ is_rejection (FileContent_json (rt := Fixtures.parsing_runtime)
                     (FileContentSuccess "/project/a.txt" 5 "alpha" 11)) = false.
Proof.
  repeat split; try (vm_compute; reflexivity).
  simpl. intros [H|[]]. discriminate H.
Qed.

End ToolFacts.

(** ** Directory traversal and content search *)

Module SearchFacts.
Import FileOps Validation Tools.

(** *** Pointwise equality of computations *)

Lemma bind_ext {S A B} (m1 m2 : M S A) (k1 k2 : A -> M S B) (s : S) :
  m1 s = m2 s -> (forall a s', k1 a s' = k2 a s') -> bind m1 k1 s = bind m2 k2 s.
Proof.
  intros Hm Hk. unfold bind. rewrite Hm. destruct (m2 s) as [[a|e] s']; auto.
Qed.

Lemma try_catch_ext {S A} (m1 m2 : M S A) (h : exn -> M S A) (s : S) :
  m1 s = m2 s -> try_catch m1 h s = try_catch m2 h s.
Proof. intros Hm. unfold try_catch. by rewrite Hm. Qed.

(** *** Rules for [keeps] *)

Section Keeps.
Context {St : Type} (I : St -> Prop).

Lemma keeps_ret {A} (a : A) : keeps I (ret a).
Proof. intros s H. exact H. Qed.

Lemma keeps_throw {A} (e : exn) : keeps I (throw (A := A) e).
Proof. intros s H. exact H. Qed.

Lemma keeps_bind {A B} (m : M St A) (k : A -> M St B) :
  keeps I m -> (forall a, keeps I (k a)) -> keeps I (bind m k).
Proof.
  intros Hm Hk s H. unfold bind. specialize (Hm s H).
  destruct (m s) as [[a|e] s1]; simpl in *; [by apply Hk|exact Hm].
Qed.

Lemma keeps_try_catch {A} (m : M St A) (h : exn -> M St A) :
  keeps I m -> (forall e, keeps I (h e)) -> keeps I (try_catch m h).
Proof.
  intros Hm Hh s H. unfold try_catch. specialize (Hm s H).
  destruct (m s) as [[a|e] s1]; simpl in *; [exact Hm|by apply Hh].
Qed.

Lemma keeps_gets {A} (f : St -> A) : keeps I (gets f).
Proof. intros s H. exact H. Qed.

End Keeps.

Lemma keeps_in_world_fs_call {F S A} (I : S * world F -> Prop) (op : F -> result A) :
  keeps I (in_world (fs_call op)).
Proof. intros [s w] H. exact H. Qed.

Ltac keeps_step :=
  first
    [ apply keeps_ret
    | apply keeps_throw
    | apply keeps_gets
    | apply keeps_in_world_fs_call
    | apply keeps_bind; [|intro]
    | apply keeps_try_catch; [|intro]
    | match goal with
      | |- keeps _ (if ?b then _ else _) => destruct b
      | |- keeps _ (match ?x with _ => _ end) => destruct x eqn:?
      end ].

Section Traversal.
Context {F : Type} {fsF : NodeFs F} {S : Type}.
Variable visitor : DirectoryVisitor F S.
Variable root : string.

(** The walk of one directory throws nothing: its body is a [try] whose
    [catch] returns. *)
Lemma traverseRecursive_returns (fuel : nat) (currentPath : string) (depth : Z)
    (sw : S * world F) :
  exists sw', traverseRecursive visitor root fuel currentPath depth sw = (Ok tt, sw').
Proof.
  destruct fuel; simpl; destruct (Qgtb _ _); try (by eexists).
  unfold try_catch. destruct (bind _ _ sw) as [[[]|e] sw']; by eexists.
Qed.

(** The fuel of the walk is never what stops it: from the bound
    [floor maxDepth + 1 - depth] on, more fuel changes nothing. *)
Lemma eachItem_ext (d1 d2 : string -> M (S * world F) unit) (currentPath : string) :
  (forall p sw, d1 p sw = d2 p sw) ->
  forall items sw, eachItem visitor root d1 currentPath items sw
                   = eachItem visitor root d2 currentPath items sw.
Proof.
  intros Hd. induction items as [|item rest IH]; intros sw; simpl; [reflexivity|].
  destruct (negb _ && _); [apply IH|].
  destruct (d_isFile item).
  - apply bind_ext; [reflexivity|]. intros [] s; [apply IH|reflexivity].
  - destruct (d_isDirectory item); [|apply IH].
    apply bind_ext; [reflexivity|]. intros r s.
    destruct (is_false r); [reflexivity|].
    apply bind_ext; [|intros [] s1; apply IH].
    destruct (match shouldEnterDirectory visitor with
              | Some enter => _
              | None => true
              end); [apply Hd|reflexivity].
Qed.

Lemma depth_within (depth : Z) :
  Qgtb (inject_Z depth) (effectiveMaxDepth visitor) = false ->
  depth <= Qfloor (effectiveMaxDepth visitor).
Proof.
  intros Hdepth. unfold Qgtb in Hdepth. apply negb_false_iff, Qle_bool_iff in Hdepth.
  apply Qfloor_resp_le in Hdepth. by rewrite Qfloor_Z in Hdepth.
Qed.

Lemma traverseRecursive_fuel (fuel1 : nat) :
  forall (fuel2 : nat) (currentPath : string) (depth : Z) (sw : S * world F),
    (Z.to_nat (Qfloor (effectiveMaxDepth visitor) + 1 - depth) <= fuel1)%nat ->
    (Z.to_nat (Qfloor (effectiveMaxDepth visitor) + 1 - depth) <= fuel2)%nat ->
    traverseRecursive visitor root fuel1 currentPath depth sw
    = traverseRecursive visitor root fuel2 currentPath depth sw.
Proof.
  induction fuel1 as [|fuel1 IH]; intros fuel2 currentPath depth sw H1 H2;
    destruct fuel2 as [|fuel2]; simpl;
    destruct (Qgtb (inject_Z depth) (effectiveMaxDepth visitor)) eqn:Hdepth;
    try reflexivity; try (apply depth_within in Hdepth; lia).
  apply try_catch_ext. apply bind_ext; [reflexivity|]. intros items s1.
  apply eachItem_ext. intros p sw0. apply IH; apply depth_within in Hdepth; lia.
Qed.

(** A property of the visitor's state and the world that the callbacks
    keep is kept by the walk. *)
Variable I : S * world F -> Prop.
Hypothesis visitFile_keeps :
  forall visit p rel stats, visitFile visitor = Some visit -> keeps I (visit p rel stats).
Hypothesis visitDirectory_keeps :
  forall visit p rel, visitDirectory visitor = Some visit -> keeps I (visit p rel).

Lemma visitFileEntry_keeps (item : Dirent) (itemPath relativePath : string) :
  keeps I (visitFileEntry visitor item itemPath relativePath).
Proof.
  unfold visitFileEntry. apply keeps_try_catch; [|intro; apply keeps_ret].
  match goal with |- context [if ?c then _ else _] => destruct c end; [apply keeps_ret|].
  apply keeps_bind; [apply keeps_in_world_fs_call|intro stats].
  destruct (visitFile visitor) as [visit|] eqn:Hvisit; [|apply keeps_ret].
  apply keeps_bind; [by apply visitFile_keeps|intro r].
  destruct (is_false r); apply keeps_ret.
Qed.

Lemma eachItem_keeps (descend : string -> M (S * world F) unit) (currentPath : string) :
  (forall p, keeps I (descend p)) ->
  forall items : list Dirent, keeps I (eachItem visitor root descend currentPath items).
Proof.
  intros Hdescend. induction items as [|item rest IH]; simpl; [apply keeps_ret|].
  destruct (negb _ && _); [exact IH|].
  destruct (d_isFile item).
  - apply keeps_bind; [apply visitFileEntry_keeps|intros []]; [exact IH|apply keeps_ret].
  - destruct (d_isDirectory item); [|exact IH].
    apply keeps_bind.
    + destruct (visitDirectory visitor) as [visit|] eqn:Hvisit; [|apply keeps_ret].
      by apply visitDirectory_keeps.
    + intro r. destruct (is_false r); [apply keeps_ret|].
      apply keeps_bind; [|intro; exact IH].
      destruct (match shouldEnterDirectory visitor with
                | Some enter => _
                | None => true
                end); [apply Hdescend|apply keeps_ret].
Qed.

Lemma traverseRecursive_keeps (fuel : nat) :
  forall (currentPath : string) (depth : Z),
    keeps I (traverseRecursive visitor root fuel currentPath depth).
Proof.
  induction fuel as [|fuel IH]; intros currentPath depth; simpl;
    destruct (Qgtb _ _); try apply keeps_ret.
  apply keeps_try_catch; [|intro; apply keeps_ret].
  apply keeps_bind; [apply keeps_in_world_fs_call|intro items].
  apply eachItem_keeps. intro p. apply IH.
Qed.

End Traversal.

(** The same for the walk of the fuzzy search. *)
Section FuzzyFuel.
Context {F : Type} {fsF : NodeFs F}.
Variable options : FuzzySearchOptions.
Variable root : string.
Variable cfg : Cache.AdaptiveFileConfig.

Lemma eachCandidate_ext (d1 d2 : string -> M (fuzzy_state * world F) unit)
    (currentPath : string) :
  (forall p sw, d1 p sw = d2 p sw) ->
  forall items sw, eachCandidate options root cfg d1 currentPath items sw
                   = eachCandidate options root cfg d2 currentPath items sw.
Proof.
  intros Hd. induction items as [|item rest IH]; intros sw; simpl; [reflexivity|].
  apply bind_ext; [reflexivity|]. intros st s.
  destruct (limit_reached options st); [reflexivity|].
  destruct (d_isFile item || _).
  - apply bind_ext; [reflexivity|]. intros [] s1.
    destruct (Str.startsWith _ _ && _); [apply IH|].
    destruct (_ && _ && _); [apply IH|].
    apply bind_ext; [reflexivity|]. intros [] s2. apply IH.
  - destruct (d_isDirectory item && _); [|apply IH].
    apply bind_ext; [apply Hd|]. intros [] s1. apply IH.
Qed.

Lemma searchRecursive_fuel (fuel1 : nat) :
  forall (fuel2 : nat) (currentPath : string) (depth : Z) (sw : fuzzy_state * world F),
    (Z.to_nat (Cache.MAX_SEARCH_DEPTH cfg + 1 - depth) <= fuel1)%nat ->
    (Z.to_nat (Cache.MAX_SEARCH_DEPTH cfg + 1 - depth) <= fuel2)%nat ->
    searchRecursive options root cfg fuel1 currentPath depth sw
    = searchRecursive options root cfg fuel2 currentPath depth sw.
Proof.
  induction fuel1 as [|fuel1 IH]; intros fuel2 currentPath depth sw H1 H2;
    destruct fuel2 as [|fuel2]; simpl; try reflexivity;
    (apply bind_ext; [reflexivity|]; intros st s;
     destruct (depth >? Cache.MAX_SEARCH_DEPTH cfg) eqn:Hdepth; [reflexivity|];
     destruct (limit_reached options st); [reflexivity|]; simpl;
     rewrite Z.gtb_ltb in Hdepth; apply Z.ltb_ge in Hdepth; try lia).
  apply try_catch_ext. apply bind_ext; [reflexivity|]. intros items s1.
  apply eachCandidate_ext. intros p sw0. apply IH; lia.
Qed.

End FuzzyFuel.

Lemma traverseDirectory_returns {F : Type} {fsF : NodeFs F} {S : Type}
    (visitor : DirectoryVisitor F S) (rootPath : string) (sw : S * world F) :
  exists sw', traverseDirectory rootPath visitor sw = (Ok tt, sw').
Proof.
  unfold traverseDirectory, bind, gets. apply traverseRecursive_returns.
Qed.

Lemma traverseDirectory_keeps {F : Type} {fsF : NodeFs F} {S : Type}
    (visitor : DirectoryVisitor F S) (I : S * world F -> Prop) (rootPath : string) :
  (forall visit p rel stats, visitFile visitor = Some visit -> keeps I (visit p rel stats)) ->
  (forall visit p rel, visitDirectory visitor = Some visit -> keeps I (visit p rel)) ->
  keeps I (traverseDirectory rootPath visitor).
Proof.
  intros Hfile Hdir. unfold traverseDirectory.
  apply keeps_bind; [apply keeps_gets|intro cwd].
  by apply traverseRecursive_keeps.
Qed.

Section Search.
Context {F : Type} {fsF : NodeFs F} {rt : Runtime}.

(** Reading changes the cache and nothing else. *)
Lemma readFileOptimized_fs (filePath : string) (w : world F) :
  w_fs (snd (readFileOptimized filePath w)) = w_fs w.
Proof.
  unfold readFileOptimized, bind, try_catch, gets, fs_call, cache_get, cache_set,
    streamLargeFile, modify, ret, throw.
  destruct (fs_stat _ (w_fs w)) as [stats|e]; [|reflexivity].
  destruct (Cache.get _ _ _ _ _) as [cached c']. simpl.
  destruct (FileOps.truthy cached); [reflexivity|]. simpl.
  destruct (Qgtb _ _); simpl.
  - destruct (fs_readStream _ _ _) as [chunks ended].
    by destruct (consumeChunks _ _ _ _ _ _ _).
  - by destruct (fs_readFile _ _).
Qed.

(** What a pushed result says about the content it was computed from. *)
Lemma exec_includes (term : string) (caseSensitive : bool) (line : string) :
  Str.includes (fold_case caseSensitive line) (fold_case caseSensitive term)
  = match exec term caseSensitive line with Some _ => true | None => false end.
Proof. reflexivity. Qed.

Lemma lineMatches_length (term : string) (caseSensitive : bool) (lines : list string) :
  forall index,
    List.length (lineMatches term caseSensitive lines index)
    = List.length
        (List.filter
           (fun line => Str.includes (fold_case caseSensitive line)
                          (fold_case caseSensitive term)) lines).
Proof.
  induction lines as [|line rest IH]; intros index; simpl; [reflexivity|].
  rewrite exec_includes. destruct (exec term caseSensitive line); simpl; by rewrite IH.
Qed.

Lemma fileMatches_describes (term : string) (caseSensitive : bool)
    (filePath relativePath content : string) (r : FileMatches) :
  fileMatches term caseSensitive filePath relativePath content = Some r ->
  fm_file_path r = filePath /\ describes term caseSensitive content r.
Proof.
  unfold fileMatches, describes.
  destruct (0 <? Z.of_nat (List.length (matchesOf term caseSensitive content))) eqn:Hpos;
    [|discriminate].
  intros [= <-]. simpl. apply Z.ltb_lt in Hpos.
  repeat split; try lia.
  - apply firstn_le_length.
  - apply lineMatches_length.
Qed.

Lemma keeps_readFileOptimized (f : F) (args : ValidSearchFileContentInput)
    (p : string) (k : FileContent -> M (list FileMatches * world F) (option bool)) :
  (forall w w1 r results,
     w_fs w = f -> readFileOptimized p w = (Ok r, w1) ->
     Forall (found_in f args) results ->
     search_invariant f args (snd (k r (results, w1)))) ->
  keeps (search_invariant f args) (bind (in_world (readFileOptimized p)) k).
Proof.
  intros Hk [results w] [Hfs Hall]. simpl in Hfs, Hall.
  unfold bind, in_world. simpl.
  pose proof (readFileOptimized_fs p w) as Hfs'.
  destruct (readFileOptimized p w) as [[r|e] w1] eqn:Hread; simpl in Hfs'.
  - by eapply Hk.
  - split; simpl; [congruence|assumption].
Qed.

Lemma contentVisitor_keeps (f : F) (args : ValidSearchFileContentInput) visit p rel stats :
  visitFile (contentVisitor args) = Some visit ->
  keeps (search_invariant f args) (visit p rel stats).
Proof.
  intros [= <-].
  apply keeps_bind; [apply keeps_gets|intro results0].
  destruct (number_ge _ _); [apply keeps_ret|].
  apply keeps_try_catch; [|intro; apply keeps_ret].
  apply keeps_bind; [intros [results w] H; exact H|intro isBinary].
  destruct isBinary; [apply keeps_ret|].
  apply keeps_readFileOptimized.
  intros w w1 r results Hfs Hread Hall.
  pose proof (readFileOptimized_fs p w) as Hfs'. rewrite Hread in Hfs'. simpl in Hfs'.
  destruct r as [path size content mtime|path err];
    [|split; simpl; [congruence|assumption]].
  destruct (String.eqb content ""); [split; simpl; [congruence|assumption]|].
  destruct (fileMatches _ _ p rel content) as [found|] eqn:Hfound;
    [|split; simpl; [congruence|assumption]].
  split; simpl; [congruence|].
  apply Forall_app. split; [assumption|]. constructor; [|constructor].
  destruct (fileMatches_describes _ _ _ _ _ _ Hfound) as [Hpath Hdesc].
  exists content. split; [|exact Hdesc].
  rewrite Hpath. exists w, w1, path, size, mtime. by split.
Qed.

(** [search_file_content] collects, for every state it is run in, a list
    of per-file results, and each of them was computed from a content that
    the file layer returned for its file, which may be a cached one: that
    content has at least one line that contains the search term,
    [matches] holds its first five matching lines in line order (so at
    most five), and [total_matches] is the number of all matching lines. *)
Lemma searchFileContent_matches (args : ValidSearchFileContentInput) (w : world F) :
  exists results w',
    searchFileContent args w = (Ok results, w')
    /\ Forall
         (fun r =>
            exists content,
              read_as (w_fs w) (fm_file_path r) content
              /\ let matching := matchesOf (search_term args) (case_sensitive args) content in
                 (0 < List.length matching)%nat
                 /\ fm_matches r = firstn 5 matching
                 /\ (List.length (fm_matches r) <= 5)%nat
                 /\ fm_total_matches r = Z.of_nat (List.length matching)
                 /\ List.length matching
                    = List.length
                        (matching_lines (search_term args) (case_sensitive args) content))
         results.
Proof.
  unfold searchFileContent.
  destruct (traverseDirectory_returns (contentVisitor args) (directory_path args) ([], w))
    as [[results w'] Hrun].
  exists results, w'. rewrite Hrun. split; [reflexivity|].
  assert (Hinv : search_invariant (w_fs w) args (results, w')).
  { assert (Hkeeps : keeps (search_invariant (w_fs w) args)
                       (traverseDirectory (directory_path args) (contentVisitor args))).
    { apply traverseDirectory_keeps.
      - intros visit p rel stats. apply contentVisitor_keeps.
      - intros visit p rel H. discriminate H. }
    specialize (Hkeeps ([], w)). rewrite Hrun in Hkeeps. apply Hkeeps.
    split; [reflexivity|constructor]. }
  exact (proj2 Hinv).
Qed.

End Search.

(** C10: a file that holds no matching line is reported.  The project tree
    is searched for ["alpha"], which caches [/project/a.txt]; the file is
    then rewritten on disk with ["omega"], a text of the same size; one
    minute later, within the time to live, the same search still reports
    [/project/a.txt] with the line ["alpha"], although no line of the file
    contains the term.  The same search on the same file system without
    the cache entry reports nothing. *)
Theorem searchFileContent_reports_stale_match :
  fs_readFile "/project/a.txt" (w_fs Fixtures.stale_world) = Ok "omega"
  /\ matching_lines "alpha" false "omega" = []
  /\ fst (searchFileContent (rt := Fixtures.runtime) Fixtures.alpha_args Fixtures.stale_world)
     = Ok [{| fm_file_path := "/project/a.txt"; fm_relative_path := "a.txt";
              fm_matches := [{| line_number := 1; line_content := "alpha";
                                match_position := 0 |}];
              fm_total_matches := 1 |}]
  /\ fst (searchFileContent (rt := Fixtures.runtime) Fixtures.alpha_args
            (Fixtures.world_of (w_fs Fixtures.stale_world)))
     = Ok [].
Proof.
  split; [|split; [|split]]; vm_compute; reflexivity.
Qed.

End SearchFacts.

(** * Further properties of the code *)

(** ** The adaptive cache: lookups, eviction and accounting *)

Module CacheLaws.
Import Cache.

Lemma map_get_delete_neq (k k' : string) (m : jsmap) :
  k <> k' -> map_get k (map_delete k' m) = map_get k m.
Proof.
  intros Hne. induction m as [|[k0 e] m IH]; simpl; [reflexivity|].
  destruct (String.eqb k' k0) eqn:E0; simpl.
  - apply String.eqb_eq in E0. subst k0.
    destruct (String.eqb k k') eqn:E; [apply String.eqb_eq in E; contradiction|exact IH].
  - destruct (String.eqb k k0); [reflexivity|exact IH].
Qed.

Lemma map_get_set_neq (k k' : string) (v : entry) (m : jsmap) :
  k <> k' -> map_get k (map_set k' v m) = map_get k m.
Proof.
  intros Hne. induction m as [|[k0 e] m IH]; simpl.
  - destruct (String.eqb k k') eqn:E; [apply String.eqb_eq in E; contradiction|reflexivity].
  - destruct (String.eqb k' k0) eqn:E0; simpl.
    + apply String.eqb_eq in E0. subst k0.
      destruct (String.eqb k k') eqn:E; [apply String.eqb_eq in E; contradiction|reflexivity].
    + destruct (String.eqb k k0); [reflexivity|exact IH].
Qed.

Lemma map_get_None_notin (k : string) (m : jsmap) :
  map_get k m = None <-> ~ In k (List.map fst m).
Proof.
  induction m as [|[k0 e] m IH]; simpl.
  - split; [intros _ []|reflexivity].
  - destruct (String.eqb k k0) eqn:E.
    + apply String.eqb_eq in E. subst. split; [discriminate|intros H; exfalso; apply H; now left].
    + apply String.eqb_neq in E. rewrite IH. split.
      * intros H [H1|H1]; [congruence|contradiction].
      * intros H H1. apply H. now right.
Qed.

Lemma map_set_fresh (k : string) (v : entry) (m : jsmap) :
  ~ In k (List.map fst m) -> map_set k v m = m ++ [(k, v)].
Proof.
  induction m as [|[k0 e] m IH]; simpl; intros Hn; [reflexivity|].
  destruct (String.eqb k k0) eqn:E.
  - apply String.eqb_eq in E. subst. exfalso. apply Hn. now left.
  - rewrite IH; [reflexivity|]. intros H. apply Hn. now right.
Qed.

Lemma map_delete_fresh (k : string) (m : jsmap) :
  ~ In k (List.map fst m) -> map_delete k m = m.
Proof.
  induction m as [|[k0 e] m IH]; simpl; intros Hn; [reflexivity|].
  destruct (String.eqb k k0) eqn:E.
  - apply String.eqb_eq in E. subst. exfalso. apply Hn. now left.
  - rewrite IH; [reflexivity|]. intros H. apply Hn. now right.
Qed.

Lemma map_delete_notin (k : string) (m : jsmap) : ~ In k (List.map fst (map_delete k m)).
Proof. apply map_get_None_notin, CacheFacts.map_get_delete_eq. Qed.

Lemma map_delete_length (k : string) (m : jsmap) :
  (List.length (map_delete k m) <= List.length m)%nat.
Proof.
  induction m as [|[k0 e] m IH]; simpl; [lia|].
  destruct (String.eqb k k0); simpl; lia.
Qed.

Lemma map_set_length (k : string) (v : entry) (m : jsmap) :
  (List.length (map_set k v m) <= Datatypes.S (List.length m))%nat.
Proof.
  induction m as [|[k0 e] m IH]; simpl; [lia|].
  destruct (String.eqb k k0); simpl; lia.
Qed.

Lemma map_delete_keys_incl (k : string) (m : jsmap) :
  incl (List.map fst (map_delete k m)) (List.map fst m).
Proof.
  rewrite CacheFacts.map_delete_keys. intros x Hx. apply List.filter_In in Hx. tauto.
Qed.

Lemma delete_all_keys_incl (ks : list string) :
  forall c, incl (keys (delete_all ks c)) (keys c).
Proof.
  induction ks as [|k ks IH]; intros c; simpl; [apply incl_refl|].
  eapply incl_tran; [apply IH|]. apply map_delete_keys_incl.
Qed.

Lemma delete_all_maxSize (ks : list string) :
  forall c, maxSize (delete_all ks c) = maxSize c.
Proof. induction ks as [|k ks IH]; intros c; simpl; [reflexivity|]. now rewrite IH. Qed.

Lemma delete_all_ttl (ks : list string) :
  forall c, ttl (delete_all ks c) = ttl c.
Proof. induction ks as [|k ks IH]; intros c; simpl; [reflexivity|]. now rewrite IH. Qed.

Lemma cleanupBy_keys_incl (rank : entry -> Q) (c : AdaptiveFileCache) :
  incl (keys (cleanupBy rank c)) (keys c).
Proof.
  unfold cleanupBy. destruct (_ <=? _); [apply incl_refl|apply delete_all_keys_incl].
Qed.

Lemma cleanupBy_maxSize (rank : entry -> Q) (c : AdaptiveFileCache) :
  maxSize (cleanupBy rank c) = maxSize c.
Proof. unfold cleanupBy. destruct (_ <=? _); [reflexivity|apply delete_all_maxSize]. Qed.

(** X1: an entry older than the time to live is never served: [get]
    answers [null], removes the entry, and leaves every other key as it
    was. *)
Theorem get_expired_is_removed (now : Z) (p : string) (s t : Z)
    (c : AdaptiveFileCache) (e : entry) :
  map_get p (cache c) = Some e ->
  now - timestamp e > ttl c ->
  fst (get now p s t c) = None
  /\ map_get p (cache (snd (get now p s t c))) = None
  /\ (forall k, k <> p ->
        map_get k (cache (snd (get now p s t c))) = map_get k (cache c)).
Proof.
  intros Hget Hold. unfold get. rewrite Hget.
  assert ((now - timestamp e >? ttl c) = true) as -> by (rewrite Z.gtb_ltb; apply Z.ltb_lt; lia).
  simpl. repeat split.
  - apply CacheFacts.map_get_delete_eq.
  - intros k Hk. now apply map_get_delete_neq.
Qed.

Lemma get_expired_is_removed_witness :
  fst (get 400000 "/old.txt" 3 0 Fixtures.two_entries) = None
  /\ map_get "/old.txt" (cache (snd (get 400000 "/old.txt" 3 0 Fixtures.two_entries))) = None
  /\ (forall k, k <> "/old.txt" ->
        map_get k (cache (snd (get 400000 "/old.txt" 3 0 Fixtures.two_entries)))
        = map_get k (cache Fixtures.two_entries)).
Proof.
  apply (get_expired_is_removed 400000 "/old.txt" 3 0 Fixtures.two_entries Fixtures.old_entry).
  - reflexivity.
  - vm_compute. reflexivity.
Defined.

(** X2: a hit makes the entry the most recently used one: [get] returns
    the content, stamps the entry with the current time, counts the access,
    and moves the key behind all others, whose order is kept. *)
Theorem get_hit_moves_to_end (now : Z) (p : string) (s t : Z)
    (c : AdaptiveFileCache) (e : entry) :
  map_get p (cache c) = Some e ->
  now - timestamp e <= ttl c ->
  size e = s ->
  fst (get now p s t c) = Some (content e)
  /\ cache (snd (get now p s t c))
     = map_delete p (cache c)
       ++ [(p, {| content := content e; timestamp := now; size := size e;
                  accessCount := accessCount e + 1 |})]
  /\ totalMemoryUsage (snd (get now p s t c)) = totalMemoryUsage c.
Proof.
  intros Hget Hfresh Hsize. unfold get. rewrite Hget.
  assert ((now - timestamp e >? ttl c) = false) as -> by (rewrite Z.gtb_ltb; apply Z.ltb_ge; lia).
  assert ((size e =? s) = true) as -> by (apply Z.eqb_eq; exact Hsize).
  simpl. repeat split. apply map_set_fresh, map_delete_notin.
Qed.

Lemma get_hit_moves_to_end_witness :
  fst (get 2000 "/old.txt" 3 0 Fixtures.two_entries) = Some "old"
  /\ cache (snd (get 2000 "/old.txt" 3 0 Fixtures.two_entries))
     = map_delete "/old.txt" (cache Fixtures.two_entries)
       ++ [("/old.txt", {| content := "old"; timestamp := 2000; size := 3;
                           accessCount := 1 + 1 |})]
  /\ totalMemoryUsage (snd (get 2000 "/old.txt" 3 0 Fixtures.two_entries))
     = totalMemoryUsage Fixtures.two_entries.
Proof.
  apply (get_hit_moves_to_end 2000 "/old.txt" 3 0 Fixtures.two_entries Fixtures.old_entry).
  - reflexivity.
  - vm_compute. discriminate.
  - reflexivity.
Defined.


Lemma evictOldest_maxSize (rounds : nat) :
  forall c, maxSize (evictOldest rounds c) = maxSize c.
Proof.
  induction rounds as [|n IH]; intros c; simpl; [reflexivity|].
  destruct (_ >=? _); [|reflexivity].
  destruct (cache c) as [|[k e] m]; [reflexivity|].
  destruct (String.eqb k ""); [reflexivity|]. now rewrite IH.
Qed.

Lemma evictOldest_keys_incl (rounds : nat) :
  forall c, incl (keys (evictOldest rounds c)) (keys c).
Proof.
  induction rounds as [|n IH]; intros c; simpl; [apply incl_refl|].
  destruct (_ >=? _); [|apply incl_refl].
  destruct (cache c) as [|[k e] m] eqn:Hc; [apply incl_refl|].
  destruct (String.eqb k ""); [apply incl_refl|].
  eapply incl_tran; [apply IH|]. apply map_delete_keys_incl.
Qed.

(** The eviction loop of [set] ends below the capacity, when no key is
    the empty string. *)
Lemma evictOldest_makes_room (rounds : nat) :
  forall c,
    1 <= maxSize c ->
    ~ In "" (keys c) ->
    (List.length (cache c) <= rounds)%nat ->
    map_size (cache (evictOldest rounds c)) < maxSize c.
Proof.
  induction rounds as [|n IH]; intros c Hmax Hkeys Hlen.
  - simpl. unfold map_size. destruct (cache c); simpl in *; lia.
  - simpl. destruct (map_size (cache c) >=? maxSize c) eqn:Hfull.
    + destruct (cache c) as [|[k e] m] eqn:Hc.
      * unfold map_size. rewrite Hc. simpl. lia.
      * destruct (String.eqb k "") eqn:Ek.
        { apply String.eqb_eq in Ek. subst k. exfalso. apply Hkeys.
          unfold keys. rewrite Hc. now left. }
        assert (maxSize (delete k c) = maxSize c) as Hm by reflexivity.
        rewrite <- Hm. apply IH.
        -- now rewrite Hm.
        -- intros H. apply Hkeys. revert H. apply map_delete_keys_incl.
        -- simpl. rewrite Hc. simpl. rewrite String.eqb_refl.
           pose proof (map_delete_length k m). simpl in Hlen. lia.
    + rewrite Z.geb_leb in Hfull. apply Z.leb_gt in Hfull. exact Hfull.
Qed.

(** X3: the cache never grows past its capacity: after [set], for a
    capacity of at least one and keys that are not the empty string, it
    holds at most [maxSize] entries, whatever it held before. *)
Theorem set_within_capacity (cfg : AdaptiveFileConfig) (now : Z) (pressure : Q)
    (p text : string) (s : Z) (c : AdaptiveFileCache) :
  1 <= maxSize c ->
  ~ In "" (keys c) ->
  map_size (cache (set cfg now pressure p text s c)) <= maxSize c
  /\ maxSize (set cfg now pressure p text s c) = maxSize c
  /\ (p <> "" -> ~ In "" (keys (set cfg now pressure p text s c))).
Proof.
  intros Hmax Hkeys. unfold set.
  set (c1 := if Qgtb pressure (MEMORY_PRESSURE_THRESHOLD cfg)
             then emergencyCleanup now c else c).
  assert (maxSize c1 = maxSize c) as Hm1.
  { unfold c1. destruct (Qgtb _ _); [apply cleanupBy_maxSize|reflexivity]. }
  assert (incl (keys c1) (keys c)) as Hk1.
  { unfold c1. destruct (Qgtb _ _); [apply cleanupBy_keys_incl|apply incl_refl]. }
  set (c2 := evictOldest (List.length (cache c1)) c1).
  assert (maxSize c2 = maxSize c) as Hm2 by (unfold c2; now rewrite evictOldest_maxSize).
  assert (~ In "" (keys c2)) as Hk2.
  { intros H. apply Hkeys, Hk1. revert H. apply evictOldest_keys_incl. }
  assert (map_size (cache c2) < maxSize c) as Hroom.
  { rewrite <- Hm1. apply evictOldest_makes_room; [lia| |lia].
    intros H. apply Hkeys, Hk1, H. }
  destruct (_ && _); simpl.
  - repeat split; [lia|exact Hm2|intros _; exact Hk2].
  - repeat split; [|exact Hm2|].
    + pose proof (map_set_length p
        {| content := text; timestamp := now; size := s; accessCount := 1 |} (cache c2)).
      unfold map_size in *. lia.
    + intros Hp. unfold keys. simpl. rewrite CacheFacts.map_set_keys.
      destruct (existsb _ _); [exact Hk2|].
      intros H. apply in_app_or in H. destruct H as [H|[H|[]]]; [now apply Hk2|congruence].
Qed.

Lemma set_within_capacity_witness :
  map_size (cache (set Fixtures.config 1000 (1 # 2) "/third.txt" "3" 1 Fixtures.two_entries))
  <= maxSize Fixtures.two_entries
  /\ maxSize (set Fixtures.config 1000 (1 # 2) "/third.txt" "3" 1 Fixtures.two_entries)
     = maxSize Fixtures.two_entries
  /\ ("/third.txt" <> "" ->
      ~ In "" (keys (set Fixtures.config 1000 (1 # 2) "/third.txt" "3" 1
                       Fixtures.two_entries))).
Proof.
  apply (set_within_capacity Fixtures.config 1000 (1 # 2) "/third.txt" "3" 1
           Fixtures.two_entries).
  - vm_compute. discriminate.
  - simpl. intros [H|[H|[]]]; discriminate.
Defined.

(** X4: a full cache evicts in order of last use: [set] of a key that is
    not among the later entries drops the first entry of the map, and
    only that one, and puts the new entry last. *)
Theorem set_full_evicts_first (cfg : AdaptiveFileConfig) (now : Z) (pressure : Q)
    (p text : string) (s : Z) (c : AdaptiveFileCache)
    (k : string) (e : entry) (rest : jsmap) :
  cache c = (k, e) :: rest ->
  List.NoDup (keys c) ->
  k <> "" ->
  map_size (cache c) = maxSize c ->
  (pressure <= MEMORY_PRESSURE_THRESHOLD cfg)%Q ->
  (pressure <= 6 # 10)%Q ->
  ~ In p (List.map fst rest) ->
  cache (set cfg now pressure p text s c)
  = rest ++ [(p, {| content := text; timestamp := now; size := s; accessCount := 1 |})].
Proof.
  intros Hc Hnd Hk Hfull Hp1 Hp2 Hnew. unfold set.
  rewrite (CacheFacts.Qgtb_false _ _ Hp1), (CacheFacts.Qgtb_false _ _ Hp2), andb_false_r.
  assert (evictOldest (List.length (cache c)) c = delete k c) as ->.
  { rewrite Hc at 1. simpl.
    assert ((map_size (cache c) >=? maxSize c) = true) as ->
      by (rewrite Z.geb_leb; apply Z.leb_le; lia).
    rewrite Hc. apply String.eqb_neq in Hk. rewrite Hk.
    apply CacheFacts.evictOldest_below. simpl. rewrite Hc. simpl. rewrite String.eqb_refl.
    pose proof (map_delete_length k rest). unfold map_size in *. rewrite Hc in Hfull.
    simpl in Hfull. lia. }
  simpl. rewrite Hc. simpl. rewrite String.eqb_refl.
  unfold keys in Hnd. rewrite Hc in Hnd. simpl in Hnd. inversion Hnd as [|? ? Hnotin _]; subst.
  rewrite (map_delete_fresh k rest Hnotin). now apply map_set_fresh.
Qed.

Lemma set_full_evicts_first_witness :
  cache (set Fixtures.config 1000 (1 # 2) "/third.txt" "3" 1 Fixtures.two_entries)
  = [("/new.txt", Fixtures.recent_entry)]
    ++ [("/third.txt", {| content := "3"; timestamp := 1000; size := 1; accessCount := 1 |})].
Proof.
  apply (set_full_evicts_first Fixtures.config 1000 (1 # 2) "/third.txt" "3" 1
           Fixtures.two_entries "/old.txt" Fixtures.old_entry).
  - reflexivity.
  - repeat constructor; simpl; intuition discriminate.
  - discriminate.
  - reflexivity.
  - vm_compute. discriminate.
  - vm_compute. discriminate.
  - simpl. intros [H|[]]. discriminate.
Defined.


Lemma fold_map_delete (ks : list string) :
  forall m : jsmap,
    List.fold_left (fun m k => map_delete k m) ks m
    = List.filter (fun kv => negb (existsb (String.eqb (fst kv)) ks)) m.
Proof.
  induction ks as [|k ks IH]; intros m; simpl.
  - induction m as [|kv m IHm]; simpl; [reflexivity|]. now rewrite <- IHm.
  - rewrite IH. induction m as [|[k0 e] m IHm]; simpl; [reflexivity|].
    rewrite (String.eqb_sym k0 k).
    destruct (String.eqb k k0); simpl; [exact IHm|].
    destruct (existsb _ ks); simpl; [exact IHm|]. now rewrite IHm.
Qed.

Lemma filter_agree {A} (f g : A -> bool) (l : list A) :
  (forall a, In a l -> f a = g a) -> List.filter f l = List.filter g l.
Proof.
  induction l as [|a l IH]; simpl; intros H; [reflexivity|].
  rewrite (H a) by now left. rewrite IH; [reflexivity|]. intros b Hb. apply H. now right.
Qed.

Lemma unique_value (m : jsmap) (k : string) (e e' : entry) :
  List.NoDup (List.map fst m) -> In (k, e) m -> In (k, e') m -> e = e'.
Proof.
  induction m as [|[k0 e0] m IH]; simpl; intros Hnd H1 H2; [contradiction|].
  inversion Hnd as [|? ? Hnotin Hnd']; subst.
  destruct H1 as [H1|H1], H2 as [H2|H2].
  - congruence.
  - inversion H1; subst. exfalso. apply Hnotin. apply (in_map fst) in H2. exact H2.
  - inversion H2; subst. exfalso. apply Hnotin. apply (in_map fst) in H1. exact H1.
  - now apply IH.
Qed.

(** X5: [cleanupExpired] removes the entries older than the time to live
    and nothing else: what is left is the entries within it, in their
    order. *)
Theorem cleanupExpired_keeps_fresh (now : Z) (c : AdaptiveFileCache) :
  List.NoDup (keys c) ->
  cache (cleanupExpired now c)
  = List.filter (fun kv => now - timestamp (snd kv) <=? ttl c) (cache c)
  /\ maxSize (cleanupExpired now c) = maxSize c
  /\ ttl (cleanupExpired now c) = ttl c.
Proof.
  intros Hnd. unfold cleanupExpired. rewrite delete_all_maxSize, delete_all_ttl.
  split; [|split; reflexivity].
  rewrite CacheFacts.delete_all_cache, fold_map_delete.
  apply filter_agree. intros [k e] Hin. simpl.
  destruct (existsb _ _) eqn:Hex.
  - apply existsb_exists in Hex. destruct Hex as (k' & Hk' & Heq).
    apply String.eqb_eq in Heq. subst k'.
    apply in_map_iff in Hk'. destruct Hk' as ([k1 e1] & Hfst & Hf). simpl in Hfst. subst k1.
    apply List.filter_In in Hf. destruct Hf as [Hin1 Hexp]. simpl in Hexp.
    assert (e = e1) as -> by (eapply unique_value; eauto).
    simpl. symmetry. rewrite Z.gtb_ltb in Hexp. apply Z.ltb_lt in Hexp.
    apply Z.leb_gt. exact Hexp.
  - simpl. symmetry. apply Z.leb_le.
    destruct (Z.le_gt_cases (now - timestamp e) (ttl c)) as [H|H]; [exact H|].
    exfalso. assert (existsb (String.eqb k)
      (List.map fst (List.filter (fun kv => now - timestamp (snd kv) >? ttl c) (cache c)))
      = true) as Hyes.
    { apply existsb_exists. exists k. split; [|apply String.eqb_refl].
      apply in_map_iff. exists (k, e). split; [reflexivity|].
      apply List.filter_In. split; [exact Hin|]. simpl.
      rewrite Z.gtb_ltb. apply Z.ltb_lt. lia. }
    congruence.
Qed.

Lemma cleanupExpired_keeps_fresh_witness :
  cache (cleanupExpired 300500 Fixtures.two_entries)
  = List.filter (fun kv => 300500 - timestamp (snd kv) <=? ttl Fixtures.two_entries)
      (cache Fixtures.two_entries)
  /\ maxSize (cleanupExpired 300500 Fixtures.two_entries) = maxSize Fixtures.two_entries
  /\ ttl (cleanupExpired 300500 Fixtures.two_entries) = ttl Fixtures.two_entries.
Proof.
  apply (cleanupExpired_keeps_fresh 300500 Fixtures.two_entries).
  repeat constructor; simpl; intuition discriminate.
Defined.

Lemma Qmin2_le_l (a b : Q) : (Qmin2 a b <= a)%Q.
Proof.
  unfold Qmin2. destruct (Qle_bool a b) eqn:E; [apply Qle_refl|].
  destruct (Qlt_le_dec b a) as [H|H]; [now apply Qlt_le_weak|].
  apply Qle_bool_iff in H. congruence.
Qed.

Lemma Qmin2_le_r (a b : Q) : (Qmin2 a b <= b)%Q.
Proof.
  unfold Qmin2. destruct (Qle_bool a b) eqn:E; [now apply Qle_bool_iff|apply Qle_refl].
Qed.

(** X6: whatever the memory readings, the adaptive configuration stays
    within fixed bounds: 10 to 200 cache entries, files of at most 100 MB
    and at most a tenth of the total memory, a time to live of 2, 5 or 10
    minutes, and chunks of 32, 64 or 128 KB. *)
Theorem getAdaptiveConfig_bounds (totalMemory freeMemory : Z) :
  let cfg := getAdaptiveConfig totalMemory freeMemory in
  10 <= CACHE_SIZE cfg <= 200
  /\ (MAX_FILE_SIZE cfg <= inject_Z (100 * 1024 * 1024))%Q
  /\ (MAX_FILE_SIZE cfg <= inject_Z totalMemory * (1 # 10))%Q
  /\ In (CACHE_TTL cfg) [2 * 60 * 1000; 5 * 60 * 1000; 10 * 60 * 1000]
  /\ In (CHUNK_SIZE cfg) [32 * 1024; 64 * 1024; 128 * 1024]
  /\ (FUZZY_SEARCH_THRESHOLD cfg == 3 # 10)%Q
  /\ MAX_SEARCH_DEPTH cfg = 8
  /\ (MEMORY_PRESSURE_THRESHOLD cfg == 8 # 10)%Q.
Proof.
  cbv zeta. unfold getAdaptiveConfig.
  cbn [CACHE_SIZE MAX_FILE_SIZE CACHE_TTL CHUNK_SIZE FUZZY_SEARCH_THRESHOLD
       MAX_SEARCH_DEPTH MEMORY_PRESSURE_THRESHOLD].
  split; [lia|]. split.
  { unfold Qmin3. eapply Qle_trans; [apply Qmin2_le_r|apply Qmin2_le_l]. }
  split; [apply Qmin2_le_l|]. split.
  { destruct (Qgtb _ _); [now left|]. destruct (Qgtb _ _); [right; now left|right; right; now left]. }
  split.
  { destruct (_ >? _); [right; right; now left|].
    destruct (_ >? _); [right; now left|now left]. }
  repeat split; reflexivity.
Qed.


Lemma len_nonneg (s : string) : 0 <= Str.len s.
Proof. unfold Str.len. lia. Qed.

Lemma bytes_app (m1 m2 : jsmap) : bytes (m1 ++ m2) = bytes m1 + bytes m2.
Proof. induction m1 as [|kv m1 IH]; simpl; [reflexivity|]. rewrite IH. lia. Qed.

Lemma bytes_delete (k : string) (m : jsmap) :
  List.NoDup (List.map fst m) ->
  bytes (map_delete k m)
  = bytes m - match map_get k m with Some e => Str.len (content e) | None => 0 end.
Proof.
  induction m as [|[k0 e] m IH]; simpl; intros Hnd; [reflexivity|].
  inversion Hnd as [|? ? Hnotin Hnd']; subst.
  destruct (String.eqb k k0) eqn:E.
  - apply String.eqb_eq in E. subst k0. rewrite (map_delete_fresh k m Hnotin). lia.
  - simpl. rewrite (IH Hnd'). lia.
Qed.

Lemma bytes_set (k : string) (v : entry) (m : jsmap) :
  bytes (map_set k v m) <= bytes m + Str.len (content v).
Proof.
  induction m as [|[k0 e] m IH]; simpl; [lia|].
  destruct (String.eqb k k0); simpl; [pose proof (len_nonneg (content e)); lia|lia].
Qed.

(** [delete] keeps the difference between the running total and the
    content held, and so does every cleanup; [set] can only widen it. *)
Lemma gap_delete (k : string) (c : AdaptiveFileCache) :
  List.NoDup (keys c) -> gap (delete k c) = gap c.
Proof.
  intros Hnd. unfold gap, cachedBytes, delete. simpl.
  rewrite (bytes_delete k (cache c) Hnd). destruct (map_get k (cache c)); lia.
Qed.

Lemma gap_delete_all (ks : list string) :
  forall c, List.NoDup (keys c) -> gap (delete_all ks c) = gap c.
Proof.
  induction ks as [|k ks IH]; intros c Hnd; simpl; [reflexivity|].
  rewrite IH by now apply CacheFacts.delete_unique. now apply gap_delete.
Qed.

Lemma gap_cleanupBy (rank : entry -> Q) (c : AdaptiveFileCache) :
  List.NoDup (keys c) -> gap (cleanupBy rank c) = gap c.
Proof.
  intros Hnd. unfold cleanupBy. destruct (_ <=? _); [reflexivity|now apply gap_delete_all].
Qed.

Lemma gap_evictOldest (rounds : nat) :
  forall c, List.NoDup (keys c) -> gap (evictOldest rounds c) = gap c.
Proof.
  induction rounds as [|n IH]; intros c Hnd; simpl; [reflexivity|].
  destruct (_ >=? _); [|reflexivity].
  destruct (cache c) as [|[k e] m] eqn:Hc; [reflexivity|].
  destruct (String.eqb k ""); [reflexivity|].
  rewrite IH by now apply CacheFacts.delete_unique. now apply gap_delete.
Qed.

(** X7: the memory usage that [getStats] reports never falls short of
    the bytes of content the cache holds, across [set], [get], [delete],
    [clear] and both cleanups; it is the running total of the sizes added,
    less those removed. *)
Theorem memoryUsage_covers_content (cfg : AdaptiveFileConfig) (totalMemory freeMemory : Z)
    (now : Z) (pressure : Q) (p text : string) (s t : Z) (c : AdaptiveFileCache) :
  List.NoDup (keys c) ->
  cachedBytes c <= totalMemoryUsage c ->
  let covers c' :=
    cachedBytes c' <= stats_memoryUsage (getStats cfg totalMemory freeMemory c') in
  covers (set cfg now pressure p text s c)
  /\ covers (snd (get now p s t c))
  /\ covers (delete p c)
  /\ covers (clear c)
  /\ covers (cleanupExpired now c)
  /\ covers (emergencyCleanup now c).
Proof.
  intros Hnd Hcov. cbv zeta. unfold getStats. cbn [stats_memoryUsage].
  assert (forall c', gap c' = gap c -> cachedBytes c' <= totalMemoryUsage c') as Hgap.
  { intros c' H. unfold gap in H. lia. }
  repeat split.
  - unfold set.
    set (c1 := if Qgtb pressure (MEMORY_PRESSURE_THRESHOLD cfg)
               then emergencyCleanup now c else c).
    assert (List.NoDup (keys c1) /\ gap c1 = gap c) as [Hnd1 Hg1].
    { unfold c1. destruct (Qgtb _ _); [|now split].
      split; [now apply CacheFacts.cleanupBy_unique|now apply gap_cleanupBy]. }
    set (c2 := evictOldest (List.length (cache c1)) c1).
    assert (gap c2 = gap c) as Hg2 by (unfold c2; now rewrite gap_evictOldest).
    destruct (_ && _); [now apply Hgap|].
    unfold cachedBytes. simpl.
    pose proof (bytes_set p {| content := text; timestamp := now; size := s;
                               accessCount := 1 |} (cache c2)) as Hset.
    pose proof (Hgap c2 Hg2) as H2. unfold cachedBytes in H2. simpl in Hset. lia.
  - unfold get. destruct (map_get p (cache c)) as [e|] eqn:Hget; [|exact Hcov].
    destruct (_ || _); simpl.
    + apply Hgap. now apply gap_delete.
    + unfold cachedBytes. simpl.
      rewrite (map_set_fresh p _ _ (map_delete_notin p (cache c))).
      rewrite bytes_app, (bytes_delete p (cache c) Hnd), Hget. simpl.
      unfold cachedBytes in Hcov. lia.
  - apply Hgap. now apply gap_delete.
  - unfold cachedBytes. simpl. lia.
  - apply Hgap. unfold cleanupExpired. now apply gap_delete_all.
  - apply Hgap. now apply gap_cleanupBy.
Qed.

Lemma memoryUsage_covers_content_witness :
  let covers c' :=
    cachedBytes c' <= stats_memoryUsage (getStats Fixtures.config 16 8 c') in
  covers (set Fixtures.config 1000 (1 # 2) "/new.txt" "newer" 5 Fixtures.two_entries)
  /\ covers (snd (get 1000 "/new.txt" 5 0 Fixtures.two_entries))
  /\ covers (delete "/new.txt" Fixtures.two_entries)
  /\ covers (clear Fixtures.two_entries)
  /\ covers (cleanupExpired 1000 Fixtures.two_entries)
  /\ covers (emergencyCleanup 1000 Fixtures.two_entries).
Proof.
  apply (memoryUsage_covers_content Fixtures.config 16 8 1000 (1 # 2) "/new.txt" "newer" 5 0
           Fixtures.two_entries).
  - repeat constructor; simpl; intuition discriminate.
  - vm_compute. discriminate.
Defined.


Lemma hitCount_bounds (m : jsmap) :
  forall acc,
    acc <= List.fold_left (fun acc kv => if accessCount (snd kv) >? 1 then acc + 1 else acc)
             m acc
        <= acc + Z.of_nat (List.length m).
Proof.
  induction m as [|kv m IH]; intros acc; simpl List.fold_left; simpl List.length; [lia|].
  destruct (accessCount (snd kv) >? 1).
  - specialize (IH (acc + 1)). lia.
  - specialize (IH acc). lia.
Qed.

Lemma Qdiv_unit_interval (a b : Z) :
  0 <= a <= b -> 0 < b -> (0 <= inject_Z a / inject_Z b <= 1)%Q.
Proof.
  intros Ha Hb.
  assert (inject_Z 0 < inject_Z b)%Q as Hb' by (rewrite <- Zlt_Qlt; exact Hb).
  split.
  - apply Qle_shift_div_l; [exact Hb'|]. rewrite Qmult_0_l.
    change (inject_Z 0 <= inject_Z a)%Q. rewrite <- Zle_Qle. lia.
  - apply Qle_shift_div_r; [exact Hb'|]. rewrite Qmult_1_l. rewrite <- Zle_Qle. lia.
Qed.

(** X8: the hit rate that [getEfficiencyMetrics] reports is a fraction
    between 0 and 1, and it is 0 for an empty cache. *)
Theorem hitRate_is_a_fraction (c : AdaptiveFileCache) :
  (0 <= hitRate (getEfficiencyMetrics c) <= 1)%Q
  /\ (cache c = [] -> hitRate (getEfficiencyMetrics c) = 0%Q).
Proof.
  unfold getEfficiencyMetrics. cbn [hitRate]. split.
  - destruct (map_size (cache c) >? 0) eqn:E; [|split; discriminate].
    rewrite Z.gtb_ltb in E. apply Z.ltb_lt in E.
    pose proof (hitCount_bounds (cache c) 0) as H.
    apply Qdiv_unit_interval; [|exact E]. unfold map_size. lia.
  - intros ->. reflexivity.
Qed.

End CacheLaws.
(** ** The file layer: distances, scores, reads and writes *)

Module FileLayerFacts.
Import FileOps.

Lemma length_list_ascii (s : string) :
  List.length (list_ascii_of_string s) = String.length s.
Proof. induction s as [|c s IH]; simpl; [reflexivity|]. now rewrite IH. Qed.

Lemma last_nth {A} (l : list A) (d : A) :
  List.last l d = List.nth (List.length l - 1) l d.
Proof.
  induction l as [|x l IH]; [reflexivity|].
  destruct l as [|y l]; [reflexivity|].
  change (List.last (x :: y :: l) d) with (List.last (y :: l) d). rewrite IH.
  simpl. now rewrite Nat.sub_0_r.
Qed.

Lemma fill_row_length (c1 : ascii) (str2 : list ascii) :
  forall (up_row : list Z) (diag left : Z),
    List.length up_row = List.length str2 ->
    List.length (fill_row c1 str2 up_row diag left) = List.length str2.
Proof.
  induction str2 as [|c2 str2 IH]; intros [|up up_row] diag left Hlen; simpl in *;
    try reflexivity; try discriminate.
  rewrite IH; [reflexivity|lia].
Qed.

Lemma next_row_length (str2 : list ascii) (prev : list Z) (c1 : ascii) :
  List.length prev = Datatypes.S (List.length str2) ->
  List.length (next_row str2 prev c1) = Datatypes.S (List.length str2).
Proof.
  destruct prev as [|d0 prev]; simpl; intros Hlen; [discriminate|].
  rewrite fill_row_length; [reflexivity|lia].
Qed.

Lemma fill_row_bounded (c1 : ascii) (str2 : list ascii) :
  forall (up_row : list Z) (diag left i j : Z),
    row_bounded i j up_row ->
    0 <= diag <= Z.max i (j - 1) ->
    0 <= left ->
    row_bounded (i + 1) j (fill_row c1 str2 up_row diag left).
Proof.
  induction str2 as [|c2 str2 IH]; intros [|up up_row] diag left i j Hup Hdiag Hleft k v Hk;
    simpl in Hk; try (destruct k; discriminate).
  pose proof (Hup 0%nat up eq_refl) as Hup0. simpl in Hup0.
  destruct k as [|k]; simpl in Hk.
  - inversion Hk; subst v. destruct (Ascii.eqb c1 c2); lia.
  - replace (j + Z.of_nat (Datatypes.S k)) with (j + 1 + Z.of_nat k) by lia.
    eapply IH; [| | |exact Hk].
    + intros k' v' Hk'. specialize (Hup (Datatypes.S k') v' Hk'). lia.
    + lia.
    + destruct (Ascii.eqb c1 c2); lia.
Qed.

Lemma next_row_bounded (str2 : list ascii) (prev : list Z) (c1 : ascii) (i : Z) :
  0 <= i -> row_bounded i 0 prev -> row_bounded (i + 1) 0 (next_row str2 prev c1).
Proof.
  intros Hi Hprev. destruct prev as [|d0 prev]; intros k v Hk; simpl in Hk.
  - destruct k; discriminate.
  - pose proof (Hprev 0%nat d0 eq_refl) as H0. simpl in H0.
    destruct k as [|k]; simpl in Hk.
    + inversion Hk; subst v. simpl. lia.
    + replace (0 + Z.of_nat (Datatypes.S k)) with (1 + Z.of_nat k) by lia.
      eapply (fill_row_bounded c1 str2 prev d0 (d0 + 1) i 1); [| | |exact Hk].
      * intros k' v' Hk'. specialize (Hprev (Datatypes.S k') v' Hk'). lia.
      * lia.
      * lia.
Qed.

Lemma first_row_nth (n : nat) (k : nat) (v : Z) :
  nth_error (List.map Z.of_nat (seq 0 n)) k = Some v -> v = Z.of_nat k.
Proof.
  intros H. rewrite nth_error_map in H.
  destruct (nth_error (seq 0 n) k) as [x|] eqn:E; [|discriminate].
  inversion H; subst v. f_equal.
  assert (k < n)%nat as Hk.
  { rewrite <- (length_seq n 0). apply nth_error_Some. congruence. }
  pose proof (nth_error_nth' (seq 0 n) 0%nat (n := k)) as H'.
  rewrite length_seq in H'. rewrite (H' Hk) in E. rewrite seq_nth in E by exact Hk.
  inversion E. reflexivity.
Qed.

Lemma rows_bounded (str2 : list ascii) (str1 : list ascii) :
  forall (row : list Z) (i : Z),
    0 <= i ->
    List.length row = Datatypes.S (List.length str2) ->
    row_bounded i 0 row ->
    let final := List.fold_left (next_row str2) str1 row in
    List.length final = Datatypes.S (List.length str2)
    /\ row_bounded (i + Z.of_nat (List.length str1)) 0 final.
Proof.
  induction str1 as [|c1 str1 IH]; intros row i Hi Hlen Hrow; simpl.
  - split; [exact Hlen|]. now rewrite Z.add_0_r.
  - destruct (IH (next_row str2 row c1) (i + 1)) as [H1 H2].
    + lia.
    + now apply next_row_length.
    + now apply next_row_bounded.
    + split; [exact H1|].
      replace (i + Z.of_nat (Datatypes.S (List.length str1)))
        with (i + 1 + Z.of_nat (List.length str1)) by lia.
      exact H2.
Qed.

Lemma levenshteinDistance_bounds (str1 str2 : string) :
  0 <= levenshteinDistance str1 str2 <= Z.max (Str.len str1) (Str.len str2).
Proof.
  unfold levenshteinDistance, Str.len.
  set (s1 := list_ascii_of_string str1). set (s2 := list_ascii_of_string str2).
  destruct (rows_bounded s2 s1 (List.map Z.of_nat (seq 0 (Datatypes.S (List.length s2)))) 0)
    as [Hlen Hb].
  - lia.
  - now rewrite length_map, length_seq.
  - intros k v Hk. apply first_row_nth in Hk. lia.
  - cbv zeta in Hlen, Hb. rewrite last_nth, Hlen.
    replace (Datatypes.S (List.length s2) - 1)%nat with (List.length s2) by lia.
    set (final := List.fold_left _ _ _) in *.
    assert (nth_error final (List.length s2) = Some (List.nth (List.length s2) final 0)) as Hn
      by (apply nth_error_nth'; lia).
    specialize (Hb _ _ Hn). unfold s1, s2 in Hb |- *.
    rewrite !length_list_ascii in Hb. rewrite !length_list_ascii. lia.
Qed.


(** Under equal characters the entry is the one up and to the left. *)
Lemma fill_row_diagonal (c1 : ascii) (str2 : list ascii) :
  forall (up_row : list Z) (diag left : Z) (k : nat),
    List.length up_row = List.length str2 ->
    nth_error str2 k = Some c1 ->
    nth_error (fill_row c1 str2 up_row diag left) k = nth_error (diag :: up_row) k.
Proof.
  induction str2 as [|c2 str2 IH]; intros [|up up_row] diag left k Hlen Hk; simpl in *;
    try discriminate; try (destruct k; discriminate).
  destruct k as [|k]; simpl in *.
  - inversion Hk; subst c2. now rewrite Ascii.eqb_refl.
  - rewrite IH; [reflexivity|lia|exact Hk].
Qed.

Lemma next_row_diagonal (str2 : list ascii) (prev : list Z) (c1 : ascii) (k : nat) :
  List.length prev = Datatypes.S (List.length str2) ->
  nth_error str2 k = Some c1 ->
  nth_error (next_row str2 prev c1) (Datatypes.S k) = nth_error prev k.
Proof.
  destruct prev as [|d0 prev]; simpl; intros Hlen Hk; [discriminate|].
  apply fill_row_diagonal; [lia|exact Hk].
Qed.

Lemma rows_diagonal (str2 : list ascii) (rest : list ascii) :
  forall (done : list ascii) (row : list Z),
    str2 = done ++ rest ->
    List.length row = Datatypes.S (List.length str2) ->
    nth_error row (List.length done) = Some 0 ->
    List.last (List.fold_left (next_row str2) rest row) 0 = 0.
Proof.
  induction rest as [|c rest IH]; intros done row Hs Hlen Hrow; simpl.
  - rewrite app_nil_r in Hs. subst done. rewrite last_nth, Hlen.
    replace (Datatypes.S (List.length str2) - 1)%nat with (List.length str2) by lia.
    now apply nth_error_nth.
  - apply (IH (done ++ [c])).
    + now rewrite <- app_assoc.
    + now apply next_row_length.
    + rewrite length_app. simpl. rewrite Nat.add_1_r.
      rewrite next_row_diagonal; [exact Hrow|exact Hlen|].
      rewrite Hs, nth_error_app2, Nat.sub_diag by lia. reflexivity.
Qed.

Lemma levenshteinDistance_same (str : string) : levenshteinDistance str str = 0.
Proof.
  unfold levenshteinDistance.
  apply (rows_diagonal _ _ []); [reflexivity|now rewrite length_map, length_seq|reflexivity].
Qed.

Lemma levenshteinDistance_to_empty (str : string) :
  levenshteinDistance str "" = Str.len str.
Proof.
  unfold levenshteinDistance, Str.len. rewrite <- length_list_ascii. simpl.
  assert (forall l d, List.fold_left (next_row []) l [d] = [d + Z.of_nat (List.length l)]) as H.
  { induction l as [|c l IH]; intros d; simpl; [now rewrite Z.add_0_r|].
    rewrite IH. f_equal. lia. }
  now rewrite H.
Qed.

Lemma last_first_row (n : nat) :
  List.last (List.map Z.of_nat (seq 0 (Datatypes.S n))) 0 = Z.of_nat n.
Proof.
  rewrite last_nth, length_map, length_seq.
  replace (Datatypes.S n - 1)%nat with n by lia.
  rewrite (nth_indep _ 0 (Z.of_nat 0)) by (rewrite length_map, length_seq; lia).
  rewrite map_nth, seq_nth by lia. reflexivity.
Qed.

Lemma levenshteinDistance_from_empty (str : string) :
  levenshteinDistance "" str = Str.len str.
Proof.
  unfold levenshteinDistance, Str.len. rewrite <- length_list_ascii.
  exact (last_first_row _).
Qed.

(** X9: [levenshteinDistance] is 0 between a string and itself, is the
    length of the other string when one is empty, and is never negative nor
    more than the length of the longer string. *)
Theorem levenshteinDistance_basics (str1 str2 : string) :
  0 <= levenshteinDistance str1 str2 <= Z.max (Str.len str1) (Str.len str2)
  /\ levenshteinDistance str1 str1 = 0
  /\ levenshteinDistance str1 "" = Str.len str1
  /\ levenshteinDistance "" str2 = Str.len str2.
Proof.
  split; [apply levenshteinDistance_bounds|].
  split; [apply levenshteinDistance_same|].
  split; [apply levenshteinDistance_to_empty|apply levenshteinDistance_from_empty].
Qed.

Lemma startsWith_length (s p : string) :
  Str.startsWith s p = true -> (String.length p <= String.length s)%nat.
Proof.
  revert s. induction p as [|a p IH]; intros [|b s] H; simpl in *; try lia; try discriminate.
  apply andb_prop in H. destruct H as [_ H]. apply IH in H. lia.
Qed.

Lemma indexOf_length (s sub : string) (n : nat) :
  Str.indexOf s sub = Some n -> (String.length sub <= String.length s)%nat.
Proof.
  revert n. induction s as [|c s IH]; intros n H; cbn [Str.indexOf] in H.
  - destruct (Str.startsWith "" sub) eqn:E; [|discriminate]. now apply startsWith_length in E.
  - destruct (Str.startsWith (String c s) sub) eqn:E.
    + now apply startsWith_length in E.
    + destruct (Str.indexOf s sub) as [m|] eqn:Em; [|discriminate].
      specialize (IH m eq_refl). simpl. lia.
Qed.

Lemma includes_length (s sub : string) :
  Str.includes s sub = true -> Str.len sub <= Str.len s.
Proof.
  unfold Str.includes, Str.len. destruct (Str.indexOf s sub) as [n|] eqn:E; [|discriminate].
  intros _. apply indexOf_length in E. lia.
Qed.

Lemma sequenceBonus_nonneg (t q : list ascii) : (0 <= sequenceBonus t q)%Q.
Proof.
  revert q. induction t as [|c t IH]; intros [|qc q]; simpl; try apply Qle_refl.
  destruct (Ascii.eqb c qc); [|apply IH].
  specialize (IH q). change 0%Q with (0 + 0)%Q. apply Qplus_le_compat; [discriminate|exact IH].
Qed.

Lemma boundaryBonus_nonneg (q t : string) : (0 <= boundaryBonus q t)%Q.
Proof. unfold boundaryBonus. destruct (existsb _ _); discriminate. Qed.

Lemma calculateFuzzyScore_bounds (query target : string) (caseSensitive : bool) :
  (0 <= calculateFuzzyScore query target caseSensitive <= 1)%Q.
Proof.
  unfold calculateFuzzyScore.
  set (q := fold_case caseSensitive query). set (t := fold_case caseSensitive target).
  destruct (String.eqb q t); [split; discriminate|].
  destruct (Str.includes t q) eqn:Hinc.
  - apply includes_length in Hinc.
    assert (0 <= Str.len q) by (unfold Str.len; lia).
    destruct (Z.eq_dec (Str.len t) 0) as [Ht|Ht].
    + rewrite Ht. assert (Str.len q = 0) as -> by lia. split; discriminate.
    + destruct (CacheLaws.Qdiv_unit_interval (Str.len q) (Str.len t)) as [H0 H1]; [lia|lia|].
      split.
      * apply Qmult_le_0_compat; [discriminate|exact H0].
      * apply Qle_trans with ((9 # 10) * 1)%Q; [|discriminate].
        apply Qmult_le_l; [reflexivity|exact H1].
  - destruct (Z.max (Str.len q) (Str.len t) =? 0) eqn:Hmax; [split; discriminate|].
    apply Z.eqb_neq in Hmax.
    pose proof (levenshteinDistance_bounds q t) as Hd.
    destruct (CacheLaws.Qdiv_unit_interval (levenshteinDistance q t)
                (Z.max (Str.len q) (Str.len t))) as [H0 H1]; [lia|unfold Str.len in *; lia|].
    pose proof (sequenceBonus_nonneg (list_ascii_of_string t) (list_ascii_of_string q)) as Hs.
    pose proof (boundaryBonus_nonneg q t) as Hb.
    set (d := (inject_Z (levenshteinDistance q t)
               / inject_Z (Z.max (Str.len q) (Str.len t)))%Q) in *.
    assert (0 <= 1 - d + sequenceBonus (list_ascii_of_string t) (list_ascii_of_string q)
                 + boundaryBonus q t)%Q as Hsum.
    { assert (0 <= 1 - d)%Q by (unfold Qminus; rewrite <- Qle_minus_iff; exact H1).
      change 0%Q with (0 + 0 + 0)%Q. repeat apply Qplus_le_compat; assumption. }
    split.
    + unfold Cache.Qmin2. destruct (Qle_bool 1 _); [discriminate|exact Hsum].
    + apply CacheLaws.Qmin2_le_l.
Qed.

(** X10: every score of [calculateFuzzyScore] lies between 0 and 1, for
    all queries and targets, case sensitive or not, and the score of any
    string against itself, the empty one included, is 1. *)
Theorem calculateFuzzyScore_in_unit_interval (query target : string) (caseSensitive : bool) :
  (0 <= calculateFuzzyScore query target caseSensitive <= 1)%Q
  /\ calculateFuzzyScore query query caseSensitive = 1%Q.
Proof.
  split; [apply calculateFuzzyScore_bounds|].
  unfold calculateFuzzyScore. now rewrite String.eqb_refl.
Qed.


Lemma len_append (a b : string) : Str.len (a +:+ b) = Str.len a + Str.len b.
Proof.
  unfold Str.len. induction a as [|c a IH]; simpl String.length; [reflexivity|]. lia.
Qed.

Lemma append_assoc (a b c : string) : (a +:+ b) +:+ c = a +:+ (b +:+ c).
Proof.
  induction a as [|x a IH]; [reflexivity|].
  change (String x ((a +:+ b) +:+ c) = String x (a +:+ (b +:+ c))). now rewrite IH.
Qed.

Lemma append_empty_r (a : string) : a +:+ "" = a.
Proof.
  induction a as [|x a IH]; [reflexivity|].
  change (String x (a +:+ "") = String x a). now rewrite IH.
Qed.

Section Layer.
Context {F : Type} {fsF : NodeFs F} {rt : Runtime}.

Lemma try_catch_tagged {S A} (m : M S A) (prefix p : string) (op : fileop) (s : S) (e : exn) :
  fst (try_catch m (fun error =>
                      throw (FileOperationErr (prefix +:+ getErrorMessage error) p op)) s)
  = Throw e ->
  exists cause, e = FileOperationErr (prefix +:+ getErrorMessage cause) p op.
Proof.
  unfold try_catch, throw. destruct (m s) as [[a|cause] s']; simpl; intros H; [discriminate|].
  exists cause. congruence.
Qed.

(** X11: the four operations of the file layer let no other exception
    out than a [FileOperationError]: whatever fails inside, the error
    thrown carries the resolved path, the kind of operation, and the
    message of the cause behind a fixed prefix. *)
Theorem file_layer_throws_tagged_errors (filePath content : string)
    (overwrite createBackup includeHidden : bool) (w : world F) (e : exn) :
  let resolvedPath := Path.resolve (w_cwd w) filePath in
  (fst (readFileOptimized filePath w) = Throw e ->
   exists cause,
     e = FileOperationErr ("Failed to read file: " +:+ getErrorMessage cause)
           resolvedPath OpRead)
  /\ (fst (writeFileOptimized filePath content overwrite createBackup w) = Throw e ->
      exists cause,
        e = FileOperationErr ("Failed to write file: " +:+ getErrorMessage cause)
              resolvedPath OpWrite)
  /\ (fst (listDirectoryOptimized filePath includeHidden w) = Throw e ->
      exists cause,
        e = FileOperationErr ("Failed to list directory: " +:+ getErrorMessage cause)
              resolvedPath OpList)
  /\ (fst (getFileInfoOptimized filePath w) = Throw e ->
      exists cause,
        e = FileOperationErr ("Failed to get file info: " +:+ getErrorMessage cause)
              resolvedPath OpStat).
Proof.
  cbv zeta. repeat split; intros H.
  - unfold readFileOptimized in H. unfold bind at 1, gets at 1 in H.
    now apply try_catch_tagged in H.
  - unfold writeFileOptimized in H. unfold bind at 1, gets at 1 in H.
    now apply try_catch_tagged in H.
  - unfold listDirectoryOptimized in H. unfold bind at 1, gets at 1 in H.
    now apply try_catch_tagged in H.
  - unfold getFileInfoOptimized in H. unfold bind at 1, gets at 1 in H.
    now apply try_catch_tagged in H.
Qed.


(** X12: a file that changes on disk without changing its size is not
    read again while its cache entry lives: after a first read has cached
    the content, a read within the time to live returns that content for
    any later state of the file system in which the file has the same
    size, whatever its modification time and content there. *)
Theorem readFileOptimized_serves_cached_content (filePath : string) (w : world F)
    (stats stats' : Stats) (text : string) (f' : F) (now' : Z) (pressure' : Q) :
  let resolvedPath := Path.resolve (w_cwd w) filePath in
  fs_stat resolvedPath (w_fs w) = Ok stats ->
  Cache.map_get resolvedPath (Cache.cache (w_cache w)) = None ->
  (inject_Z (st_size stats) <= Cache.MAX_FILE_SIZE (w_config w))%Q ->
  fs_readFile resolvedPath (w_fs w) = Ok text ->
  text <> "" ->
  Cache.map_size (Cache.cache (w_cache w)) < Cache.maxSize (w_cache w) ->
  (w_pressure w <= Cache.MEMORY_PRESSURE_THRESHOLD (w_config w))%Q ->
  (w_pressure w <= 6 # 10)%Q ->
  fs_stat resolvedPath f' = Ok stats' ->
  st_size stats' = st_size stats ->
  now' - w_now w <= Cache.ttl (w_cache w) ->
  exists w1 w2,
    readFileOptimized filePath w
    = (Ok (FileContentSuccess resolvedPath (st_size stats) text (st_mtime stats)), w1)
    /\ readFileOptimized filePath
         {| w_fs := f'; w_cache := w_cache w1; w_config := w_config w1;
            w_cwd := w_cwd w1; w_now := now'; w_pressure := pressure' |}
       = (Ok (FileContentSuccess resolvedPath (st_size stats') text (st_mtime stats')), w2).
Proof.
  intros resolvedPath Hstat Hmiss Hsmall Hread Htext Hroom Hp1 Hp2 Hstat' Hsize Hfresh.
  destruct (CacheFacts.set_stores (w_config w) (w_cache w) resolvedPath text (st_size stats)
              (w_now w) (w_pressure w) Hroom Hp1 Hp2) as [Hstored Httl].
  exists (set_cache (Cache.set (w_config w) (w_now w) (w_pressure w) resolvedPath text
                       (st_size stats) (w_cache w)) w).
  eexists. split.
  - unfold readFileOptimized, bind, try_catch, gets, fs_call, cache_get, cache_set, modify, ret.
    fold resolvedPath. rewrite Hstat. unfold Cache.get. rewrite Hmiss.
    simpl. rewrite (CacheFacts.Qgtb_false _ _ Hsmall). simpl. rewrite Hread.
    reflexivity.
  - unfold readFileOptimized, bind, try_catch, gets, fs_call, cache_get, ret.
    cbn [set_cache w_fs w_cache w_config w_now w_pressure w_cwd]. fold resolvedPath.
    rewrite Hstat'. unfold Cache.get. rewrite Hstored, Httl.
    cbn [Cache.timestamp Cache.size Cache.content].
    assert ((now' - w_now w >? Cache.ttl (w_cache w)) = false) as ->
      by (rewrite Z.gtb_ltb; apply Z.ltb_ge; lia).
    assert ((st_size stats =? st_size stats') = true) as -> by (apply Z.eqb_eq; lia).
    cbn [orb negb FileOps.truthy].
    assert (String.eqb text "" = false) as -> by now apply String.eqb_neq.
    reflexivity.
Qed.

Lemma fs_update_Ok (op : F -> result F) (w w' : world F) (u : unit) :
  fs_update op w = (Ok u, w') ->
  w_cache w' = w_cache w /\ w_cwd w' = w_cwd w /\ w_config w' = w_config w.
Proof.
  unfold fs_update. destruct (op (w_fs w)); intros H; inversion H; subst; now repeat split.
Qed.

(** What a successful [writeFileOptimized] leaves: the working directory
    and the configuration as they were, and no cache entry for the file. *)
Lemma writeFileOptimized_success_state (filePath text : string)
    (overwrite createBackup : bool) (w w1 : world F)
    (p : string) (size created modified : Z) (message : string) :
  writeFileOptimized filePath text overwrite createBackup w
  = (Ok (WriteFileSuccess p size created modified message), w1) ->
  p = Path.resolve (w_cwd w) filePath
  /\ w_cwd w1 = w_cwd w
  /\ w_config w1 = w_config w
  /\ Cache.map_get p (Cache.cache (w_cache w1)) = None.
Proof.
  unfold writeFileOptimized. unfold bind at 1, gets at 1.
  set (resolvedPath := Path.resolve (w_cwd w) filePath).
  unfold try_catch at 1.
  match goal with |- (let (r, s) := ?m w in _) = _ -> _ => destruct (m w) as [[r|e] s] eqn:Hrun end;
    [|unfold throw; discriminate].
  intros H. inversion H; subst; clear H.
  unfold bind at 1 in Hrun.
  match type of Hrun with (let (r, s) := ?m w in _) = _ =>
    assert (exists b, m w = (Ok b, w)) as [fileExists Hexists] end.
  { unfold try_catch, bind, fs_call, ret. destruct (fs_access _ _); eexists; reflexivity. }
  rewrite Hexists in Hrun.
  destruct (fileExists && negb overwrite); [unfold ret in Hrun; discriminate|].
  unfold bind at 1 in Hrun.
  match type of Hrun with (let (r, s) := ?m w in _) = _ =>
    destruct (m w) as [[u|e] wa] eqn:Ha end; [|discriminate].
  assert (w_cache wa = w_cache w /\ w_cwd wa = w_cwd w /\ w_config wa = w_config w)
    as (Hca & Hda & Hfa).
  { destruct (fileExists && createBackup).
    - unfold bind, gets in Ha. now apply fs_update_Ok in Ha.
    - unfold ret in Ha. inversion Ha. now repeat split. }
  unfold bind at 1 in Hrun.
  destruct (fs_update _ wa) as [[u1|e] wb] eqn:Hb; [|discriminate].
  apply fs_update_Ok in Hb. destruct Hb as (Hcb & Hdb & Hfb).
  unfold bind at 1 in Hrun.
  destruct (fs_update _ wb) as [[u2|e] wc] eqn:Hc; [|discriminate].
  apply fs_update_Ok in Hc. destruct Hc as (Hcc & Hdc & Hfc).
  unfold bind, cache_delete, modify, fs_call, ret in Hrun. simpl in Hrun.
  destruct (fs_stat resolvedPath (w_fs wc)) as [stats|e]; [|discriminate].
  inversion Hrun; subst. simpl.
  repeat split; try congruence. apply CacheFacts.map_get_delete_eq.
Qed.

(** X13: a successful write drops the cache entry of the file, so the
    read that follows returns what the file system holds now, never a
    content cached before the write. *)
Theorem read_after_write_is_fresh (filePath text text' : string)
    (overwrite createBackup : bool) (w w1 : world F)
    (p : string) (size created modified : Z) (message : string) (stats : Stats) :
  writeFileOptimized filePath text overwrite createBackup w
  = (Ok (WriteFileSuccess p size created modified message), w1) ->
  fs_stat p (w_fs w1) = Ok stats ->
  (inject_Z (st_size stats) <= Cache.MAX_FILE_SIZE (w_config w))%Q ->
  fs_readFile p (w_fs w1) = Ok text' ->
  Cache.map_get p (Cache.cache (w_cache w1)) = None
  /\ fst (readFileOptimized filePath w1)
     = Ok (FileContentSuccess p (st_size stats) text' (st_mtime stats)).
Proof.
  intros Hwrite Hstat Hsmall Hread.
  destruct (writeFileOptimized_success_state _ _ _ _ _ _ _ _ _ _ _ Hwrite)
    as (Hp & Hcwd & Hcfg & Hnone).
  split; [exact Hnone|].
  unfold readFileOptimized, bind, try_catch, gets, fs_call, cache_get, cache_set, modify, ret.
  rewrite Hcwd, <- Hp, Hstat. unfold Cache.get. rewrite Hnone. simpl.
  rewrite Hcfg, (CacheFacts.Qgtb_false _ _ Hsmall). simpl. rewrite Hread. reflexivity.
Qed.

Lemma consumeChunks_Ok (cfg : Cache.AdaptiveFileConfig) (memoryPressure : Q)
    (filePath : string) (ended : option string) (chunks : list string) :
  forall (acc : string) (totalSize : Z) (text : string),
    consumeChunks cfg memoryPressure filePath chunks ended acc totalSize = Ok text ->
    ended = None
    /\ text = acc +:+ List.fold_right String.append "" chunks
    /\ (chunks <> [] ->
        (memoryPressure <= Cache.MEMORY_PRESSURE_THRESHOLD cfg)%Q
        /\ (inject_Z (totalSize + Str.len (List.fold_right String.append "" chunks))
            <= Cache.MAX_FILE_SIZE cfg * 2)%Q).
Proof.
  induction chunks as [|chunk rest IH]; intros acc totalSize text H; simpl in H.
  - destruct ended; [discriminate|]. inversion H; subst.
    split; [reflexivity|]. split; [simpl; now rewrite append_empty_r|]. congruence.
  - destruct (Qgtb memoryPressure _) eqn:Hp; [discriminate|].
    destruct (Qgtb (inject_Z (totalSize + Str.len chunk)) _) eqn:Hs; [discriminate|].
    apply IH in H. destruct H as (Hend & Htext & Hrest).
    unfold Qgtb in Hp, Hs. apply negb_false_iff in Hp, Hs. apply Qle_bool_iff in Hp, Hs.
    split; [exact Hend|]. split.
    + rewrite Htext. simpl. apply append_assoc.
    + intros _. split; [exact Hp|].
      simpl. rewrite len_append. destruct rest as [|r rest'].
      * simpl. change (Str.len "") with 0. rewrite Z.add_0_r. exact Hs.
      * destruct Hrest as [_ Hrest]; [discriminate|].
        now rewrite Z.add_assoc.
Qed.

(** X14: when [streamLargeFile] returns, it returns the whole file: the
    stream ended without an error, the content is the chunks in their
    order, and, unless the file was empty, the memory pressure was within
    the threshold and the content is at most twice [MAX_FILE_SIZE] long.
    The state is not touched. *)
Theorem streamLargeFile_returns_all_chunks (filePath : string) (w w' : world F)
    (text : string) :
  streamLargeFile filePath w = (Ok text, w') ->
  let stream := fs_readStream filePath (Cache.CHUNK_SIZE (w_config w)) (w_fs w) in
  w' = w
  /\ snd stream = None
  /\ text = List.fold_right String.append "" (fst stream)
  /\ (fst stream <> [] ->
      (w_pressure w <= Cache.MEMORY_PRESSURE_THRESHOLD (w_config w))%Q
      /\ (inject_Z (Str.len text) <= Cache.MAX_FILE_SIZE (w_config w) * 2)%Q).
Proof.
  unfold streamLargeFile. destruct (fs_readStream _ _ _) as [chunks ended]. intros H.
  inversion H as [[Hrun Hw]]. subst w'. apply consumeChunks_Ok in Hrun.
  destruct Hrun as (Hend & Htext & Hrest). simpl.
  split; [reflexivity|]. split; [exact Hend|]. split; [exact Htext|].
  intros Hne. destruct (Hrest Hne) as [Hp Hs]. split; [exact Hp|].
  rewrite Htext. exact Hs.
Qed.

End Layer.

Lemma readFileOptimized_serves_cached_content_witness :
  exists w1 w2,
    readFileOptimized (rt := Fixtures.runtime) "a.txt" (Fixtures.world_of Fixtures.project_fs)
    = (Ok (FileContentSuccess "/project/a.txt" 5 "alpha" 11), w1)
    /\ readFileOptimized (rt := Fixtures.runtime) "a.txt"
         {| w_fs := Fixtures.edited_fs; w_cache := w_cache w1; w_config := w_config w1;
            w_cwd := w_cwd w1; w_now := 2000; w_pressure := 1 # 2 |}
       = (Ok (FileContentSuccess "/project/a.txt" 5 "alpha" 100), w2).
Proof.
  apply (readFileOptimized_serves_cached_content (rt := Fixtures.runtime) "a.txt"
           (Fixtures.world_of Fixtures.project_fs)
           (Fixtures.stats_of_file 5 11) (Fixtures.stats_of_file 5 100) "alpha"
           Fixtures.edited_fs 2000 (1 # 2)).
  - reflexivity.
  - reflexivity.
  - vm_compute. discriminate.
  - reflexivity.
  - discriminate.
  - reflexivity.
  - vm_compute. discriminate.
  - vm_compute. discriminate.
  - reflexivity.
  - reflexivity.
  - vm_compute. discriminate.
Defined.


Lemma read_after_write_is_fresh_witness :
  exists w1,
    writeFileOptimized (rt := Fixtures.runtime) "a.txt" "omega" true false
      (Fixtures.world_of Fixtures.project_fs)
    = (Ok (WriteFileSuccess "/project/a.txt" 5 100 100 "File overwritten successfully"), w1)
    /\ Cache.map_get "/project/a.txt" (Cache.cache (w_cache w1)) = None
    /\ fst (readFileOptimized (rt := Fixtures.runtime) "a.txt" w1)
       = Ok (FileContentSuccess "/project/a.txt" 5 "omega" 100).
Proof.
  exists (snd (writeFileOptimized (rt := Fixtures.runtime) "a.txt" "omega" true false
                 (Fixtures.world_of Fixtures.project_fs))).
  assert (writeFileOptimized (rt := Fixtures.runtime) "a.txt" "omega" true false
            (Fixtures.world_of Fixtures.project_fs)
          = (Ok (WriteFileSuccess "/project/a.txt" 5 100 100 "File overwritten successfully"),
             snd (writeFileOptimized (rt := Fixtures.runtime) "a.txt" "omega" true false
                    (Fixtures.world_of Fixtures.project_fs)))) as Hwrite
    by (vm_compute; reflexivity).
  split; [exact Hwrite|].
  apply (read_after_write_is_fresh (rt := Fixtures.runtime) "a.txt" "omega" "omega" true false
           (Fixtures.world_of Fixtures.project_fs) _ "/project/a.txt" 5 100 100
           "File overwritten successfully" (Fixtures.stats_of_file 5 100) Hwrite).
  - vm_compute. reflexivity.
  - vm_compute. discriminate.
  - vm_compute. reflexivity.
Defined.


Lemma streamLargeFile_returns_all_chunks_witness :
  let w := Fixtures.world_of Fixtures.project_fs in
  let stream := fs_readStream "/project/a.txt" (Cache.CHUNK_SIZE (w_config w)) (w_fs w) in
  w = w
  /\ snd stream = None
  /\ "alpha" = List.fold_right String.append "" (fst stream)
  /\ (fst stream <> [] ->
      (w_pressure w <= Cache.MEMORY_PRESSURE_THRESHOLD (w_config w))%Q
      /\ (inject_Z (Str.len "alpha") <= Cache.MAX_FILE_SIZE (w_config w) * 2)%Q).
Proof.
  apply (streamLargeFile_returns_all_chunks (rt := Fixtures.runtime) "/project/a.txt"
           (Fixtures.world_of Fixtures.project_fs) (Fixtures.world_of Fixtures.project_fs)
           "alpha").
  vm_compute. reflexivity.
Defined.

End FileLayerFacts.
(** ** Directory walks: what the visitor is shown, and what the searches
    collect *)

Module WalkFacts.
Import FileOps Validation Tools.

Section Eligible.
Context {F : Type} {fsF : NodeFs F} {S : Type}.
Variable visitor : DirectoryVisitor F S.
Variable I : S * world F -> Prop.

(** The calls the walk makes: the file visitor on an entry that is a
    file, is not hidden unless hidden entries are included, passes the
    extension filter, and comes with the [Stats] that [fs.stat] has just
    returned for its path; the directory visitor on an entry that is a
    directory and is not hidden. *)
Hypothesis visitFile_eligible :
  forall visit currentPath item rel stats sw,
    visitFile visitor = Some visit ->
    d_isFile item = true ->
    negb (effectiveIncludeHidden visitor) && Str.startsWith (d_name item) "." = false ->
    match fileExtensions visitor with
    | Some exts =>
        (0 <? Z.of_nat (List.length exts)) && negb (has exts (Path.extname (d_name item)))
    | None => false
    end = false ->
    fs_stat (Path.join currentPath (d_name item)) (w_fs (snd sw)) = Ok stats ->
    I sw ->
    I (snd (visit (Path.join currentPath (d_name item)) rel stats sw)).
Hypothesis visitDirectory_eligible :
  forall visit currentPath item rel sw,
    visitDirectory visitor = Some visit ->
    d_isFile item = false ->
    d_isDirectory item = true ->
    negb (effectiveIncludeHidden visitor) && Str.startsWith (d_name item) "." = false ->
    I sw ->
    I (snd (visit (Path.join currentPath (d_name item)) rel sw)).

Lemma visitFileEntry_eligible (currentPath : string) (item : Dirent) (rel : string) :
  d_isFile item = true ->
  negb (effectiveIncludeHidden visitor) && Str.startsWith (d_name item) "." = false ->
  keeps I (visitFileEntry visitor item (Path.join currentPath (d_name item)) rel).
Proof.
  intros Hfile Hshown [s w] HI. unfold visitFileEntry, try_catch.
  destruct (match fileExtensions visitor with Some _ => _ | None => _ end) eqn:Hext;
    [exact HI|].
  unfold bind at 1. unfold in_world, fs_call. cbn [fst snd].
  destruct (fs_stat _ (w_fs w)) as [stats|e] eqn:Hstat; [|exact HI].
  destruct (visitFile visitor) as [visit|] eqn:Hvisit; [|exact HI].
  unfold bind.
  pose proof (visitFile_eligible visit currentPath item rel stats (s, w) eq_refl Hfile Hshown
                Hext Hstat HI) as Hkept.
  destruct (visit _ rel stats (s, w)) as [[r|e] sw']; [|exact Hkept].
  destruct (is_false r); exact Hkept.
Qed.

Lemma eachItem_eligible (root : string) (descend : string -> M (S * world F) unit)
    (currentPath : string) :
  (forall p, keeps I (descend p)) ->
  forall items : list Dirent, keeps I (eachItem visitor root descend currentPath items).
Proof.
  intros Hdescend. induction items as [|item rest IH]; simpl; [apply SearchFacts.keeps_ret|].
  destruct (negb _ && _) eqn:Hshown; [exact IH|].
  destruct (d_isFile item) eqn:Hfile.
  - apply SearchFacts.keeps_bind; [now apply visitFileEntry_eligible|intros []];
      [exact IH|apply SearchFacts.keeps_ret].
  - destruct (d_isDirectory item) eqn:Hdir; [|exact IH].
    apply SearchFacts.keeps_bind.
    + destruct (visitDirectory visitor) as [visit|] eqn:Hvisit; [|apply SearchFacts.keeps_ret].
      intros sw HI. now apply (visitDirectory_eligible visit currentPath item _ sw eq_refl).
    + intro r. destruct (is_false r); [apply SearchFacts.keeps_ret|].
      apply SearchFacts.keeps_bind; [|intro; exact IH].
      destruct (match shouldEnterDirectory visitor with
                | Some enter => _
                | None => true
                end); [apply Hdescend|apply SearchFacts.keeps_ret].
Qed.

Lemma traverseRecursive_eligible (root : string) (fuel : nat) :
  forall (currentPath : string) (depth : Z),
    keeps I (traverseRecursive visitor root fuel currentPath depth).
Proof.
  induction fuel as [|fuel IH]; intros currentPath depth; simpl;
    destruct (Qgtb _ _); try apply SearchFacts.keeps_ret.
  apply SearchFacts.keeps_try_catch; [|intro; apply SearchFacts.keeps_ret].
  apply SearchFacts.keeps_bind; [apply SearchFacts.keeps_in_world_fs_call|intro items].
  apply eachItem_eligible. intro p. apply IH.
Qed.

(** X15: [traverseDirectory] shows its visitor eligible entries only.  A
    property of the state that the visitor keeps on such calls is kept by
    the whole walk, whether the walk stops early or a directory cannot be
    read. *)
Theorem traverseDirectory_shows_eligible_entries (rootPath : string) :
  keeps I (traverseDirectory rootPath visitor).
Proof.
  unfold traverseDirectory.
  apply SearchFacts.keeps_bind; [apply SearchFacts.keeps_gets|intro cwd].
  apply traverseRecursive_eligible.
Qed.

End Eligible.

(** The sizes recorded by a walk over the in-memory tree are those of
    visible [.txt] files, none of them negative. *)
Lemma traverseDirectory_shows_eligible_entries_witness :
  keeps (fun sw => Forall (fun size => 0 <= size) (fst sw)
                   /\ forall p stats, fs_stat p (w_fs (snd sw)) = Ok stats -> 0 <= st_size stats)
    (traverseDirectory "/project" Fixtures.size_visitor).
Proof.
  apply (traverseDirectory_shows_eligible_entries Fixtures.size_visitor).
  - intros visit currentPath item rel stats [sizes w] Hvisit _ _ _ Hstat [Hsizes Hfs].
    inversion Hvisit; subst visit. simpl in *. split; [|exact Hfs].
    apply Forall_app. split; [exact Hsizes|]. constructor; [|constructor]. eauto.
  - intros visit currentPath item rel sw Hvisit. discriminate.
Defined.


Lemma keeps_modify_fst {F S} (I : S * world F -> Prop) (f : S -> S) :
  (forall s w, I (s, w) -> I (f s, w)) ->
  keeps I (modify (fun sw : S * world F => (f (fst sw), snd sw))).
Proof. intros H [s w] HI. simpl. now apply H. Qed.

Lemma length_snoc_below {A} (l : list A) (x : A) (limit : Q) :
  Qgeb (inject_Z (Z.of_nat (List.length l))) limit = false ->
  (inject_Z (Z.of_nat (List.length (l ++ [x]))) < limit + 1)%Q.
Proof.
  unfold Qgeb. intros H.
  assert (inject_Z (Z.of_nat (List.length l)) < limit)%Q as Hlt.
  { apply Qnot_le_lt. intros Hle. apply Qle_bool_iff in Hle. congruence. }
  rewrite length_app. simpl. rewrite Nat.add_1_r, Nat2Z.inj_succ, <- Z.add_1_r, inject_Z_plus.
  apply Qplus_lt_l. exact Hlt.
Qed.

Section Searches.
Context {F : Type} {fsF : NodeFs F} {rt : Runtime}.

(** The invariant of a search that stops at [limit] results: the world is
    the one the search started in, and the results are none yet or fewer
    than [limit + 1]. *)
Lemma patternVisitor_bounded (test : string -> bool) (limit : Q)
    (exts : option (list string)) (dirs : bool) (w : world F) :
  let I := fun sw : list PatternResult * world F =>
             snd sw = w
             /\ (fst sw = []
                 \/ (inject_Z (Z.of_nat (List.length (fst sw))) < limit + 1)%Q) in
  (forall visit p rel stats,
     visitFile (patternVisitor test limit exts dirs) = Some visit ->
     keeps I (visit p rel stats))
  /\ (forall visit p rel,
        visitDirectory (patternVisitor test limit exts dirs) = Some visit ->
        keeps I (visit p rel)).
Proof.
  intros I. split.
  - intros visit p rel stats Hvisit. inversion Hvisit; subst visit. clear Hvisit.
    intros [results w0] [Hw Hb]. unfold bind, gets. cbn [fst snd].
    destruct (Qgeb _ limit) eqn:Hfull; [split; assumption|].
    destruct (test _); simpl; split; try assumption.
    right. now apply length_snoc_below.
  - intros visit p rel Hvisit. inversion Hvisit; subst visit. clear Hvisit.
    intros [results w0] [Hw Hb]. destruct dirs; simpl; [|split; assumption].
    unfold bind, gets. cbn [fst snd].
    destruct (Qgeb _ limit) eqn:Hfull; [split; assumption|].
    destruct (test _); simpl; [|split; assumption].
    unfold try_catch, bind, in_world, fs_call, modify, ret. cbn [fst snd].
    destruct (fs_stat p (w_fs w0)); simpl; split; try assumption.
    right. now apply length_snoc_below.
Qed.

(** X16: [searchFilesByPattern] throws only when the pattern is not a
    regular expression; otherwise it returns at most [maxResults] results
    (50 when the option is missing or 0), and leaves the file system and
    the cache as they were. *)
Theorem searchFilesByPattern_is_bounded (directoryPath pattern : string)
    (fileExtensions : option (list string)) (maxResults : option Q)
    (caseSensitive includeDirectories : option bool) (w : world F) :
  let limit := or_default maxResults 50 in
  let regexPattern := Str.replace_star pattern in
  match regex_compile regexPattern (negb (default false caseSensitive)) with
  | None =>
      exists e,
        searchFilesByPattern directoryPath pattern fileExtensions maxResults caseSensitive
          includeDirectories w
        = (Throw e, w)
  | Some _ =>
      exists results,
        searchFilesByPattern directoryPath pattern fileExtensions maxResults caseSensitive
          includeDirectories w
        = (Ok results, w)
        /\ (results = []
            \/ (inject_Z (Z.of_nat (List.length results)) < limit + 1)%Q)
  end.
Proof.
  cbv zeta. unfold searchFilesByPattern.
  destruct (regex_compile _ _) as [test|]; [|eexists; reflexivity].
  set (limit := or_default maxResults 50).
  set (visitor := patternVisitor test limit fileExtensions (default false includeDirectories)).
  destruct (SearchFacts.traverseDirectory_returns visitor directoryPath ([], w))
    as [[results w'] Hrun].
  destruct (patternVisitor_bounded test limit fileExtensions
              (default false includeDirectories) w) as [Hfile Hdir].
  pose proof (SearchFacts.traverseDirectory_keeps visitor _ directoryPath Hfile Hdir
                ([], w) (conj eq_refl (or_introl eq_refl))) as Hkept.
  rewrite Hrun in *. simpl in Hkept. destruct Hkept as [-> Hb].
  exists results. split; [reflexivity|exact Hb].
Qed.


(** One call of the visitor of [search_file_content] leaves the file
    system alone and adds at most one result, and none once the comparison
    with [max_results] holds. *)
Lemma contentVisitor_step (args : ValidSearchFileContentInput) visit p rel stats
    (results results' : list FileMatches) (w0 w' : world F) r :
  visitFile (contentVisitor args) = Some visit ->
  visit p rel stats (results, w0) = (r, (results', w')) ->
  w_fs w' = w_fs w0
  /\ (results' = results
      \/ exists found,
           results' = results ++ [found]
           /\ number_ge (inject_Z (Z.of_nat (List.length results))) (max_results args)
              = false).
Proof.
  intros Hvisit Hrun. inversion Hvisit; subst visit. clear Hvisit.
  unfold bind at 1, gets at 1 in Hrun. cbn [fst snd] in Hrun.
  destruct (number_ge _ (max_results args)) eqn:Hfull;
    [inversion Hrun; subst; split; [reflexivity|now left]|].
  unfold try_catch, bind, in_world, isBinaryAt, gets in Hrun. cbn [fst snd] in Hrun.
  destruct (isLikelyBinary _ _);
    [inversion Hrun; subst; split; [reflexivity|now left]|].
  cbv beta in Hrun. cbn [fst snd] in Hrun.
  pose proof (SearchFacts.readFileOptimized_fs p w0) as Hsame.
  destruct (readFileOptimized p w0) as [[[path size text mtime|path err]|e] w1];
    simpl in Hsame; cbn [fst snd ret] in Hrun;
    try (inversion Hrun; subst; split; [congruence|now left]).
  destruct (String.eqb text ""); cbn [fst snd ret] in Hrun;
    try (inversion Hrun; subst; split; [congruence|now left]).
  match type of Hrun with
  | context [fileMatches ?a ?b ?c ?d ?e] => destruct (fileMatches a b c d e) as [found|]
  end; cbn [fst snd ret modify] in Hrun;
    try (inversion Hrun; subst; split; [congruence|now left]).
  inversion Hrun; subst. split; [congruence|]. right. now exists found.
Qed.

(** X17: the walk of [search_file_content] always returns and does not
    change the file system; when [max_results] converts to a number, the
    walk reports no file or fewer than that number plus one.  A value
    that converts to [NaN] gives no bound: the comparison that stops the
    walk is then never true. *)
Theorem searchFileContent_is_bounded (args : ValidSearchFileContentInput) (w : world F) :
  exists results w',
    searchFileContent args w = (Ok results, w')
    /\ w_fs w' = w_fs w
    /\ (forall limit,
          max_results args = Some limit ->
          results = []
          \/ (inject_Z (Z.of_nat (List.length results)) < limit + 1)%Q).
Proof.
  unfold searchFileContent.
  destruct (SearchFacts.traverseDirectory_returns (contentVisitor args) (directory_path args)
              ([], w)) as [[results w'] Hrun].
  exists results, w'. rewrite Hrun. split; [reflexivity|].
  set (I := fun sw : list FileMatches * world F =>
              w_fs (snd sw) = w_fs w
              /\ (forall limit,
                    max_results args = Some limit ->
                    fst sw = []
                    \/ (inject_Z (Z.of_nat (List.length (fst sw))) < limit + 1)%Q)).
  assert (Hfile : forall visit p rel stats,
             visitFile (contentVisitor args) = Some visit -> keeps I (visit p rel stats)).
  { intros visit p rel stats Hvisit [results0 w0] [Hw Hb]. simpl in Hw, Hb.
    destruct (visit p rel stats (results0, w0)) as [r [results1 w1]] eqn:Hstep.
    destruct (contentVisitor_step args visit p rel stats _ _ _ _ _ Hvisit Hstep)
      as [Hfs Hres].
    split; simpl; [congruence|]. intros limit Hlimit.
    destruct Hres as [->|(found & -> & Hfull)]; [by apply Hb|].
    right. rewrite Hlimit in Hfull. apply length_snoc_below. exact Hfull. }
  pose proof (SearchFacts.traverseDirectory_keeps (contentVisitor args) I (directory_path args)
                Hfile ltac:(intros; discriminate) ([], w)) as Hkept.
  rewrite Hrun in Hkept. apply Hkept. split; [reflexivity|]. intros; by left.
Qed.


Lemma assoc_set_sum {A} (g : A -> Z) (k : string) (v : A) (m : list (string * A)) :
  List.fold_right Z.add 0 (List.map (fun kv => g (snd kv)) (assoc_set k v m))
  = List.fold_right Z.add 0 (List.map (fun kv => g (snd kv)) m)
    - match assoc_get k m with Some old => g old | None => 0 end
    + g v.
Proof.
  unfold assoc_get. induction m as [|[k' v'] m IH]; simpl; [lia|].
  rewrite (String.eqb_sym k' k). destruct (String.eqb k k'); simpl; [lia|].
  rewrite IH. lia.
Qed.

(** X18: the figures of [analyze_project] add up: every file counted is
    counted once as binary or as text and once under its extension, the
    sizes per extension sum to the total size, every file listed as large
    is larger than 1 MB, and the walk changes nothing in the world. *)
Theorem analyze_project_counts_add_up (project_path : string) (max_depth : Q)
    (w : world F) :
  let run := traverseDirectory project_path (analyzeVisitor max_depth) (emptyAnalysis, w) in
  let a := fst (snd run) in
  snd (snd run) = w
  /\ total_files a = binary_files a + text_files a
  /\ total_files a
     = List.fold_right Z.add 0 (List.map (fun kv => fst (snd kv)) (file_types a))
  /\ total_size a
     = List.fold_right Z.add 0 (List.map (fun kv => snd (snd kv)) (file_types a))
  /\ Forall (fun large => snd large > 1024 * 1024) (large_files a).
Proof.
  cbv zeta.
  set (I := fun sw : analysis * world F =>
              snd sw = w
              /\ total_files (fst sw) = binary_files (fst sw) + text_files (fst sw)
              /\ total_files (fst sw)
                 = List.fold_right Z.add 0
                     (List.map (fun kv => fst (snd kv)) (file_types (fst sw)))
              /\ total_size (fst sw)
                 = List.fold_right Z.add 0
                     (List.map (fun kv => snd (snd kv)) (file_types (fst sw)))
              /\ Forall (fun large => snd large > 1024 * 1024) (large_files (fst sw))).
  assert (keeps I (traverseDirectory project_path (analyzeVisitor max_depth))) as Hkeeps.
  { apply SearchFacts.traverseDirectory_keeps.
    - intros visit p rel stats Hvisit. inversion Hvisit; subst visit. clear Hvisit.
      intros [a w0] (Hw & Hsplit & Hcount & Hsize & Hlarge). simpl in *.
      unfold bind, in_world, isBinaryAt, gets, modify, ret. cbn [fst snd].
      unfold I, analyzeFile. cbn [fst snd total_files total_size file_types large_files
                                  binary_files text_files].
      split; [exact Hw|]. split; [destruct (isLikelyBinary _ _); lia|].
      rewrite !assoc_set_sum.
      destruct (assoc_get _ (file_types a)) as [[c s]|]; unfold default; cbn [id fst snd].
      + split; [lia|]. split; [lia|].
        destruct (st_size stats >? 1024 * 1024) eqn:Hbig; [|exact Hlarge].
        apply Forall_app. split; [exact Hlarge|]. constructor; [|constructor]. simpl.
        rewrite Z.gtb_ltb in Hbig. apply Z.ltb_lt in Hbig. lia.
      + split; [lia|]. split; [lia|].
        destruct (st_size stats >? 1024 * 1024) eqn:Hbig; [|exact Hlarge].
        apply Forall_app. split; [exact Hlarge|]. constructor; [|constructor]. simpl.
        rewrite Z.gtb_ltb in Hbig. apply Z.ltb_lt in Hbig. lia.
    - intros visit p rel Hvisit. inversion Hvisit; subst visit. clear Hvisit.
      intros [a w0] HI. exact HI. }
  apply (Hkeeps (emptyAnalysis, w)). unfold I. simpl. repeat split; try reflexivity.
  constructor.
Qed.


Lemma Qmax2_bounds (a b lo hi : Q) :
  (a <= hi)%Q -> (b <= hi)%Q -> (lo <= a)%Q -> (lo <= Cache.Qmax2 a b <= hi)%Q.
Proof.
  intros Ha Hb Hlo. unfold Cache.Qmax2. destruct (Qle_bool a b) eqn:E.
  - apply Qle_bool_iff in E. split; [now apply Qle_trans with a|exact Hb].
  - now split.
Qed.

Lemma scaled_score_le_1 (x k : Q) : (0 <= x <= 1)%Q -> (0 <= k <= 1)%Q -> (x * k <= 1)%Q.
Proof.
  intros [Hx0 Hx1] [Hk0 Hk1]. apply Qle_trans with (1 * k)%Q.
  - now apply Qmult_le_compat_r.
  - now rewrite Qmult_1_l.
Qed.

Section FuzzySearch.
Variable options : FuzzySearchOptions.
Variable root : string.
Variable cfg : Cache.AdaptiveFileConfig.
Variable w : world F.

(** The invariant of the fuzzy search: the world is the one it started
    in, and every result collected has a score of at least the minimum
    and at most 1. *)
Lemma scoreCandidate_scores (item : Dirent) (itemPath relativePath : string) :
  keeps (fun sw : fuzzy_state * world F =>
           snd sw = w
           /\ Forall (fun r => (opt_min_score options cfg <= fr_score r <= 1)%Q)
                (fst (fst sw)))
    (scoreCandidate options cfg item itemPath relativePath).
Proof.
  unfold scoreCandidate.
  set (filenameScore := calculateFuzzyScore _ (d_name item) _).
  set (directoryScore := (calculateFuzzyScore _ (Path.dirname relativePath) _ * _)%Q).
  set (pathScore := (calculateFuzzyScore _ relativePath _ * _)%Q).
  set (bestScore := Cache.Qmax2 _ _).
  assert (bestScore <= 1)%Q as Hbest.
  { unfold bestScore.
    destruct (FileLayerFacts.calculateFuzzyScore_bounds (opt_query options) (d_name item)
                (opt_case_sensitive options)) as [Hf0 Hf1].
    apply (Qmax2_bounds _ _ 0); [exact Hf1| |exact Hf0].
    apply (Qmax2_bounds _ _ 0).
    - apply scaled_score_le_1; [apply FileLayerFacts.calculateFuzzyScore_bounds|].
      split; discriminate.
    - apply scaled_score_le_1; [apply FileLayerFacts.calculateFuzzyScore_bounds|].
      split; discriminate.
    - apply Qmult_le_0_compat; [apply FileLayerFacts.calculateFuzzyScore_bounds|discriminate]. }
  destruct (Qgeb bestScore (opt_min_score options cfg)) eqn:Henough;
    [|apply SearchFacts.keeps_ret].
  apply SearchFacts.keeps_try_catch; [|intro; apply SearchFacts.keeps_ret].
  apply SearchFacts.keeps_bind; [apply SearchFacts.keeps_in_world_fs_call|intro stats].
  intros [[results count] w0] [Hw Hscores]. simpl in *. split; [exact Hw|].
  apply Forall_app. split; [exact Hscores|]. constructor; [|constructor]. simpl.
  split; [|exact Hbest]. unfold Qgeb in Henough. now apply Qle_bool_iff.
Qed.

Lemma eachCandidate_scores (descend : string -> M (fuzzy_state * world F) unit)
    (currentPath : string) :
  let I := fun sw : fuzzy_state * world F =>
             snd sw = w
             /\ Forall (fun r => (opt_min_score options cfg <= fr_score r <= 1)%Q)
                  (fst (fst sw)) in
  (forall p, keeps I (descend p)) ->
  forall items, keeps I (eachCandidate options root cfg descend currentPath items).
Proof.
  intros I Hdescend. induction items as [|item rest IH]; simpl;
    [apply SearchFacts.keeps_ret|].
  apply SearchFacts.keeps_bind; [apply SearchFacts.keeps_gets|intro st].
  destruct (limit_reached options st); [apply SearchFacts.keeps_ret|].
  destruct (d_isFile item || _).
  - apply SearchFacts.keeps_bind; [|intros []].
    + intros [[results count] w0] HI. exact HI.
    + destruct (Str.startsWith _ _ && _); [exact IH|].
      destruct (_ && _ && _); [exact IH|].
      apply SearchFacts.keeps_bind; [apply scoreCandidate_scores|intros []; exact IH].
  - destruct (d_isDirectory item && _); [|exact IH].
    apply SearchFacts.keeps_bind; [apply Hdescend|intros []; exact IH].
Qed.

Lemma searchRecursive_scores (fuel : nat) :
  forall (currentPath : string) (depth : Z),
    keeps (fun sw : fuzzy_state * world F =>
             snd sw = w
             /\ Forall (fun r => (opt_min_score options cfg <= fr_score r <= 1)%Q)
                  (fst (fst sw)))
      (searchRecursive options root cfg fuel currentPath depth).
Proof.
  induction fuel as [|fuel IH]; intros currentPath depth; simpl;
    (apply SearchFacts.keeps_bind; [apply SearchFacts.keeps_gets|intro st]);
    destruct (_ || _); try apply SearchFacts.keeps_ret.
  apply SearchFacts.keeps_try_catch; [|intro; apply SearchFacts.keeps_ret].
  apply SearchFacts.keeps_bind; [apply SearchFacts.keeps_in_world_fs_call|intro items].
  apply eachCandidate_scores. intro p. apply IH.
Qed.

Lemma searchRecursive_returns (fuel : nat) (currentPath : string) (depth : Z)
    (sw : fuzzy_state * world F) :
  exists sw', searchRecursive options root cfg fuel currentPath depth sw = (Ok tt, sw').
Proof.
  destruct fuel; simpl; unfold bind at 1, gets at 1; destruct (_ || _);
    try (eexists; reflexivity).
  unfold try_catch. destruct (bind _ _ sw) as [[[]|e] sw']; eexists; reflexivity.
Qed.

End FuzzySearch.

Lemma slice0_length {A} (n : Q) (l : list A) :
  (0 <= n)%Q -> (inject_Z (Z.of_nat (List.length (slice0 n l))) <= n)%Q.
Proof.
  intros Hn. unfold slice0, Qtrunc. apply Qle_bool_iff in Hn. rewrite Hn.
  apply Qle_bool_iff in Hn.
  assert (0 <= Qfloor n) as Hfloor.
  { change 0 with (Qfloor 0). now apply Qfloor_resp_le. }
  destruct (Qfloor n <? 0) eqn:Hneg; [apply Z.ltb_lt in Hneg; lia|].
  apply Qle_trans with (inject_Z (Qfloor n)); [|apply Qfloor_le].
  rewrite <- Zle_Qle. rewrite length_firstn. lia.
Qed.

Lemma firstn_incl {A} (n : nat) (l : list A) : incl (firstn n l) l.
Proof.
  intros x Hx. rewrite <- (firstn_skipn n l). apply in_or_app. now left.
Qed.

Lemma slice0_incl {A} (n : Q) (l : list A) : incl (slice0 n l) l.
Proof. unfold slice0. destruct (_ <? _); apply firstn_incl. Qed.

(** X19: [fuzzySearchFiles] returns, leaves the world as it was, and
    keeps its promises on the results: every score is at least the minimum
    score asked for (the configured threshold by default) and at most 1,
    and there are at most [max_results] of them.  The sort of the runtime
    is only required to return the elements it was given. *)
Theorem fuzzySearchFiles_respects_limits (options : FuzzySearchOptions) (w : world F) :
  (forall (A : Type) (compare : A -> A -> Q) (l : list A),
     Permutation (array_sort A compare l) l) ->
  exists results,
    fuzzySearchFiles options w = (Ok results, w)
    /\ Forall (fun r => (opt_min_score options (w_config w) <= fr_score r <= 1)%Q) results
    /\ ((0 <= opt_max_results options)%Q ->
        (inject_Z (Z.of_nat (List.length results)) <= opt_max_results options)%Q).
Proof.
  intros Hsort. unfold fuzzySearchFiles, bind, gets.
  set (root := Path.resolve (w_cwd w) (fo_directory_path options)).
  destruct (searchRecursive_returns options root (w_config w) w
              (Z.to_nat (Cache.MAX_SEARCH_DEPTH (w_config w) + 1)) root 0 (([], 0), w))
    as [[[found count] w'] Hrun].
  pose proof (searchRecursive_scores options root (w_config w) w
                (Z.to_nat (Cache.MAX_SEARCH_DEPTH (w_config w) + 1)) root 0 (([], 0), w)
                ltac:(split; [reflexivity|constructor])) as Hkept.
  rewrite Hrun in *. simpl in Hkept. destruct Hkept as [-> Hscores].
  eexists. split; [reflexivity|]. split.
  - apply List.Forall_forall. intros r Hr. apply slice0_incl in Hr.
    apply (Permutation.Permutation_in _ (Hsort _ _ _)) in Hr.
    revert r Hr. now apply List.Forall_forall.
  - intros Hmax. now apply slice0_length.
Qed.

End Searches.

Lemma searchFileContent_is_bounded_witness :
  exists results w',
    searchFileContent (rt := Fixtures.runtime) Fixtures.single_args
      (Fixtures.world_of Fixtures.project_fs)
    = (Ok results, w')
    /\ w_fs w' = Fixtures.project_fs
    /\ (List.length results <= 1)%nat.
Proof.
  destruct (searchFileContent_is_bounded (rt := Fixtures.runtime) Fixtures.single_args
              (Fixtures.world_of Fixtures.project_fs))
    as (results & w' & Hrun & Hfs & Hbound).
  exists results, w'. split; [exact Hrun|]. split; [exact Hfs|].
  destruct (Hbound 1%Q eq_refl) as [->|Hlt]; [simpl; lia|].
  unfold Qlt in Hlt. simpl in Hlt. lia.
Defined.

(** Where [max_results] converts to [NaN] the walk is not stopped: the
    search that reports one file of the project tree under a limit of one
    reports two files there. *)
Lemma searchFileContent_without_limit :
  List.map fm_file_path
    (default [] (match fst (searchFileContent (rt := Fixtures.runtime)
                                 Fixtures.single_args
                                 (Fixtures.world_of Fixtures.project_fs)) with
                 | Ok results => Some results
                 | Throw _ => None
                 end))
  = ["/project/a.txt"]
  /\ List.map fm_file_path
       (default [] (match fst (searchFileContent (rt := Fixtures.runtime)
                                    Fixtures.unlimited_args
                                    (Fixtures.world_of Fixtures.project_fs)) with
                    | Ok results => Some results
                    | Throw _ => None
                    end))
     = ["/project/a.txt"; "/project/sub/b.txt"].
Proof.
  split; vm_compute; reflexivity.
Qed.

Lemma fuzzySearchFiles_respects_limits_witness :
  let options := {| fo_query := "a"; fo_directory_path := "/project";
                    fo_file_extensions := None; fo_max_results := Some 2%Q;
                    fo_case_sensitive := None; fo_min_score := None;
                    fo_include_directories := None |} in
  let w := Fixtures.world_of Fixtures.project_fs in
  exists results,
    fuzzySearchFiles (rt := Fixtures.runtime) options w = (Ok results, w)
    /\ Forall (fun r => (opt_min_score options (w_config w) <= fr_score r <= 1)%Q) results
    /\ ((0 <= opt_max_results options)%Q ->
        (inject_Z (Z.of_nat (List.length results)) <= opt_max_results options)%Q).
Proof.
  apply (fuzzySearchFiles_respects_limits (rt := Fixtures.runtime)).
  intros A compare l. apply CacheFacts.stable_sort_perm.
Defined.

End WalkFacts.
(** ** Validation of tool input *)

Module ValidationFacts.
Import Validation.

Section Schemas.
Context {rt : Runtime}.

Lemma lookup_cons (k k' : string) (v : json) (l : list (string * json)) :
  lookup k ((k', v) :: l) = if String.eqb k' k then Some v else lookup k l.
Proof. unfold lookup. simpl. destruct (String.eqb k' k); reflexivity. Qed.

Lemma lookup_strip (k : string) (fields : list zfield) (obj : list (string * json)) :
  lookup k (strip fields obj)
  = if existsb (String.eqb k) (names fields) then lookup k obj else None.
Proof.
  unfold strip, names. induction fields as [|fld fields IH]; simpl; [reflexivity|].
  rewrite ToolFacts.lookup_app, IH.
  destruct (String.eqb k (z_name fld)) eqn:E; simpl.
  - apply String.eqb_eq in E. subst k.
    destruct (lookup (z_name fld) obj) as [v|] eqn:Hv.
    + rewrite lookup_cons, String.eqb_refl. reflexivity.
    + simpl. destruct (existsb _ _); reflexivity.
  - destruct (lookup (z_name fld) obj) as [v|]; [|reflexivity].
    rewrite lookup_cons, String.eqb_sym, E. reflexivity.
Qed.

Lemma flat_map_nil_inv {A B} (f : A -> list B) (l : list A) (a : A) :
  flat_map f l = [] -> In a l -> f a = [].
Proof.
  induction l as [|x l IH]; simpl; intros H Hin; [contradiction|].
  apply app_eq_nil in H. destruct H as [Hx Hl].
  destruct Hin as [->|Hin]; [exact Hx|now apply IH].
Qed.

Lemma zparse_Ok (fields : list zfield) (input : json) (value : list (string * json)) :
  zparse fields input = inr value ->
  exists obj, input = JObj obj
              /\ flat_map (check_field obj) fields = []
              /\ value = strip fields obj.
Proof.
  unfold zparse. destruct input; try discriminate.
  destruct (flat_map _ _) eqn:Hissues; [|discriminate].
  intros H. inversion H. eexists. repeat split. exact Hissues.
Qed.

Lemma validateToolInput_Ok (schema : zschema) (input toolName : string)
    (value : list (string * json)) :
  validateToolInput schema input toolName = Ok value ->
  exists parsed obj,
    JSON_parse input = inr parsed
    /\ preprocess (z_defaults schema) parsed = JObj obj
    /\ flat_map (check_field obj) (z_fields schema) = []
    /\ value = strip (z_fields schema) obj.
Proof.
  unfold validateToolInput. destruct (JSON_parse input) as [message|parsed]; [discriminate|].
  destruct (zparse _ _) as [issues|v] eqn:Hparse; [discriminate|].
  intros H. inversion H; subst v. apply zparse_Ok in Hparse.
  destruct Hparse as (obj & Hobj & Hchecks & Hvalue). now exists parsed, obj.
Qed.

(** X20: what [validateToolInput] returns holds the declared properties
    and nothing else: every property of the result is declared by the
    schema and has passed the check of its type, every required property
    is there, and a property the schema does not declare is not. *)
Theorem validateToolInput_yields_declared_fields (schema : zschema)
    (input toolName : string) (value : list (string * json)) :
  validateToolInput schema input toolName = Ok value ->
  (forall k v,
     lookup k value = Some v ->
     exists fld, In fld (z_fields schema) /\ z_name fld = k
                 /\ check_value [k] (z_type fld) v = [])
  /\ (forall fld,
        In fld (z_fields schema) -> z_optional fld = false ->
        exists v, lookup (z_name fld) value = Some v)
  /\ (forall k, ~ In k (names (z_fields schema)) -> lookup k value = None).
Proof.
  intros H. apply validateToolInput_Ok in H.
  destruct H as (parsed & obj & _ & _ & Hchecks & ->). repeat split.
  - intros k v Hk. rewrite lookup_strip in Hk.
    destruct (existsb _ _) eqn:Hdeclared; [|discriminate].
    apply existsb_exists in Hdeclared. destruct Hdeclared as (k' & Hin & Heq).
    apply String.eqb_eq in Heq. subst k'. unfold names in Hin.
    apply in_map_iff in Hin. destruct Hin as (fld & Hname & Hfld).
    exists fld. repeat split; [exact Hfld|exact Hname|].
    pose proof (flat_map_nil_inv _ _ fld Hchecks Hfld) as Hcheck.
    unfold check_field in Hcheck. rewrite Hname, Hk in Hcheck. exact Hcheck.
  - intros fld Hfld Hrequired.
    pose proof (flat_map_nil_inv _ _ fld Hchecks Hfld) as Hcheck.
    unfold check_field in Hcheck. rewrite lookup_strip.
    assert (existsb (String.eqb (z_name fld)) (names (z_fields schema)) = true) as ->.
    { apply existsb_exists. exists (z_name fld). split; [|apply String.eqb_refl].
      unfold names. now apply in_map. }
    destruct (lookup (z_name fld) obj) as [v|]; [now exists v|].
    rewrite Hrequired in Hcheck. discriminate.
  - intros k Hk. rewrite lookup_strip.
    destruct (existsb _ _) eqn:Hdeclared; [|reflexivity].
    apply existsb_exists in Hdeclared. destruct Hdeclared as (k' & Hin & Heq).
    apply String.eqb_eq in Heq. subst k'. contradiction.
Qed.

Lemma ReadFileInput_accepted (input : string) (args : list (string * json)) :
  (exists obj s,
     JSON_parse input = inr (JObj obj)
     /\ lookup "file_path" obj = Some (JStr s)
     /\ s <> ""
     /\ args = [("file_path", JStr s)]) ->
  validateToolInput ReadFileInputSchema input "read_file" = Ok args.
Proof.
  unfold validateToolInput, ReadFileInputSchema, object, zparse, strip, preprocess.
  cbn [z_defaults z_fields flat_map]. unfold check_field, required.
  cbn [z_name z_type z_optional].
  intros (obj & s & -> & Hv & Hs & ->). rewrite !app_nil_r, Hv.
  unfold check_value, check_string.
  apply String.eqb_neq in Hs. rewrite Hs. reflexivity.
Qed.

(** X21: [read_file] accepts exactly the texts that parse to an object
    whose [file_path] is a string that is not empty, and hands on that
    property alone. *)
Theorem ReadFileInput_accepted_iff (input : string) (args : list (string * json)) :
  validateToolInput ReadFileInputSchema input "read_file" = Ok args
  <-> exists obj s,
        JSON_parse input = inr (JObj obj)
        /\ lookup "file_path" obj = Some (JStr s)
        /\ s <> ""
        /\ args = [("file_path", JStr s)].
Proof.
  split; [|apply ReadFileInput_accepted].
  unfold validateToolInput, ReadFileInputSchema, object, zparse, strip, preprocess.
  cbn [z_defaults z_fields flat_map]. unfold check_field, required.
  cbn [z_name z_type z_optional].
  destruct (JSON_parse input) as [message|parsed]; [discriminate|].
  destruct parsed as [| | | | |obj]; try discriminate. rewrite !app_nil_r.
  destruct (lookup "file_path" obj) as [v|] eqn:Hv; [|discriminate].
  destruct v as [| | |s| |]; try discriminate. unfold check_value, check_string.
  destruct (String.eqb s "") eqn:Hs; [discriminate|].
  intros H. inversion H. exists obj, s.
  split; [reflexivity|]. split; [exact Hv|]. split; [|reflexivity].
  now apply String.eqb_neq.
Qed.


Lemma lookup_merged (k : string) (obj : list (string * json)) :
  lookup k (merge (default [] (z_defaults SearchFilesInputSchema)) obj)
  = match lookup k (default [] (z_defaults SearchFilesInputSchema)) with
    | Some dv => Some (default dv (lookup k obj))
    | None => lookup k obj
    end.
Proof. apply ToolFacts.lookup_merge. Qed.

(** X22: [search_files] fills in what the caller leaves out: given the
    directory and the pattern alone, the validated arguments carry 50
    results, case-insensitive, no fuzzy search, a minimum score of 0.3 and
    no directories. *)
Theorem validateSearchFilesInput_fills_defaults (input : string)
    (obj : list (string * json)) (directory pattern : string) :
  JSON_parse input = inr (JObj obj) ->
  lookup "directory_path" obj = Some (JStr directory) ->
  directory <> "" ->
  lookup "pattern" obj = Some (JStr pattern) ->
  pattern <> "" ->
  (forall k,
     In k ["file_extensions"; "max_results"; "case_sensitive"; "fuzzy_search";
           "min_score"; "include_directories"] ->
     lookup k obj = None) ->
  validateSearchFilesInput input
  = Ok [("directory_path", JStr directory); ("pattern", JStr pattern);
        ("max_results", JNum 50); ("case_sensitive", JBool false);
        ("fuzzy_search", JBool false); ("min_score", JNum (3 # 10));
        ("include_directories", JBool false)].
Proof.
  intros Hparse Hdir Hd Hpat Hp Hrest.
  apply String.eqb_neq in Hd, Hp.
  unfold validateSearchFilesInput, validateToolInput. rewrite Hparse.
  unfold preprocess, zparse, strip. cbn [z_defaults z_fields SearchFilesInputSchema flat_map].
  unfold check_field, required, optional. cbn [z_name z_type z_optional].
  change [("max_results", JNum 50); ("case_sensitive", JBool false);
          ("fuzzy_search", JBool false); ("min_score", JNum (3 # 10));
          ("include_directories", JBool false)]
    with (default [] (z_defaults SearchFilesInputSchema)).
  rewrite !lookup_merged. cbn [z_defaults SearchFilesInputSchema default from_option id].
  rewrite !lookup_cons. cbn [String.eqb Ascii.eqb Bool.eqb lookup List.find].
  rewrite Hdir, Hpat.
  rewrite (Hrest "file_extensions"), (Hrest "max_results"), (Hrest "case_sensitive"),
    (Hrest "fuzzy_search"), (Hrest "min_score"), (Hrest "include_directories")
    by (simpl; tauto).
  unfold check_value, check_string. rewrite Hd, Hp. reflexivity.
Qed.


Lemma app_not_nil_r {A} (l1 l2 : list A) : l2 <> [] -> l1 ++ l2 <> [].
Proof. intros H Happ. apply app_eq_nil in Happ. tauto. Qed.

Lemma app_not_nil_l {A} (l1 l2 : list A) : l1 <> [] -> l1 ++ l2 <> [].
Proof. intros H Happ. apply app_eq_nil in Happ. tauto. Qed.

(** X23: [search_files] does not clamp a result limit that is out of
    range: [max_results] below 1, above 500 or not an integer makes the
    validation throw, under the prefix that names the tool. *)
Theorem validateSearchFilesInput_rejects_limit (input : string)
    (obj : list (string * json)) (limit : Q) :
  JSON_parse input = inr (JObj obj) ->
  lookup "max_results" obj = Some (JNum limit) ->
  (limit < 1)%Q \/ (500 < limit)%Q \/ is_integer limit = false ->
  exists issues,
    validateSearchFilesInput input
    = Throw (Err ("Invalid input for tool search_files: " +:+ issues)).
Proof.
  intros Hparse Hlimit Hbad.
  unfold validateSearchFilesInput, validateToolInput. rewrite Hparse.
  unfold preprocess, zparse. cbn [z_defaults z_fields SearchFilesInputSchema].
  match goal with
  | |- context [flat_map ?f ?l] => destruct (flat_map f l) as [|issue issues] eqn:Hissues
  end; [|eexists; reflexivity].
  exfalso.
  pose proof (flat_map_nil_inv _ _
                (required "max_results" (ZNumber true (Some 1%Q) (Some 500%Q)))
                Hissues ltac:(simpl; tauto)) as Hcheck.
  unfold check_field, required in Hcheck. cbn [z_name z_type z_optional] in Hcheck.
  change [("max_results", JNum 50); ("case_sensitive", JBool false);
          ("fuzzy_search", JBool false); ("min_score", JNum (3 # 10));
          ("include_directories", JBool false)]
    with (default [] (z_defaults SearchFilesInputSchema)) in Hcheck.
  rewrite lookup_merged, Hlimit in Hcheck.
  cbn [z_defaults SearchFilesInputSchema default from_option id lookup List.find
       String.eqb Ascii.eqb Bool.eqb fst snd] in Hcheck.
  unfold check_value in Hcheck.
  apply app_eq_nil in Hcheck. destruct Hcheck as [Hint Hrange].
  apply app_eq_nil in Hrange. destruct Hrange as [Hlo Hhi].
  destruct Hbad as [Hbad|[Hbad|Hbad]].
  - assert (Qgtb 1 limit = true) as Hgt.
    { unfold Qgtb. apply negb_true_iff. destruct (Qle_bool 1 limit) eqn:E; [|reflexivity].
      apply Qle_bool_iff in E. exfalso. exact (Qlt_not_le _ _ Hbad E). }
    rewrite Hgt in Hlo. discriminate.
  - assert (Qgtb limit 500 = true) as Hgt.
    { unfold Qgtb. apply negb_true_iff. destruct (Qle_bool limit 500) eqn:E; [|reflexivity].
      apply Qle_bool_iff in E. exfalso. exact (Qlt_not_le _ _ Hbad E). }
    rewrite Hgt in Hhi. discriminate.
  - rewrite Hbad in Hint. discriminate.
Qed.

End Schemas.

Lemma validateToolInput_yields_declared_fields_witness :
  let value := [("file_path", JStr "/project/a.txt")] in
  (forall k v,
     lookup k value = Some v ->
     exists fld, In fld (z_fields ReadFileInputSchema) /\ z_name fld = k
                 /\ check_value (rt := Fixtures.parsing_runtime) [k] (z_type fld) v = [])
  /\ (forall fld,
        In fld (z_fields ReadFileInputSchema) -> z_optional fld = false ->
        exists v, lookup (z_name fld) value = Some v)
  /\ (forall k, ~ In k (names (z_fields ReadFileInputSchema)) -> lookup k value = None).
Proof.
  apply (validateToolInput_yields_declared_fields (rt := Fixtures.parsing_runtime)
           ReadFileInputSchema Fixtures.declared_input "read_file").
  vm_compute. reflexivity.
Defined.

Lemma validateSearchFilesInput_fills_defaults_witness :
  validateSearchFilesInput (rt := Fixtures.search_runtime) Fixtures.search_input
  = Ok [("directory_path", JStr "/project"); ("pattern", JStr "*.txt");
        ("max_results", JNum 50); ("case_sensitive", JBool false);
        ("fuzzy_search", JBool false); ("min_score", JNum (3 # 10));
        ("include_directories", JBool false)].
Proof.
  apply (validateSearchFilesInput_fills_defaults (rt := Fixtures.search_runtime)
           Fixtures.search_input Fixtures.search_fields "/project" "*.txt").
  - vm_compute. reflexivity.
  - reflexivity.
  - discriminate.
  - reflexivity.
  - discriminate.
  - intros k Hk. simpl in Hk.
    repeat (destruct Hk as [<-|Hk]; [reflexivity|]). contradiction.
Defined.

Lemma validateSearchFilesInput_rejects_limit_witness :
  exists issues,
    validateSearchFilesInput (rt := Fixtures.greedy_runtime) Fixtures.greedy_input
    = Throw (Err ("Invalid input for tool search_files: " +:+ issues)).
Proof.
  apply (validateSearchFilesInput_rejects_limit (rt := Fixtures.greedy_runtime)
           Fixtures.greedy_input Fixtures.greedy_fields 501).
  - vm_compute. reflexivity.
  - reflexivity.
  - right. left. reflexivity.
Defined.

End ValidationFacts.
(** ** The agent: tool-call deltas, text streams and the conversation loop *)

Module AgentLaws.
Import Agent.

Lemma array_set_prefix_length {A} (arr : list (option A)) (i : nat) :
  List.length (firstn i arr ++ repeat None (i - List.length arr)) = i.
Proof. rewrite length_app, length_firstn, repeat_length. lia. Qed.

Lemma array_get_set_eq {A} (arr : list (option A)) (i : nat) (v : A) :
  array_get (array_set arr i v) i = Some v.
Proof.
  unfold array_get, array_set. rewrite app_assoc.
  rewrite nth_error_app2 by (rewrite array_set_prefix_length; lia).
  rewrite array_set_prefix_length, Nat.sub_diag. reflexivity.
Qed.

Lemma array_get_set_neq {A} (arr : list (option A)) (i j : nat) (v : A) :
  j <> i -> array_get (array_set arr i v) j = array_get arr j.
Proof.
  intros Hne. unfold array_get, array_set.
  destruct (Nat.lt_ge_cases j i) as [Hlt|Hge].
  - destruct (Nat.lt_ge_cases j (List.length arr)) as [Hin|Hout].
    + rewrite nth_error_app1 by (rewrite length_firstn; lia).
      now rewrite nth_error_firstn, (proj2 (Nat.ltb_lt j i) Hlt).
    + rewrite nth_error_app2 by (rewrite length_firstn; lia).
      rewrite nth_error_app1 by (rewrite length_firstn, repeat_length; lia).
      rewrite nth_error_repeat by (rewrite length_firstn; lia).
      now rewrite (proj2 (nth_error_None arr j) Hout).
  - rewrite app_assoc. rewrite nth_error_app2 by (rewrite array_set_prefix_length; lia).
    rewrite array_set_prefix_length.
    destruct (j - i)%nat as [|k] eqn:Hk; [lia|]. simpl.
    rewrite nth_error_skipn. f_equal. f_equal. lia.
Qed.


(** One delta, seen from the slot [i] of the array of tool calls. *)
Lemma handleToolCallDelta_at (state : StreamProcessorState) (d : ToolCallDelta) (i : nat) :
  array_get (toolCalls (handleToolCallDelta state d)) i
  = if match index d with Some j => Nat.eqb j i | None => false end
    then match array_get (toolCalls state) i with
         | Some call =>
             Some {| id := id call; fn_name := fn_name call;
                     fn_arguments := fn_arguments call +:+ str_or (delta_arguments d) "" |}
         | None =>
             Some {| id := str_or (delta_id d) ""; fn_name := str_or (delta_name d) "";
                     fn_arguments := str_or (delta_arguments d) "" |}
         end
    else array_get (toolCalls state) i.
Proof.
  unfold handleToolCallDelta. destruct (index d) as [j|]; [|reflexivity].
  destruct (Nat.eqb j i) eqn:E.
  - apply Nat.eqb_eq in E. subst j.
    destruct (array_get (toolCalls state) i) as [call|] eqn:Hcall.
    + destruct (String.eqb (str_or (delta_arguments d) "") "") eqn:Hfrag; simpl.
      * apply String.eqb_eq in Hfrag. rewrite Hfrag, Hcall, FileLayerFacts.append_empty_r. now destruct call.
      * apply array_get_set_eq.
    + simpl. apply array_get_set_eq.
  - apply Nat.eqb_neq in E.
    destruct (array_get (toolCalls state) j) as [call|].
    + destruct (negb _); simpl; [|reflexivity]. apply array_get_set_neq. congruence.
    + simpl. apply array_get_set_neq. congruence.
Qed.

Lemma handleToolCallDeltas_existing (deltas : list ToolCallDelta) :
  forall (state : StreamProcessorState) (i : nat) (call : ToolCall),
    array_get (toolCalls state) i = Some call ->
    array_get (toolCalls (handleToolCallDeltas deltas state)) i
    = Some {| id := id call; fn_name := fn_name call;
              fn_arguments :=
                fn_arguments call
                +:+ List.fold_right String.append ""
                      (List.map (fun d => str_or (delta_arguments d) "")
                         (List.filter
                            (fun d => match index d with
                                      | Some j => Nat.eqb j i
                                      | None => false
                                      end) deltas)) |}.
Proof.
  unfold handleToolCallDeltas.
  induction deltas as [|d deltas IH]; intros state i call Hcall; simpl.
  - rewrite FileLayerFacts.append_empty_r, Hcall. now destruct call.
  - pose proof (handleToolCallDelta_at state d i) as Hstep. rewrite Hcall in Hstep.
    destruct (match index d with Some j => Nat.eqb j i | None => false end).
    + rewrite (IH _ i _ Hstep). simpl. now rewrite FileLayerFacts.append_assoc.
    + now rewrite (IH _ i _ Hstep).
Qed.

(** X24: the fragments of a streamed tool call are put together again.
    After a chunk's deltas, the call at an index holds the arguments it
    had, followed by the fragments addressed to that index in their order,
    however they were interleaved with those of other calls; a call that
    the first fragment opens takes its id and name from it. *)
Theorem handleToolCallDeltas_reassembles (deltas : list ToolCallDelta)
    (state : StreamProcessorState) (i : nat) :
  let addressed :=
    List.filter (fun d => match index d with Some j => Nat.eqb j i | None => false end)
      deltas in
  let fragments := List.map (fun d => str_or (delta_arguments d) "") in
  let joined := List.fold_right String.append "" in
  array_get (toolCalls (handleToolCallDeltas deltas state)) i
  = match array_get (toolCalls state) i, addressed with
    | Some call, _ =>
        Some {| id := id call; fn_name := fn_name call;
                fn_arguments := fn_arguments call +:+ joined (fragments addressed) |}
    | None, [] => None
    | None, first :: rest =>
        Some {| id := str_or (delta_id first) ""; fn_name := str_or (delta_name first) "";
                fn_arguments := joined (fragments (first :: rest)) |}
    end.
Proof.
  cbv zeta. destruct (array_get (toolCalls state) i) as [call|] eqn:Hcall.
  - now apply handleToolCallDeltas_existing.
  - revert state Hcall. induction deltas as [|d deltas IH]; intros state Hcall; simpl.
    + exact Hcall.
    + pose proof (handleToolCallDelta_at state d i) as Hstep. rewrite Hcall in Hstep.
      destruct (match index d with Some j => Nat.eqb j i | None => false end).
      * change (List.fold_left handleToolCallDelta deltas (handleToolCallDelta state d))
          with (handleToolCallDeltas deltas (handleToolCallDelta state d)).
        rewrite (handleToolCallDeltas_existing deltas _ i _ Hstep). reflexivity.
      * apply IH. exact Hstep.
Qed.


Lemma elements_array_of (toolCalls : list ToolCall) :
  elements (array_of toolCalls) = toolCalls.
Proof.
  unfold elements, array_of. induction toolCalls as [|c l IH]; simpl; [reflexivity|].
  now rewrite IH.
Qed.

Section Outcomes.
Context {W : Type} {rt : Runtime}.
Variable tools : list (Tool W).

Lemma call_outcome_unique (toolCall : ToolCall) (w : W)
    (r1 r2 : ToolExecutionResult) (w1 w2 : W) :
  call_outcome tools toolCall w r1 w1 -> call_outcome tools toolCall w r2 w2 ->
  r1 = r2 /\ w1 = w2.
Proof.
  intros H1 H2. inversion H1; inversion H2; subst;
    repeat match goal with
           | H : registered _ _ _ |- _ => apply AgentFacts.registered_find_tool in H
           | H : unregistered _ _ |- _ => apply AgentFacts.unregistered_find_tool in H
           end;
    repeat match goal with
           | Ha : find_tool _ _ = _, Hb : find_tool _ _ = _ |- _ =>
               rewrite Ha in Hb; inversion Hb; subst; clear Hb
           | Ha : invoke _ _ _ = _, Hb : invoke _ _ _ = _ |- _ =>
               rewrite Ha in Hb; inversion Hb; subst; clear Hb
           end;
    try discriminate; split; reflexivity.
Qed.

Lemma outcomes_unique (toolCalls : list ToolCall) :
  forall (w : W) (rs1 rs2 : list ToolExecutionResult) (w1 w2 : W),
    outcomes tools toolCalls w rs1 w1 -> outcomes tools toolCalls w rs2 w2 ->
    rs1 = rs2 /\ w1 = w2.
Proof.
  induction toolCalls as [|toolCall rest IH]; intros w rs1 rs2 w1 w2 H1 H2;
    inversion H1; inversion H2; subst; [now split|].
  match goal with
  | Ha : call_outcome _ _ _ ?ra ?wa, Hb : call_outcome _ _ _ ?rb ?wb |- _ =>
      destruct (call_outcome_unique _ _ _ _ _ _ Ha Hb) as [-> ->]
  end.
  match goal with
  | Ha : outcomes _ rest _ ?ra ?wa, Hb : outcomes _ rest _ ?rb ?wb |- _ =>
      destruct (IH _ _ _ _ _ Ha Hb) as [-> ->]
  end.
  now split.
Qed.

Lemma executeToolCalls_of_outcomes (toolCalls : list ToolCall) (w : W)
    (results : list ToolExecutionResult) (w' : W) :
  outcomes tools toolCalls w results w' ->
  executeToolCalls tools (array_of toolCalls) w = (Ok results, w').
Proof.
  intros H.
  destruct (AgentFacts.executeToolCallsFrom_outcomes tools toolCalls [] w)
    as (rs & w2 & Hrun & Houts & _).
  destruct (outcomes_unique _ _ _ _ _ _ H Houts) as [-> ->]. exact Hrun.
Qed.

End Outcomes.

(** The deltas of tool calls leave the text side of the state alone. *)
Lemma handleToolCallDeltas_keeps_text (deltas : list ToolCallDelta) :
  forall state : StreamProcessorState,
    currentMessages (handleToolCallDeltas deltas state) = currentMessages state
    /\ accumulatedContent (handleToolCallDeltas deltas state) = accumulatedContent state
    /\ contentSize (handleToolCallDeltas deltas state) = contentSize state.
Proof.
  unfold handleToolCallDeltas.
  induction deltas as [|d deltas IH]; intros state; simpl; [now repeat split|].
  destruct (IH (handleToolCallDelta state d)) as (-> & -> & ->).
  unfold handleToolCallDelta. destruct (index d); [|now repeat split].
  destruct (array_get _ _); [destruct (negb _)|]; now repeat split.
Qed.

Lemma fold_right_nonneg (l : list Z) :
  Forall (fun z => 0 <= z) l -> 0 <= List.fold_right Z.add 0 l.
Proof. induction 1; simpl; lia. Qed.

Section Streams.
Context {W : Type} {rt : Runtime}.
Variable tools : list (Tool W).
Variable create_stream : list Message -> M W (list Chunk).

(** A loop over the chunks that, on a chunk without tool-call deltas and
    with no tool call started, handles the content and goes on. *)
Lemma text_loop (each : list Chunk -> StreamProcessorState -> G (W := W) status) :
  (forall state s, each [] state s = (Ok Done, s)) ->
  (forall rest state s, each (None :: rest) state s = each rest state s) ->
  (forall choice rest state s,
     delta_tool_calls choice = None ->
     toolCalls state = [] ->
     each (Some choice :: rest) state s
     = each rest (snd (handleContent state (delta_content choice)))
         (fst s ++ fst (handleContent state (delta_content choice)), snd s)) ->
  forall (stream : list Chunk) (state : StreamProcessorState) (log : list StreamEvent) (w : W),
    let texts :=
      flat_map (fun chunk =>
                  match chunk with
                  | Some choice =>
                      match delta_content choice with
                      | Some text => if String.eqb text "" then [] else [text]
                      | None => []
                      end
                  | None => []
                  end) stream in
    Forall (fun chunk =>
              match chunk with
              | Some choice => delta_tool_calls choice = None
              | None => True
              end) stream ->
    toolCalls state = [] ->
    contentSize state + List.fold_right Z.add 0 (List.map Str.len texts)
    <= MAX_ACCUMULATED_SIZE ->
    each stream state (log, w) = (Ok Done, (log ++ List.map output_text_delta texts, w)).
Proof.
  intros Hnil Hskip Hstep stream. cbv zeta.
  induction stream as [|chunk stream IH]; intros state log w Hplain Hcalls Hroom.
  - rewrite Hnil. simpl. now rewrite app_nil_r.
  - inversion Hplain as [|? ? Hchunk Hrest]; subst.
    destruct chunk as [choice|]; [|rewrite Hskip; now apply IH].
    rewrite (Hstep _ _ _ _ Hchunk Hcalls). cbn [fst snd flat_map] in Hroom |- *.
    unfold handleContent.
    destruct (delta_content choice) as [text|];
      [destruct (String.eqb text "") eqn:Hempty|];
      try (cbn [fst snd app List.map]; rewrite app_nil_r; now apply IH).
    cbn [app List.map List.fold_right] in Hroom.
    assert (0 <= List.fold_right Z.add 0
                   (List.map Str.len
                      (flat_map (fun chunk =>
                         match chunk with
                         | Some choice =>
                             match delta_content choice with
                             | Some text => if String.eqb text "" then [] else [text]
                             | None => []
                             end
                         | None => []
                         end) stream))) as Hrestsize.
    { apply fold_right_nonneg. apply Forall_map. apply Forall_forall. intros x _.
      unfold Str.len. lia. }
    assert ((contentSize state + Str.len text >? MAX_ACCUMULATED_SIZE) = false) as ->
      by (rewrite Z.gtb_ltb; apply Z.ltb_ge; lia).
    cbn [fst snd app List.map]. rewrite IH.
    + now rewrite <- app_assoc.
    + exact Hrest.
    + exact Hcalls.
    + cbn [contentSize]. lia.
Qed.

(** X25: a response that carries text only is passed through as it is:
    when no chunk has tool-call deltas and the text fits under the cap,
    the consumer receives the text deltas that are not empty, in order and
    unchanged, the generator finishes, no tool runs and the model is not
    asked again. *)
Theorem processStream_passes_text_through (fuel : nat) (stream : list Chunk)
    (initialMessages : list Message) (log : list StreamEvent) (w : W) :
  let texts :=
    flat_map (fun chunk =>
                match chunk with
                | Some choice =>
                    match delta_content choice with
                    | Some text => if String.eqb text "" then [] else [text]
                    | None => []
                    end
                | None => []
                end) stream in
  Forall (fun chunk =>
            match chunk with
            | Some choice => delta_tool_calls choice = None
            | None => True
            end) stream ->
  List.fold_right Z.add 0 (List.map Str.len texts) <= MAX_ACCUMULATED_SIZE ->
  processStream tools create_stream fuel stream initialMessages (log, w)
  = (Ok Done, (log ++ List.map output_text_delta texts, w)).
Proof.
  cbv zeta. intros Hplain Hsize.
  destruct fuel as [|fuel]; cbn [processStream].
  all: apply text_loop; [reflexivity|reflexivity| |exact Hplain|reflexivity|simpl; lia].
  all: intros choice rest state [events w0] Hchunk Hcalls.
  all: cbn [fst snd]; rewrite Hchunk.
  all: destruct (handleContent state (delta_content choice)) as [emitted state1] eqn:Hcontent.
  all: assert (toolCalls state1 = []) as Hcalls1
      by (unfold handleContent in Hcontent;
          destruct (delta_content choice) as [text|];
          [destruct (String.eqb text ""); [|destruct (_ >? _)]|];
          inversion Hcontent; subst; exact Hcalls).
  all: cbn [fst snd]; unfold bind, yield_all, modify, ret; cbn [fst snd].
  all: rewrite Hcalls1, andb_false_r; reflexivity.
Qed.

(** X26: a chunk that ends the response with [tool_calls] starts a tool
    round.  The calls collected from the deltas run in order, the consumer
    gets one event per call started and one per result, the chunks that
    follow in the same response are not read, and the generator goes on
    with the model's response to the messages so far, the assistant
    message that carries the calls, and one tool message per result. *)
Theorem processStream_runs_tool_round (fuel : nat) (deltas : list ToolCallDelta)
    (rest next : list Chunk) (initialMessages : list Message)
    (toolCall : ToolCall) (others : list ToolCall) (results : list ToolExecutionResult)
    (log : list StreamEvent) (w w1 w2 : W) :
  let request :=
    Some {| delta_content := None; delta_tool_calls := Some deltas;
            finish_reason := Some "tool_calls" |} in
  let followupMessages :=
    initialMessages
    ++ [{| msg_role := Assistant; msg_content := None;
           msg_tool_calls := Some (toolCall :: others); msg_tool_call_id := None |}]
    ++ List.map toolMessage results in
  toolCalls (handleToolCallDeltas deltas (initialState initialMessages))
  = array_of (toolCall :: others) ->
  outcomes tools (toolCall :: others) w results w1 ->
  create_stream followupMessages w1 = (Ok next, w2) ->
  processStream tools create_stream (Datatypes.S fuel) (request :: rest) initialMessages
    (log, w)
  = processStream tools create_stream fuel next followupMessages
      (log ++ toolCallStarted (initialState initialMessages) deltas
           ++ List.map toolResultEvent results, w2).
Proof.
  cbv zeta. intros Hcalls Houtcomes Hcreate.
  cbn [processStream]. cbn [handleContent delta_content delta_tool_calls finish_reason].
  unfold bind at 1, yield_all at 1, modify at 1. cbn [fst snd].
  unfold bind at 1. unfold bind at 1, yield_all at 1, modify at 1, ret at 1. cbn [fst snd].
  rewrite Hcalls. cbn [String.eqb Ascii.eqb Bool.eqb andb array_of List.map List.length].
  assert ((0 <? Z.of_nat (Datatypes.S (List.length (List.map Some others)))) = true) as ->
    by (apply Z.ltb_lt; lia).
  unfold bind at 1, run at 1. cbn [fst snd].
  change (Some toolCall :: List.map Some others) with (array_of (toolCall :: others)).
  rewrite (executeToolCalls_of_outcomes tools _ _ _ _ Houtcomes).
  unfold bind at 1, yield_all at 1, modify at 1. cbn [fst snd].
  rewrite elements_array_of.
  destruct (handleToolCallDeltas_keeps_text deltas (initialState initialMessages))
    as (-> & -> & _).
  cbn [currentMessages accumulatedContent initialState].
  cbn [String.eqb]. unfold bind at 1, run at 1. cbn [fst snd]. rewrite Hcreate.
  rewrite app_nil_r, <- app_assoc. reflexivity.
Qed.

End Streams.


Section Conversation.
Context {W : Type} {rt : Runtime}.
Variable tools : list (Tool W).
Variable create_message : list Message -> M W (option Message).

Lemma runWithoutStreaming_step (fuel : nat) (messages : list Message) (w : W) :
  runWithoutStreaming tools create_message fuel messages w
  = (let* response := create_message messages in
     match response with
     | None => throw (Err "No response from the model")
     | Some message =>
         match msg_tool_calls message with
         | Some (toolCall :: rest) =>
             let* toolResults := executeToolCalls tools (array_of (toolCall :: rest)) in
             match fuel with
             | O => ret None
             | Datatypes.S fuel' =>
                 runWithoutStreaming tools create_message fuel'
                   ((messages ++ [message]) ++ List.map toolMessage toolResults)
             end
         | _ => ret (Some (str_or (msg_content message) "No response generated"))
         end
     end) w.
Proof. destruct fuel; reflexivity. Qed.

Lemma conversation_is_run (messages : list Message) (w w' : W)
    (output : string) :
  conversation tools create_message messages w output w' ->
  exists fuel,
    forall fuel', (fuel <= fuel')%nat ->
      runWithoutStreaming tools create_message fuel' messages w = (Ok (Some output), w').
Proof.
  induction 1 as [messages w message w1 Hcreate Hnone
                 |messages w message w1 toolCall rest results w2 output w3
                    Hcreate Hcalls Houtcomes Hrest IH].
  - exists 0%nat. intros fuel' _. rewrite runWithoutStreaming_step.
    unfold bind. rewrite Hcreate. destruct Hnone as [-> | ->]; reflexivity.
  - destruct IH as [fuel IH]. exists (Datatypes.S fuel). intros fuel' Hfuel.
    destruct fuel' as [|fuel']; [lia|]. rewrite runWithoutStreaming_step.
    unfold bind. rewrite Hcreate, Hcalls.
    rewrite (executeToolCalls_of_outcomes tools _ _ _ _ Houtcomes).
    rewrite <- app_assoc. apply IH. lia.
Qed.

(** X27: [runWithoutStreaming] carries out the conversation and nothing
    else.  It returns an output exactly when the conversation reaches an
    answer without tool calls: every answer with tool calls is followed by
    the outcomes of its calls in order, each tool message carrying the id
    of its call, before the model is asked again; and the output is the
    content of the last answer, or the fixed text when that is empty. *)
Theorem runWithoutStreaming_follows_conversation (messages : list Message) (w w' : W)
    (output : string) :
  conversation tools create_message messages w output w'
  <-> exists fuel,
        forall fuel', (fuel <= fuel')%nat ->
          runWithoutStreaming tools create_message fuel' messages w = (Ok (Some output), w').
Proof.
  split; [apply conversation_is_run|].
  intros [fuel Hrun]. specialize (Hrun fuel (Nat.le_refl _)).
  revert messages w Hrun. induction fuel as [|fuel IH]; intros messages w Hrun;
    rewrite runWithoutStreaming_step in Hrun; unfold bind in Hrun;
    destruct (create_message messages w) as [[[message|]|e] w1] eqn:Hcreate;
    try discriminate;
    destruct (msg_tool_calls message) as [[|toolCall rest]|] eqn:Hcalls;
    try (inversion Hrun; subst; apply (conversation_answer _ _ _ _ _ _ Hcreate); tauto).
  - destruct (executeToolCalls _ _ w1) as [[results|e] w2]; discriminate.
  - destruct (AgentFacts.executeToolCallsFrom_outcomes tools (toolCall :: rest) [] w1)
      as (results & w2 & Hexec & Houtcomes & _).
    unfold executeToolCalls in Hrun. rewrite Hexec in Hrun. simpl app in Hrun.
    apply IH in Hrun. rewrite <- app_assoc in Hrun.
    exact (conversation_round _ _ _ _ _ _ _ _ _ _ _ _ Hcreate Hcalls Houtcomes Hrun).
Qed.


Variable create_stream : list Message -> M W (list Chunk).

(** X28: without streaming, [run] asks the model with the system
    message first, then the conversation history in its order and with its
    roles, then the user input, and returns the output of the conversation
    that starts there, with no stream to read. *)
Theorem run_agent_runs_the_conversation (instructions input : string)
    (options : RunOptions) (w w' : W) (output : string) :
  stream options = None \/ stream options = Some false ->
  conversation tools create_message
    (plain System instructions
     :: List.map (fun message => plain (chat_role message) (chat_content message))
          (default [] (conversationHistory options))
     ++ [plain User input]) w output w' ->
  exists fuel,
    run_agent tools create_stream create_message fuel instructions input options w
    = (Ok (Some {| finalOutput := output; toStream := None |}), w').
Proof.
  intros Hstream Hconv.
  apply conversation_is_run in Hconv.
  destruct Hconv as [fuel Hrun]. exists fuel. unfold run_agent.
  assert (default false (stream options) = false) as ->
    by (destruct Hstream as [-> | ->]; reflexivity).
  unfold bind, run_messages. simpl app. rewrite (Hrun fuel (Nat.le_refl _)). reflexivity.
Qed.

End Conversation.

Lemma processStream_passes_text_through_witness :
  processStream (rt := Fixtures.runtime) Fixtures.no_tools Fixtures.silent_provider 0
    (Fixtures.long_stream "a") [] ([], tt)
  = (Ok Done, ([] ++ List.map output_text_delta ["a"; "bc"; "de"; "f"], tt)).
Proof.
  apply (processStream_passes_text_through (rt := Fixtures.runtime) Fixtures.no_tools
           Fixtures.silent_provider 0 (Fixtures.long_stream "a") [] [] tt).
  - repeat constructor.
  - vm_compute. discriminate.
Defined.

Lemma processStream_runs_tool_round_witness :
  processStream (rt := Fixtures.runtime) [Fixtures.counter] Fixtures.done_stream 1
    Fixtures.calling_stream [] ([], 0)
  = processStream (rt := Fixtures.runtime) [Fixtures.counter] Fixtures.done_stream 0
      [Some {| delta_content := Some "done"; delta_tool_calls := None;
               finish_reason := Some "stop" |}]
      ([]
       ++ [{| msg_role := Assistant; msg_content := None;
              msg_tool_calls := Some [Fixtures.count_call]; msg_tool_call_id := None |}]
       ++ List.map toolMessage
            [{| toolCallId := "call_1"; success := true; response := "counted";
                error := None |}])
      ([] ++ toolCallStarted (initialState []) [Fixtures.count_delta]
          ++ List.map toolResultEvent
               [{| toolCallId := "call_1"; success := true; response := "counted";
                   error := None |}], 1).
Proof.
  apply (processStream_runs_tool_round (rt := Fixtures.runtime) [Fixtures.counter]
           Fixtures.done_stream 0 [Fixtures.count_delta]
           [Some {| delta_content := Some "ignored"; delta_tool_calls := None;
                    finish_reason := None |}]
           [Some {| delta_content := Some "done"; delta_tool_calls := None;
                    finish_reason := Some "stop" |}]
           [] Fixtures.count_call []
           [{| toolCallId := "call_1"; success := true; response := "counted";
               error := None |}] [] 0 1 1).
  - reflexivity.
  - eapply outcomes_cons; [|apply outcomes_nil].
    eapply (outcome_returned [Fixtures.counter] Fixtures.count_call 0 Fixtures.counter
              "counted" 1); [|reflexivity].
    exists [], []. repeat split. constructor.
  - reflexivity.
Defined.

Lemma run_agent_runs_the_conversation_witness :
  exists fuel,
    run_agent (rt := Fixtures.runtime) [Fixtures.counter] Fixtures.quiet_stream
      Fixtures.counting_model fuel "Be brief." "Count once."
      {| stream := None; conversationHistory := None |} 0
    = (Ok (Some {| finalOutput := "done"; toStream := None |}), 1).
Proof.
  apply (run_agent_runs_the_conversation (rt := Fixtures.runtime) [Fixtures.counter]
           Fixtures.counting_model Fixtures.quiet_stream "Be brief." "Count once."
           {| stream := None; conversationHistory := None |} 0 1 "done").
  - now left.
  - eapply conversation_round.
    + reflexivity.
    + reflexivity.
    + eapply outcomes_cons; [|apply outcomes_nil].
      eapply (outcome_returned [Fixtures.counter] Fixtures.count_call 0 Fixtures.counter
                "counted" 1); [|reflexivity].
      exists [], []. repeat split. constructor.
    + apply (conversation_answer (rt := Fixtures.runtime) [Fixtures.counter]
               Fixtures.counting_model _ 1
               {| msg_role := Assistant; msg_content := Some "done";
                  msg_tool_calls := None; msg_tool_call_id := None |} 1).
      * reflexivity.
      * now left.
Defined.

End AgentLaws.
(** ** The tools: what [read_file] refuses and how it reports failure *)

Module ToolLaws.
Import FileOps Validation Tools.

Section ReadFile.
Context {F : Type} {fsF : NodeFs F} {rt : Runtime}.

Lemma validate_read_file (input : string) (obj : list (string * json)) (file_path : string) :
  JSON_parse input = inr (JObj obj) ->
  lookup "file_path" obj = Some (JStr file_path) ->
  file_path <> "" ->
  validateToolInput ReadFileInputSchema input "read_file" = Ok [("file_path", JStr file_path)].
Proof.
  intros Hparse Hpath Hne. apply ValidationFacts.ReadFileInput_accepted. now exists obj, file_path.
Qed.


(** X30: [read_file] reports a failure as a result, under the path it
    failed on.  A text that is not JSON is answered with the path
    [unknown] and the message of the parser; a path that [stat] rejects is
    answered with the resolved path and the message of the cause behind
    [Failed to read file: ].  Neither changes the world. *)
Theorem read_file_reports_failure (input : string) (w : world F) :
  (forall message,
     JSON_parse input = inl message ->
     Agent.invoke readFileTool input w
     = (Ok (JSON_stringify
              (JObj [("success", JBool false); ("file_path", JStr "unknown");
                     ("error", JStr ("Invalid JSON input for tool read_file: "
                                     +:+ message))])), w))
  /\ (forall obj file_path cause,
        JSON_parse input = inr (JObj obj) ->
        lookup "file_path" obj = Some (JStr file_path) ->
        file_path <> "" ->
        fs_stat (Path.resolve (w_cwd w) file_path) (w_fs w) = Throw cause ->
        Agent.invoke readFileTool input w
        = (Ok (JSON_stringify
                 (JObj [("success", JBool false);
                        ("file_path", JStr (Path.resolve (w_cwd w) file_path));
                        ("error", JStr ("Failed to read file: "
                                        +:+ getErrorMessage cause))])), w)).
Proof.
  split.
  - intros message Hparse. unfold readFileTool. cbn [Agent.invoke].
    unfold try_catch, bind, lift_result, validateToolInput. rewrite Hparse. reflexivity.
  - intros obj file_path cause Hparse Hpath Hne Hstat.
    unfold readFileTool. cbn [Agent.invoke].
    unfold try_catch at 1, bind at 1, lift_result.
    rewrite (validate_read_file _ _ _ Hparse Hpath Hne).
    change (get_str "file_path" [("file_path", JStr file_path)]) with file_path.
    unfold bind at 1, isBinaryAt, gets. cbv beta iota.
    unfold isLikelyBinary. rewrite Hstat.
    unfold readFileOptimized, bind, try_catch, gets, fs_call, throw, ret.
    rewrite Hstat. reflexivity.
Qed.

End ReadFile.


End ToolLaws.
